(** * File-Conversion-Tool: the transfer protocol of [client.py] and [server.py]

    A shallow embedding of the client's [send_request_to_server], of the
    server's per-connection handler in [server_program], and of the page and
    archive logic of [split_pdf], [merge_pdfs] and [rotate_pdf].

    Conventions.  Python [str] and [bytes] values are both sequences of
    8-bit characters ([list ascii]): every token, file name and number that
    travels on the wire is ASCII, so [encode] and [decode] are the identity.
    Path functions follow [posixpath].  Sizes and page numbers are [N] or
    [Z]; a Python exception is a value of [exn]. *)

From Stdlib Require Import Ascii String List ZArith NArith Lia Bool Arith.
From Stdlib Require Import Permutation Sorted.
Import ListNotations.
Open Scope string_scope.
Open Scope list_scope.

Set Implicit Arguments.

(** ** Python text primitives *)

Definition str := list ascii.
Definition bytes := list ascii.

Coercion list_ascii_of_string : string >-> list.

(** [a == b] on [str] and [bytes]. *)
Fixpoint bytes_eqb (a b : bytes) : bool :=
  match a, b with
  | [], [] => true
  | x :: a', y :: b' => Ascii.eqb x y && bytes_eqb a' b'
  | _, _ => false
  end.

Definition digit_char (d : N) : ascii := ascii_of_N (48 + d).

(** The digits of [n], most significant first, pushed in front of [acc]. *)
Fixpoint str_digits (fuel : nat) (n : N) (acc : str) : str :=
  match fuel with
  | O => acc
  | S fuel' =>
      let acc' := digit_char (n mod 10) :: acc in
      if (n / 10 =? 0)%N then acc' else str_digits fuel' (n / 10) acc'
  end.

(** [str(n)] for a non-negative integer. *)
Definition str_of_N (n : N) : str :=
  str_digits (S (N.to_nat (N.size n))) n [].

(** [str(z)] for any integer. *)
Definition str_of_Z (z : Z) : str :=
  match z with
  | Zneg p => "-"%char :: str_of_N (Npos p)
  | _ => str_of_N (Z.to_N z)
  end.

(** [s.ljust(width)]: [s] itself when it is already [width] long or longer,
    else [s] followed by spaces. *)
Definition ljust (width : nat) (s : bytes) : bytes :=
  s ++ repeat " "%char (width - length s).

(** [c.isspace()] on the ASCII range: tab, LF, VT, FF, CR, FS, GS, RS, US
    and space. *)
Definition isspace (c : ascii) : bool :=
  let k := N_of_ascii c in
  ((9 <=? k) && (k <=? 13) || (28 <=? k) && (k <=? 32))%N.

Fixpoint lstrip (s : str) : str :=
  match s with
  | [] => []
  | c :: r => if isspace c then lstrip r else s
  end.

Definition rstrip (s : str) : str := rev (lstrip (rev s)).

(** [s.strip()] *)
Definition strip (s : str) : str := rstrip (lstrip s).

Definition isdigit (c : ascii) : bool :=
  let k := N_of_ascii c in ((48 <=? k) && (k <=? 57))%N.

Definition digit_val (c : ascii) : Z := Z.of_N (N_of_ascii c - 48).

(** The digit part of an integer literal: decimal digits, with single
    underscores allowed between two digits. [prev_digit] tells whether the
    previous character was a digit. *)
Fixpoint parse_digits (acc : Z) (prev_digit : bool) (s : str) : option Z :=
  match s with
  | [] => if prev_digit then Some acc else None
  | c :: r =>
      if isdigit c then parse_digits (10 * acc + digit_val c) true r
      else if Ascii.eqb c "_" then
             if prev_digit then parse_digits acc false r else None
           else None
  end.

(** [int(s)]: surrounding whitespace is dropped, one sign is allowed;
    [None] stands for the [ValueError] of a malformed literal. *)
Definition py_int (s : str) : option Z :=
  match strip s with
  | "-"%char :: ds => option_map Z.opp (parse_digits 0 false ds)
  | "+"%char :: ds => parse_digits 0 false ds
  | ds => parse_digits 0 false ds
  end.

(** [c.lower()] and [s.lower()] on the ASCII range. *)
Definition lower_char (c : ascii) : ascii :=
  let k := N_of_ascii c in
  if ((65 <=? k) && (k <=? 90))%N then ascii_of_N (k + 32) else c.

Definition lower (s : str) : str := map lower_char s.

(** [c.isalnum()] on the ASCII range. *)
Definition isalnum (c : ascii) : bool :=
  let k := N_of_ascii c in
  ((48 <=? k) && (k <=? 57) || (65 <=? k) && (k <=? 90)
   || (97 <=? k) && (k <=? 122))%N.

(** [s.startswith(p)] *)
Fixpoint startswith (p s : str) : bool :=
  match p, s with
  | [], _ => true
  | x :: p', y :: s' => Ascii.eqb x y && startswith p' s'
  | _ :: _, [] => false
  end.

(** [s.endswith(p)] *)
Definition endswith (p s : str) : bool := startswith (rev p) (rev s).

(** [sub in s] *)
Fixpoint contains (sub s : str) : bool :=
  startswith sub s ||
  match s with
  | [] => false
  | _ :: r => contains sub r
  end.

(** [s.split(sep)] for a one-character separator: the pieces between the
    separators, never an empty list. *)
Fixpoint split_on (sep : ascii) (s : str) : list str :=
  match s with
  | [] => [[]]
  | c :: r =>
      if Ascii.eqb c sep then [] :: split_on sep r
      else match split_on sep r with
           | [] => [[c]]
           | p :: ps => (c :: p) :: ps
           end
  end.

(** [s.split(sep, 1)] when [sep in s]: what is before the first separator
    and what is after it. Without a separator the whole of [s] is the first
    piece. *)
Fixpoint split_once (sep : ascii) (s : str) : str * str :=
  match s with
  | [] => ([], [])
  | c :: r =>
      if Ascii.eqb c sep then ([], r)
      else let (a, b) := split_once sep r in (c :: a, b)
  end.

(** [os.path.basename(p)]: what follows the last slash. *)
Definition basename (p : str) : str :=
  rev (fst (split_once "/" (rev p))).

(** [s[:n]] and [s[n:]] with the bound given in binary. *)
Definition take (n : N) (s : bytes) : bytes := firstn (N.to_nat n) s.
Definition drop (n : N) (s : bytes) : bytes := skipn (N.to_nat n) s.

(** The line feed of ["\n"]. *)
Definition newline : str := [ascii_of_N 10].

(** [not l] for a sequence. *)
Definition is_empty (A : Type) (l : list A) : bool :=
  match l with [] => true | _ => false end.

(** ** Exceptions, the observable trace and the session monad *)

Inductive exn : Type :=
| ConnectionAbortedError (msg : str)
| ConnectionResetError
| ConnectionRefusedError
| socket_timeout
| ValueError (msg : str)
| FileNotFoundError (msg : str)
| Exception (msg : str)
| OutOfFuel.

(** [str(e)] *)
Definition exn_str (e : exn) : str :=
  match e with
  | ConnectionAbortedError m | ValueError m | FileNotFoundError m
  | Exception m => m
  | ConnectionResetError => "Connection reset by peer"
  | ConnectionRefusedError => "Connection refused"
  | socket_timeout => "timed out"
  | OutOfFuel => []
  end.

(** The protocol step a socket operation belongs to: a label on the
    events of the trace, with no counterpart at run time. *)
Inductive step : Type :=
| StAction | StFilename | StSize | StPayload
| StPass | StRanges | StPages | StAngle | StPosition
| StOutName | StOutSize | StOutData | StErrMsg.

Inductive file_kind : Type :=
| TempZip | ResultFile | InputFile | OutputFile | ExtractedFile | SplitFile.

Inductive dialog_kind : Type := showerror | showwarning | showinfo.

(** Everything a session does that can be observed from outside, in the
    order in which it happens. *)
Inductive event : Type :=
| Tx (st : step) (data : bytes)
| Rx (st : step) (data : bytes)
| Dialog (kind : dialog_kind) (title msg : str)
| AskSave (answer : str)
| FileWrite (kind : file_kind) (path : str) (data : bytes)
| FileRemove (path : str)
| Engine (call : str) (path : str)
| Log (msg : str).

(** What the peer and the network deliver to successive [recv] calls. An
    exhausted list is a closed connection. *)
Inductive rx_event : Type :=
| Data (b : bytes)
| Timeout
| Reset.

Definition fs := str -> option bytes.

Definition fs_write (f : fs) (path : str) (data : bytes) : fs :=
  fun p => if bytes_eqb p path then Some data else f p.

Definition fs_remove (f : fs) (path : str) : fs :=
  fun p => if bytes_eqb p path then None else f p.

(** One endpoint of a session: its socket, its disk, the trace so far and
    the local variables that outlive the [try] block. *)
Record world (L : Type) : Type := World {
  inbound : list rx_event;
  trace : list event;
  files : fs;
  locals : L
}.

Arguments World {L}.
Arguments inbound {L}.
Arguments trace {L}.
Arguments files {L}.
Arguments locals {L}.

Definition M (L A : Type) : Type := world L -> (exn + A) * world L.

Definition ret {L A} (a : A) : M L A := fun w => (inr a, w).

Definition raise {L A} (e : exn) : M L A := fun w => (inl e, w).

Definition bind {L A B} (m : M L A) (f : A -> M L B) : M L B :=
  fun w =>
    match m w with
    | (inr a, w') => f a w'
    | (inl e, w') => (inl e, w')
    end.

Declare Scope session_scope.
Delimit Scope session_scope with session.
Notation "x <- m ;; k" := (bind m (fun x => k))
  (at level 61, m at next level, right associativity) : session_scope.
Notation "m ;; k" := (bind m (fun _ => k))
  (at level 61, right associativity) : session_scope.
Notation "' pat <- m ;; k" := (bind m (fun x => match x with pat => k end))
  (at level 61, pat pattern, m at next level, right associativity)
  : session_scope.
Open Scope session_scope.

(** [if c: raise e] *)
Definition raise_if {L} (c : bool) (e : exn) : M L unit :=
  if c then raise e else ret tt.

Definition emit {L} (e : event) : M L unit :=
  fun w => (inr tt, World (inbound w) (trace w ++ [e]) (files w) (locals w)).

Definition get_locals {L} : M L L := fun w => (inr (locals w), w).

Definition set_locals {L} (l : L) : M L unit :=
  fun w => (inr tt, World (inbound w) (trace w) (files w) l).

(** [sock.sendall(data)] *)
Definition sendall {L} (st : step) (data : bytes) : M L unit :=
  emit (Tx st data).

(** [sock.recv(bufsize)]: at most [bufsize] bytes of what has arrived, the
    rest staying queued; an empty result when the peer has closed. *)
Definition recv {L} (st : step) (bufsize : N) : M L bytes :=
  fun w =>
    match inbound w with
    | [] => (inr [], World [] (trace w ++ [Rx st []]) (files w) (locals w))
    | Data b :: rest =>
        let queue :=
          match drop bufsize b with
          | [] => rest
          | more => Data more :: rest
          end in
        (inr (take bufsize b),
         World queue (trace w ++ [Rx st (take bufsize b)]) (files w)
               (locals w))
    | Timeout :: rest =>
        (inl socket_timeout, World rest (trace w) (files w) (locals w))
    | Reset :: rest =>
        (inl ConnectionResetError,
         World rest (trace w) (files w) (locals w))
    end.

(** [os.path.isfile(path)] and [os.path.exists(path)] on a disk of files. *)
Definition isfile {L} (path : str) : M L bool :=
  fun w => (inr (match files w path with Some _ => true | None => false end),
            w).

(** [open(path, "rb").read()] *)
Definition read_file {L} (path : str) : M L bytes :=
  fun w =>
    match files w path with
    | Some data => (inr data, w)
    | None => (inl (FileNotFoundError path), w)
    end.

(** [open(path, "wb").write(data)] *)
Definition write_file {L} (kind : file_kind) (path : str) (data : bytes)
  : M L unit :=
  fun w =>
    (inr tt,
     World (inbound w) (trace w ++ [FileWrite kind path data])
           (fs_write (files w) path data) (locals w)).

(** [os.remove(path)] when the file exists. *)
Definition remove_file {L} (path : str) : M L unit :=
  fun w =>
    match files w path with
    | Some _ =>
        (inr tt,
         World (inbound w) (trace w ++ [FileRemove path])
               (fs_remove (files w) path) (locals w))
    | None => (inr tt, w)
    end.

(** The sending loop of both endpoints:
    [while True: chunk = f.read(65536); if not chunk: break; sendall(chunk)] *)
Fixpoint send_chunks {L} (fuel : nat) (st : step) (data : bytes) : M L unit :=
  match take 65536 data with
  | [] => ret tt
  | chunk =>
      match fuel with
      | O => raise OutOfFuel
      | S fuel' =>
          sendall st chunk ;; send_chunks fuel' st (drop 65536 data)
      end
  end.

(** [try: body finally: cleanup] *)
Definition try_finally {L A} (body : M L A) (cleanup : M L unit) : M L A :=
  fun w =>
    match body w with
    | (r, w') =>
        match cleanup w' with
        | (inr _, w'') => (r, w'')
        | (inl e, w'') => (inl e, w'')
        end
    end.

(** [try: body except e: handler(e)] *)
Definition try_except {L A} (body : M L A) (handler : exn -> M L A) : M L A :=
  fun w =>
    match body w with
    | (inr a, w') => (inr a, w')
    | (inl e, w') => handler e w'
    end.

(** ** The client: [send_request_to_server] in [client.py] *)

Module Client.

(** The [options] dictionary; a key that is absent reads as [None]. *)
Record options : Type := Options {
  password : option str;
  ranges : option str;
  pages : option str;
  angle : option Z;
  position : option str
}.

(** [file_path_or_paths]: one path, or a list of paths. *)
Inductive file_arg : Type :=
| OnePath (path : str)
| ManyPaths (paths : list str).

(** What the client takes from its surroundings: whether the server
    accepts the connection, the name [NamedTemporaryFile] picks, the
    [zipfile] encoder, and the path the user gives to the save dialog
    (empty when the dialog is cancelled). *)
Record client_env : Type := ClientEnv {
  connect_error : option exn;
  temp_zip_name : str;
  zip_encode : list (str * bytes) -> bytes;
  save_answer : str
}.

Record client_locals : Type := ClientLocals {
  local_zip_to_send : option str
}.

Definition CM := M client_locals.

(** [not s] for an optional string: [None] and the empty string. *)
Definition falsy (s : option str) : bool :=
  match s with
  | None | Some [] => true
  | Some _ => false
  end.

Definition or_empty (s : option str) : str :=
  match s with Some v => v | None => [] end.

(** [sock.connect((HOST, PORT))] *)
Definition connect (env : client_env) : CM unit :=
  match connect_error env with
  | Some e => raise e
  | None => ret tt
  end.

(** The entries [zipf.write(file_path, basename(file_path))] adds: one for
    each path that is a file. *)
Fixpoint merge_members (disk : fs) (paths : list str) : list (str * bytes) :=
  match paths with
  | [] => []
  | file_path :: rest =>
      match disk file_path with
      | Some data => (basename file_path, data) :: merge_members disk rest
      | None => merge_members disk rest
      end
  end.

(** [str(paths)] for a list of paths. *)
Definition repr_paths (paths : list str) : str :=
  "[" ++ concat (map (fun p => "'" ++ p ++ "', ") paths) ++ "]".

(** "Prepare File Info": the file to send and the name announced to the
    server. *)
Definition prepare_file_info (env : client_env) (action : str)
    (file_path_or_paths : file_arg) : CM (str * str) :=
  if bytes_eqb action "merge" then
    match file_path_or_paths with
    | ManyPaths paths =>
        raise_if (length paths <? 2)%nat
          (ValueError "Merge action requires at least two files.") ;;
        set_locals (ClientLocals (Some (temp_zip_name env))) ;;
        members <- (fun w => (inr (merge_members (files w) paths), w)) ;;
        write_file TempZip (temp_zip_name env) (zip_encode env members) ;;
        let valid_files_count := length members in
        raise_if (valid_files_count <? 2)%nat
          (ValueError ("Merge requires at least two valid files (found "
                       ++ str_of_N (N.of_nat valid_files_count) ++ ").")) ;;
        ret (temp_zip_name env,
             "merge_input_" ++ str_of_N (N.of_nat valid_files_count)
             ++ "files.zip")
    | OnePath _ =>
        raise (ValueError "Merge action requires at least two files.")
    end
  else
    match file_path_or_paths with
    | OnePath path =>
        ok <- isfile path ;;
        raise_if (negb ok)
          (ValueError ("Input file not found or invalid: " ++ path)) ;;
        ret (path, basename path)
    | ManyPaths paths =>
        raise (ValueError ("Input file not found or invalid: "
                           ++ repr_paths paths))
    end.

(** "4. Send Extra Options (if required by action)" *)
Definition send_options (action : str) (opts : options) : CM unit :=
  if bytes_eqb action "encrypt" || bytes_eqb action "decrypt" then
    match password opts with
    | None => raise (ValueError "Password not provided for encrypt/decrypt.")
    | Some pw =>
        sendall StPass pw ;;
        ack <- recv StPass 1024 ;;
        raise_if (negb (bytes_eqb ack "ACK_PASS"))
          (ConnectionAbortedError "Invalid ACK after sending password.")
    end
  else if bytes_eqb action "split" then
    let ranges_str := ranges opts in
    raise_if (falsy ranges_str) (ValueError "Split ranges not provided.") ;;
    sendall StRanges (or_empty ranges_str) ;;
    ack <- recv StRanges 1024 ;;
    raise_if (negb (bytes_eqb ack "ACK_RANGES"))
      (ConnectionAbortedError "Invalid ACK after sending ranges.")
  else if bytes_eqb action "rotate" then
    let pages_str := pages opts in
    let angle_str : str :=
      match angle opts with Some a => str_of_Z a | None => "None" end in
    raise_if (falsy pages_str || falsy (Some angle_str))
      (ValueError "Rotation pages/angle not provided.") ;;
    sendall StPages (or_empty pages_str) ;;
    ack <- recv StPages 1024 ;;
    raise_if (negb (bytes_eqb ack "ACK_PAGES"))
      (ConnectionAbortedError "Invalid ACK after sending pages.") ;;
    sendall StAngle angle_str ;;
    ack <- recv StAngle 1024 ;;
    raise_if (negb (bytes_eqb ack "ACK_ANGLE"))
      (ConnectionAbortedError "Invalid ACK after sending angle.")
  else if bytes_eqb action "add_numbers" then
    let pos := position opts in
    raise_if (falsy pos) (ValueError "Page number position not provided.") ;;
    sendall StPosition (or_empty pos) ;;
    ack <- recv StPosition 1024 ;;
    raise_if (negb (bytes_eqb ack "ACK_POSITION"))
      (ConnectionAbortedError "Invalid ACK after sending position.")
  else ret tt.

(** "7. Receive Output File Data":
    [while received_bytes < output_size: chunk = sock.recv(min(65536, ...))] *)
Fixpoint recv_output (fuel : nat) (output_size received_bytes : Z)
    (output_data : bytes) : CM bytes :=
  if (received_bytes <? output_size)%Z then
    match fuel with
    | O => raise OutOfFuel
    | S fuel' =>
        chunk <- recv StOutData
                   (Z.to_N (Z.min 65536 (output_size - received_bytes))) ;;
        raise_if (is_empty chunk)
          (ConnectionAbortedError
             ("Server disconnected during result transfer ("
              ++ str_of_Z received_bytes ++ "/" ++ str_of_Z output_size
              ++ " received).")) ;;
        recv_output fuel' output_size
          (received_bytes + Z.of_nat (length chunk)) (output_data ++ chunk)
    end
  else ret output_data.

(** "Receive Result" and "Save Result": steps 5 to 7 and the save dialog. *)
Definition receive_result (env : client_env) (action : str) : CM bool :=
  output_filename_suggestion <- recv StOutName 1024 ;;
  raise_if (is_empty output_filename_suggestion)
    (ConnectionAbortedError
       "Server disconnected before sending output filename.") ;;
  sendall StOutName "ACK_OUT_FILENAME" ;;
  output_size_bytes <- recv StOutSize 16 ;;
  raise_if (is_empty output_size_bytes)
    (ConnectionAbortedError
       "Server disconnected before sending output size.") ;;
  match py_int (strip output_size_bytes) with
  | None =>
      raise (ValueError ("invalid literal for int() with base 10: '"
                         ++ strip output_size_bytes ++ "'"))
  | Some output_size =>
      sendall StOutSize "ACK_OUT_SIZE" ;;
      if (output_size =? 0)%Z
         && contains "error_" (lower output_filename_suggestion) then
        error_msg <- recv StErrMsg 4096 ;;
        raise (Exception
                 (match error_msg with
                  | [] => "Server indicated an error ("
                          ++ output_filename_suggestion ++ ")."
                  | _ => "Server Error: " ++ error_msg
                  end))
      else if (output_size =? 0)%Z then
        emit (Dialog showwarning "Empty Result"
                ("Server returned an empty result file for action '"
                 ++ action ++ "'." ++ newline ++ "Filename: "
                 ++ output_filename_suggestion)) ;;
        ret true
      else
        output_data <- recv_output (Z.to_nat output_size) output_size 0 [] ;;
        let save_path := save_answer env in
        emit (AskSave save_path) ;;
        match save_path with
        | [] =>
            emit (Dialog showwarning "Cancelled"
                    "Save operation cancelled by user.") ;;
            ret false
        | _ =>
            write_file ResultFile save_path output_data ;;
            emit (Dialog showinfo "Success"
                    ("File processed and saved successfully!" ++ newline
                     ++ "Path: " ++ save_path)) ;;
            ret true
        end
  end.

(** The body of the [try] block. *)
Definition send_request_body (env : client_env) (action : str)
    (file_path_or_paths : file_arg) (opts : options) : CM bool :=
  connect env ;;
  sendall StAction action ;;
  ack <- recv StAction 1024 ;;
  raise_if (negb (bytes_eqb ack "ACK_ACTION"))
    (ConnectionAbortedError "Invalid ACK after sending action.") ;;
  '(file_to_send, filename_for_server) <-
     prepare_file_info env action file_path_or_paths ;;
  sendall StFilename filename_for_server ;;
  ack <- recv StFilename 1024 ;;
  raise_if (negb (bytes_eqb ack "ACK_FILENAME"))
    (ConnectionAbortedError "Invalid ACK after sending filename.") ;;
  content <- read_file file_to_send ;;
  let file_size := N.of_nat (length content) in
  sendall StSize (ljust 16 (str_of_N file_size)) ;;
  ack <- recv StSize 1024 ;;
  raise_if (negb (bytes_eqb ack "ACK_SIZE"))
    (ConnectionAbortedError "Invalid ACK after sending size.") ;;
  send_chunks (length content) StPayload content ;;
  send_options action opts ;;
  receive_result env action.

(** The [except] clauses: each shows a dialog and returns [False]. *)
Definition report_failure (e : exn) : CM bool :=
  match e with
  | socket_timeout =>
      emit (Dialog showerror "Timeout Error"
              "Connection or operation timed out.") ;;
      ret false
  | ConnectionRefusedError =>
      emit (Dialog showerror "Connection Error"
              "Could not connect to the server.") ;;
      ret false
  | ConnectionAbortedError _ | ConnectionResetError =>
      emit (Dialog showerror "Connection Error"
              ("Connection lost:" ++ newline ++ exn_str e)) ;;
      ret false
  | ValueError m =>
      emit (Dialog showerror "Input Error" m) ;;
      ret false
  | _ =>
      emit (Dialog showerror "Error"
              ("An unexpected error occurred:" ++ newline ++ exn_str e)) ;;
      ret false
  end.

(** The [finally] clause: the temporary archive of a merge is removed. *)
Definition client_cleanup : CM unit :=
  l <- get_locals ;;
  match local_zip_to_send l with
  | Some path => remove_file path
  | None => ret tt
  end.

Definition send_request_to_server (env : client_env) (action : str)
    (file_path_or_paths : file_arg) (opts : options) : CM bool :=
  try_finally
    (try_except (send_request_body env action file_path_or_paths opts)
                report_failure)
    client_cleanup.

(** The state of the client when the function is entered. *)
Definition client_start (incoming : list rx_event) (disk : fs)
  : world client_locals :=
  World incoming [] disk (ClientLocals None).

End Client.

(** ** Paths and sorting on the server *)

(** [os.path.splitext(p)]: the extension starts at the last dot of the
    last path component, unless only dots precede it there. *)
Definition splitext (p : str) : str * str :=
  let name := basename p in
  let head := firstn (length p - length name) p in
  if contains "." name then
    let (rext, rstem) := split_once "." (rev name) in
    let stem := rev rstem in
    if existsb (fun c => negb (Ascii.eqb c ".")) stem
    then (head ++ stem, "."%char :: rev rext)
    else (p, [])
  else (p, []).

(** [os.path.join(a, b)] *)
Definition path_join (a b : str) : str :=
  if startswith "/" b then b
  else if match a with [] => true | _ => endswith "/" a end then a ++ b
  else a ++ "/" ++ b.

(** [a <= b] on strings: the order [list.sort] uses. *)
Fixpoint str_leb (a b : str) : bool :=
  match a, b with
  | [], _ => true
  | _ :: _, [] => false
  | x :: a', y :: b' =>
      if (N_of_ascii x <? N_of_ascii y)%N then true
      else if Ascii.eqb x y then str_leb a' b'
      else false
  end.

Fixpoint insert_sorted (x : str) (l : list str) : list str :=
  match l with
  | [] => [x]
  | y :: r => if str_leb x y then x :: l else y :: insert_sorted x r
  end.

(** [l.sort()] on a list of strings. *)
Definition sort (l : list str) : list str := fold_right insert_sorted [] l.

(** [shutil.rmtree(dir)]: every file below [dir] goes. *)
Definition fs_rmtree (f : fs) (dir : str) : fs :=
  fun p => if startswith (dir ++ "/") p then None else f p.

(** ** The server: the connection handler of [server_program] and the
    page and archive logic of [server.py] *)

Module Server.

(** A page object of the PDF library, identified with its content. *)
Definition page := bytes.

(** A [ZipInfo] together with the data of its entry. *)
Record zip_member : Type := ZipMember {
  filename : str;
  is_dir : bool;
  content : bytes
}.

(** The collaborators of the server: its process id, the system's
    temporary directory, the PDF library ([pypdf]), [zipfile], and the
    conversions that are left to document libraries and office automation
    (given the action, the input extension, the input and the password or
    position, they fail or finish, with or without an output file). *)
Record server_env : Type := ServerEnv {
  getpid : N;
  gettempdir : str;
  PdfReader : bytes -> exn + list page;
  PdfWriter_write : list page -> bytes;
  page_rotate : Z -> page -> page;
  ZipFile_infolist : bytes -> exn + list zip_member;
  zip_encode : list (str * bytes) -> bytes;
  external_action : str -> str -> bytes -> str -> exn + option bytes
}.

(** The paths of one session, as "Setup Paths" derives them. *)
Record workspace : Type := Workspace {
  input_ext : str;
  input_path : str;
  output_path : str;
  temp_dir_for_action : option str;
  received_zip_path : option str;
  output_filename_suggestion : str
}.

(** The received [options] dictionary. *)
Record options : Type := Options {
  password : str;
  ranges : str;
  pages : str;
  angle : str;
  position : str
}.

Definition no_options : options := Options [] [] [] [] [].

(** The variables of the handler that its [except] and [finally] clauses
    read. *)
Record server_locals : Type := ServerLocals {
  action : str;
  paths : option workspace;
  action_success : bool
}.

Definition SM := M server_locals.

(** [c if c.isalnum() or c in ['_', '-'] else '_'] for each character. *)
Definition sanitize (s : str) : str :=
  map (fun c => if isalnum c || Ascii.eqb c "_" || Ascii.eqb c "-"
                then c else "_"%char) s.

(** "Setup Paths" *)
Definition setup_paths (temp_dir : str) (pid : N) (action base_filename : str)
  : workspace :=
  let (input_filename_base, input_ext) := splitext base_filename in
  let safe_base := firstn 50 (sanitize input_filename_base) in
  let pid_suffix : str := "_" ++ str_of_N pid in
  let input_path :=
    if bytes_eqb action "merge"
    then path_join temp_dir (safe_base ++ pid_suffix ++ ".zip")
    else path_join temp_dir (safe_base ++ pid_suffix ++ input_ext) in
  let received_zip_path :=
    if bytes_eqb action "merge" then Some input_path else None in
  if bytes_eqb action "pdf_to_jpg" then
    Workspace input_ext input_path
      (path_join temp_dir (safe_base ++ "_images" ++ pid_suffix ++ ".zip"))
      (Some (path_join temp_dir (safe_base ++ "_jpg_output" ++ pid_suffix)))
      received_zip_path (safe_base ++ "_images.zip")
  else if bytes_eqb action "pdf_to_word" then
    Workspace input_ext input_path
      (path_join temp_dir (safe_base ++ pid_suffix ++ ".docx"))
      None received_zip_path (safe_base ++ ".docx")
  else if bytes_eqb action "pdf_to_pptx" then
    Workspace input_ext input_path
      (path_join temp_dir (safe_base ++ pid_suffix ++ ".pptx"))
      (Some (path_join temp_dir
               (safe_base ++ "_pptx_temp_imgs" ++ pid_suffix)))
      received_zip_path (safe_base ++ ".pptx")
  else if bytes_eqb action "split" then
    Workspace input_ext input_path
      (path_join temp_dir
         (safe_base ++ "_split_files" ++ pid_suffix ++ ".zip"))
      (Some (path_join temp_dir (safe_base ++ "_split_output" ++ pid_suffix)))
      received_zip_path (safe_base ++ "_split_files.zip")
  else if bytes_eqb action "merge" then
    let output_filename_base := firstn 50 ("merged_" ++ input_filename_base) in
    Workspace input_ext input_path
      (path_join temp_dir (output_filename_base ++ pid_suffix ++ ".pdf"))
      None received_zip_path (output_filename_base ++ ".pdf")
  else
    let suffix : str :=
      if negb (bytes_eqb action "convert") then action else "processed" in
    let output_filename_base := safe_base ++ "_" ++ suffix in
    Workspace input_ext input_path
      (path_join temp_dir (output_filename_base ++ pid_suffix ++ ".pdf"))
      None received_zip_path (output_filename_base ++ ".pdf").

(** [f.write(chunk)] on the file being received. *)
Definition append_file (kind : file_kind) (path : str) (chunk : bytes)
  : SM unit :=
  fun w =>
    let data := match files w path with Some old => old | None => [] end
                ++ chunk in
    (inr tt,
     World (inbound w) (trace w ++ [FileWrite kind path data])
           (fs_write (files w) path data) (locals w)).

(** "4. Receive File Data" *)
Fixpoint recv_input (fuel : nat) (input_path : str) (size received_bytes : Z)
  : SM Z :=
  if (received_bytes <? size)%Z then
    match fuel with
    | O => raise OutOfFuel
    | S fuel' =>
        chunk <- recv StPayload
                   (Z.to_N (Z.min 65536 (size - received_bytes))) ;;
        raise_if (is_empty chunk)
          (ConnectionAbortedError
             ("Client disconnected during file transfer ("
              ++ str_of_Z received_bytes ++ "/" ++ str_of_Z size
              ++ " received).")) ;;
        append_file InputFile input_path chunk ;;
        recv_input fuel' input_path size
          (received_bytes + Z.of_nat (length chunk))
    end
  else ret received_bytes.

(** "Receive Extra Options" *)
Definition recv_options (action : str) : SM options :=
  if bytes_eqb action "encrypt" || bytes_eqb action "decrypt" then
    pass_bytes <- recv StPass 1024 ;;
    sendall StPass "ACK_PASS" ;;
    raise_if (is_empty pass_bytes)
      (ConnectionAbortedError "No password received.") ;;
    ret (Options pass_bytes [] [] [] [])
  else if bytes_eqb action "split" then
    ranges_bytes <- recv StRanges 1024 ;;
    sendall StRanges "ACK_RANGES" ;;
    raise_if (is_empty ranges_bytes)
      (ConnectionAbortedError "No split ranges received.") ;;
    ret (Options [] ranges_bytes [] [] [])
  else if bytes_eqb action "rotate" then
    pages_bytes <- recv StPages 1024 ;;
    sendall StPages "ACK_PAGES" ;;
    raise_if (is_empty pages_bytes)
      (ConnectionAbortedError "No rotate pages received.") ;;
    angle_bytes <- recv StAngle 1024 ;;
    sendall StAngle "ACK_ANGLE" ;;
    raise_if (is_empty angle_bytes)
      (ConnectionAbortedError "No rotate angle received.") ;;
    ret (Options [] [] pages_bytes angle_bytes [])
  else if bytes_eqb action "add_numbers" then
    pos_bytes <- recv StPosition 1024 ;;
    sendall StPosition "ACK_POSITION" ;;
    raise_if (is_empty pos_bytes)
      (ConnectionAbortedError "No position received.") ;;
    ret (Options [] [] [] [] pos_bytes)
  else ret no_options.

(** [pypdf.PdfReader(path)] and its [pages]. *)
Definition read_pdf (env : server_env) (path : str) : SM (list page) :=
  emit (Engine "PdfReader" path) ;;
  data <- read_file path ;;
  match PdfReader env data with
  | inl e => raise e
  | inr pages => ret pages
  end.

Definition int_error (s : str) : exn :=
  ValueError ("invalid literal for int() with base 10: '" ++ s ++ "'").

(** One segment of a page specification, [N] or [A-B] with either bound
    optional: the page indices [range(start - 1, end)] it selects, as the
    pair of its bounds, or the [ValueError] of a malformed or out-of-range
    segment. *)
Definition part_range (num_pages : Z) (part : str) : exn + (Z * Z) :=
  if contains "-" part then
    let (start_str, end_str) := split_once "-" part in
    match (match start_str with [] => Some 1%Z | _ => py_int start_str end)
    with
    | None => inl (int_error start_str)
    | Some start =>
        match (match end_str with [] => Some num_pages | _ => py_int end_str
               end) with
        | None => inl (int_error end_str)
        | Some end_ =>
            if ((1 <=? start) && (start <=? end_) && (end_ <=? num_pages))%Z
            then inr ((start - 1)%Z, end_)
            else inl (ValueError
                        ("Range " ++ str_of_Z start ++ "-" ++ str_of_Z end_
                         ++ " out of bounds (1-" ++ str_of_Z num_pages ++ ")"))
        end
    end
  else
    match py_int part with
    | None => inl (int_error part)
    | Some page_num =>
        if ((1 <=? page_num) && (page_num <=? num_pages))%Z
        then inr ((page_num - 1)%Z, page_num)
        else inl (ValueError
                    ("Page number " ++ str_of_Z page_num
                     ++ " out of bounds (1-" ++ str_of_Z num_pages ++ ")"))
    end.

(** [pages[a:b]] *)
Definition slice (A : Type) (l : list A) (a b : Z) : list A :=
  firstn (Z.to_nat (b - a)) (skipn (Z.to_nat a) l).

(** The loop of [split_pdf] over the comma-separated parts. *)
Fixpoint split_parts (env : server_env) (input_path output_dir : str)
    (reader_pages : list page) (parts : list str) (file_index : N)
    (output_files : list str) : SM (list str) :=
  match parts with
  | [] => ret output_files
  | part :: rest =>
      let part := strip part in
      if is_empty part then
        split_parts env input_path output_dir reader_pages rest file_index
                    output_files
      else
        match part_range (Z.of_nat (length reader_pages)) part with
        | inl parse_err =>
            emit (Log ("Warning: Skipping invalid range/page '" ++ part
                       ++ "': " ++ exn_str parse_err)) ;;
            split_parts env input_path output_dir reader_pages rest
                        file_index output_files
        | inr (first, stop) =>
            let safe_base :=
              map (fun c => if isalnum c then c else "_"%char)
                  (basename input_path) in
            let output_filename :=
              path_join output_dir
                ("split_" ++ str_of_N file_index ++ "_" ++ safe_base
                 ++ ".pdf") in
            write_file SplitFile output_filename
              (PdfWriter_write env (slice reader_pages first stop)) ;;
            split_parts env input_path output_dir reader_pages rest
                        (file_index + 1) (output_files ++ [output_filename])
        end
  end.

Definition split_pdf (env : server_env) (input_path output_dir ranges_str : str)
  : SM (list str) :=
  reader_pages <- read_pdf env input_path ;;
  raise_if (length reader_pages =? 0)%nat
    (ValueError "Input PDF has no pages to split.") ;;
  output_files <-
    split_parts env input_path output_dir reader_pages
                (split_on "," ranges_str) 1 [] ;;
  raise_if (is_empty output_files)
    (ValueError "No valid output files created. Check input ranges and PDF.") ;;
  ret output_files.

(** [zip_ref.open(name)]: the data of the last entry of that name. *)
Fixpoint zip_open (members : list zip_member) (name : str) : option bytes :=
  match members with
  | [] => None
  | m :: rest =>
      match zip_open rest name with
      | Some data => Some data
      | None => if bytes_eqb (filename m) name then Some (content m) else None
      end
  end.

(** The test that makes the extraction loop skip an entry. *)
Definition skipped (member : zip_member) : bool :=
  is_dir member
  || negb (endswith ".pdf" (lower (filename member)))
  || contains "../" (filename member).

(** The extraction loop of [merge_pdfs]: each entry that is kept is copied
    to its base name inside [temp_extract_dir]. *)
Fixpoint extract_members (all_members members : list zip_member)
    (temp_extract_dir : str) (pdf_files_to_merge : list str)
  : SM (list str) :=
  match members with
  | [] => ret pdf_files_to_merge
  | member :: rest =>
      if skipped member then
        extract_members all_members rest temp_extract_dir pdf_files_to_merge
      else
        let target_path :=
          path_join temp_extract_dir (basename (filename member)) in
        match zip_open all_members (filename member) with
        | Some data =>
            write_file ExtractedFile target_path data ;;
            extract_members all_members rest temp_extract_dir
                            (pdf_files_to_merge ++ [target_path])
        | None =>
            emit (Log ("Warning: Failed to extract " ++ filename member)) ;;
            extract_members all_members rest temp_extract_dir
                            pdf_files_to_merge
        end
  end.

(** [for pdf_path in pdf_files_to_merge: merger.append(pdf_path)]: a file
    the library cannot read is skipped with a warning. *)
Fixpoint append_all (env : server_env) (pdf_files_to_merge : list str)
    (merger_pages : list page) : SM (list page) :=
  match pdf_files_to_merge with
  | [] => ret merger_pages
  | pdf_path :: rest =>
      emit (Engine "PdfMerger.append" pdf_path) ;;
      fun w =>
        match files w pdf_path with
        | Some data =>
            match PdfReader env data with
            | inr pages => append_all env rest (merger_pages ++ pages) w
            | inl append_e =>
                (emit (Log ("Warning: Could not append PDF '"
                            ++ basename pdf_path ++ "'. Skipping. Error: "
                            ++ exn_str append_e)) ;;
                 append_all env rest merger_pages) w
            end
        | None =>
            (emit (Log ("Warning: Could not append PDF '"
                        ++ basename pdf_path ++ "'. Skipping. Error: "
                        ++ exn_str (FileNotFoundError pdf_path))) ;;
             append_all env rest merger_pages) w
        end
  end.

Definition merge_pdfs (env : server_env) (input_zip_path output_path : str)
  : SM unit :=
  let temp_extract_dir :=
    path_join (gettempdir env)
      ("merge_" ++ basename output_path ++ "_extracted_"
       ++ str_of_N (getpid env)) in
  try_finally
    (emit (Engine "ZipFile" input_zip_path) ;;
     archive <- read_file input_zip_path ;;
     match ZipFile_infolist env archive with
     | inl e => raise e
     | inr members =>
         pdf_files_to_merge <-
           extract_members members members temp_extract_dir [] ;;
         raise_if (is_empty pdf_files_to_merge)
           (ValueError
              "No valid PDF files found or extracted from the zip archive.") ;;
         let pdf_files_to_merge := sort pdf_files_to_merge in
         merger_pages <- append_all env pdf_files_to_merge [] ;;
         raise_if (length merger_pages =? 0)%nat
           (Exception
              "Merging resulted in an empty PDF. Check input files and logs.") ;;
         write_file OutputFile output_path (PdfWriter_write env merger_pages)
     end)
    (fun w =>
       (inr tt,
        World (inbound w) (trace w ++ [FileRemove temp_extract_dir])
              (fs_rmtree (files w) temp_extract_dir) (locals w))).

(** [range(a, b)] *)
Definition py_range (a b : Z) : list Z :=
  map (fun i => (a + Z.of_nat i)%Z) (seq 0 (Z.to_nat (b - a))).

(** The loop of [rotate_pdf] over the parts of a page specification: a
    segment that is malformed or out of range aborts the action. *)
Fixpoint rotate_parts (num_pages : Z) (parts : list str)
    (rotate_indices : list Z) : exn + list Z :=
  match parts with
  | [] => inr rotate_indices
  | part :: rest =>
      let part := strip part in
      if is_empty part then rotate_parts num_pages rest rotate_indices
      else
        match part_range num_pages part with
        | inl parse_err =>
            inl (ValueError ("Invalid page specification '" ++ part ++ "': "
                             ++ exn_str parse_err))
        | inr (first, stop) =>
            rotate_parts num_pages rest
                         (rotate_indices ++ py_range first stop)
        end
  end.

(** [writer.pages[i].rotate(angle)] for each index of the set. *)
Fixpoint rotate_selected (env : server_env) (angle : Z)
    (rotate_indices : list Z) (i : Z) (pages : list page) : list page :=
  match pages with
  | [] => []
  | p :: rest =>
      (if existsb (Z.eqb i) rotate_indices then page_rotate env angle p
       else p)
      :: rotate_selected env angle rotate_indices (i + 1) rest
  end.

Definition rotate_pdf (env : server_env)
    (input_path output_path pages_str angle : str) : SM unit :=
  match py_int angle with
  | None => raise (int_error angle)
  | Some angle =>
      raise_if (negb (angle mod 90 =? 0)%Z)
        (ValueError "Rotation angle must be a multiple of 90.") ;;
      reader_pages <- read_pdf env input_path ;;
      let num_pages := Z.of_nat (length reader_pages) in
      raise_if (num_pages =? 0)%Z
        (ValueError "Input PDF has no pages to rotate.") ;;
      let pages_str_lower := lower (strip pages_str) in
      match (if bytes_eqb pages_str_lower "all"
             then inr (py_range 0 num_pages)
             else if negb (is_empty pages_str_lower)
                  then rotate_parts num_pages (split_on "," pages_str_lower) []
                  else inr []) with
      | inl e => raise e
      | inr rotate_indices =>
          write_file OutputFile output_path
            (PdfWriter_write env
               (rotate_selected env angle rotate_indices 0 reader_pages))
      end
  end.

(** The actions whose work is entirely the libraries': the collaborator
    is called on the input file and may leave an output file. *)
Definition run_external (env : server_env) (action : str) (ws : workspace)
    (option_value : str) : SM unit :=
  emit (Engine action (input_path ws)) ;;
  data <- read_file (input_path ws) ;;
  match external_action env action (input_ext ws) data option_value with
  | inl e => raise e
  | inr (Some out) => write_file OutputFile (output_path ws) out
  | inr None => ret tt
  end.

(** [handle_file_conversion]: only the listed extensions are converted. *)
Definition handle_file_conversion (env : server_env) (ws : workspace)
  : SM unit :=
  let ext := lower (input_ext ws) in
  if existsb (bytes_eqb ext)
       [(".jpg" : str); (".jpeg" : str); (".png" : str); (".docx" : str);
        (".pptx" : str); (".xlsx" : str); (".html" : str)]
  then run_external env "convert" ws []
  else raise (ValueError ("Unsupported file format for 'convert' action: "
                          ++ ext)).

(** [encrypt_pdf] and [decrypt_pdf] turn a failure of the library into a
    [ValueError]; [decrypt_pdf] lets a [ValueError] through unchanged. *)
Definition encrypt_pdf (env : server_env) (ws : workspace) (password : str)
  : SM unit :=
  try_except (run_external env "encrypt" ws password)
    (fun e => raise (ValueError ("PDF Encryption failed: " ++ exn_str e))).

Definition decrypt_pdf (env : server_env) (ws : workspace) (password : str)
  : SM unit :=
  try_except (run_external env "decrypt" ws password)
    (fun e =>
       match e with
       | ValueError _ => raise e
       | _ => raise (ValueError ("PDF Decryption failed: " ++ exn_str e))
       end).

(** The files of [created_files] put into one archive under their base
    names. *)
Fixpoint zip_files (disk : fs) (created_files : list str)
  : list (str * bytes) :=
  match created_files with
  | [] => []
  | file :: rest =>
      (basename file, match disk file with Some d => d | None => [] end)
      :: zip_files disk rest
  end.

(** "Execute Action" *)
Definition execute_action (env : server_env) (action : str) (ws : workspace)
    (opts : options) : SM unit :=
  if bytes_eqb action "convert" then handle_file_conversion env ws
  else if bytes_eqb action "encrypt" then encrypt_pdf env ws (password opts)
  else if bytes_eqb action "decrypt" then decrypt_pdf env ws (password opts)
  else if bytes_eqb action "pdf_to_jpg" then run_external env action ws []
  else if bytes_eqb action "pdf_to_word" then run_external env action ws []
  else if bytes_eqb action "pdf_to_pptx" then run_external env action ws []
  else if bytes_eqb action "compress" then run_external env action ws []
  else if bytes_eqb action "split" then
    created_files <-
      split_pdf env (input_path ws)
        (match temp_dir_for_action ws with Some d => d | None => [] end)
        (ranges opts) ;;
    fun w =>
      write_file OutputFile (output_path ws)
        (zip_encode env (zip_files (files w) created_files)) w
  else if bytes_eqb action "merge" then
    merge_pdfs env
      (match received_zip_path ws with Some z => z | None => [] end)
      (output_path ws)
  else if bytes_eqb action "rotate" then
    rotate_pdf env (input_path ws) (output_path ws) (pages opts) (angle opts)
  else if bytes_eqb action "add_numbers" then
    run_external env action ws (position opts)
  else raise (ValueError ("Invalid action received from client: " ++ action)).

(** "Send Result" *)
Definition send_result (action : str) (ws : workspace) : SM unit :=
  present <- isfile (output_path ws) ;;
  raise_if (negb present)
    (FileNotFoundError
       ("Output file was not created by action '" ++ action ++ "': "
        ++ output_path ws)) ;;
  sendall StOutName (output_filename_suggestion ws) ;;
  ack <- recv StOutName 1024 ;;
  raise_if (is_empty ack || negb (bytes_eqb ack "ACK_OUT_FILENAME"))
    (ConnectionAbortedError "Client disconnected before ACK filename") ;;
  data <- read_file (output_path ws) ;;
  let output_size := N.of_nat (length data) in
  sendall StOutSize (ljust 16 (str_of_N output_size)) ;;
  ack <- recv StOutSize 1024 ;;
  raise_if (is_empty ack || negb (bytes_eqb ack "ACK_OUT_SIZE"))
    (ConnectionAbortedError "Client disconnected before ACK size") ;;
  send_chunks (length data) StOutData data.

(** The body of the [try] block of one connection. *)
Definition serve_request (env : server_env) : SM unit :=
  action_bytes <- recv StAction 1024 ;;
  raise_if (is_empty action_bytes)
    (ConnectionAbortedError "Client disconnected before sending action.") ;;
  let action := strip action_bytes in
  set_locals (ServerLocals action None false) ;;
  sendall StAction "ACK_ACTION" ;;
  base_filename <- recv StFilename 1024 ;;
  raise_if (is_empty base_filename)
    (ConnectionAbortedError "Client disconnected before sending filename.") ;;
  sendall StFilename "ACK_FILENAME" ;;
  let ws := setup_paths (gettempdir env) (getpid env) action base_filename in
  set_locals (ServerLocals action (Some ws) false) ;;
  size_bytes <- recv StSize 16 ;;
  raise_if (is_empty size_bytes)
    (ConnectionAbortedError "Client disconnected before sending size.") ;;
  match py_int (strip size_bytes) with
  | None => raise (int_error (strip size_bytes))
  | Some size =>
      sendall StSize "ACK_SIZE" ;;
      write_file InputFile (input_path ws) [] ;;
      recv_input (Z.to_nat size) (input_path ws) size 0 ;;
      opts <- recv_options action ;;
      execute_action env action ws opts ;;
      set_locals (ServerLocals action (Some ws) true) ;;
      send_result action ws
  end.

(** The error envelope: a name with [error_], a size of zero, a message.
    Whatever goes wrong while sending it is only logged. *)
Definition send_error (name : str) (message : str) : SM unit :=
  try_except
    (sendall StOutName name ;;
     recv StOutName 1024 ;;
     sendall StOutSize (ljust 16 (str_of_N 0)) ;;
     recv StOutSize 1024 ;;
     sendall StErrMsg message)
    (fun e_send => ret tt).

(** The [except] clauses of the handler. *)
Definition handle_error (e : exn) : SM unit :=
  match e with
  | ConnectionAbortedError _ | ConnectionResetError | socket_timeout =>
      ret tt
  | FileNotFoundError _ =>
      send_error "error_file_not_found.bin"
        ("ERROR: File not found on server. " ++ exn_str e)
  | _ =>
      l <- get_locals ;;
      if negb (action_success l) then
        send_error "error_processing.bin"
          ("ERROR: Server failed during action '" ++ action l
           ++ "'. Check server logs. Details: " ++ firstn 200 (exn_str e))
      else ret tt
  end.

(** The [finally] clause: input file, output file and scratch directory
    are removed. *)
Definition cleanup : SM unit :=
  l <- get_locals ;;
  match paths l with
  | None => ret tt
  | Some ws =>
      remove_file (input_path ws) ;;
      remove_file (output_path ws) ;;
      match temp_dir_for_action ws with
      | Some dir_path =>
          fun w =>
            (inr tt,
             World (inbound w) (trace w ++ [FileRemove dir_path])
                   (fs_rmtree (files w) dir_path) (locals w))
      | None => ret tt
      end
  end.

(** One iteration of the accept loop. *)
Definition handle_connection (env : server_env) : SM unit :=
  try_finally (try_except (serve_request env) handle_error) cleanup.

(** The state of the server when a connection has been accepted. *)
Definition server_start (incoming : list rx_event) (disk : fs)
  : world server_locals :=
  World incoming [] disk (ServerLocals "unknown" None false).

End Server.

(** * The vocabulary of the properties *)

Unset Implicit Arguments.

(** The value of a digit string read from the left, starting from [acc]. *)
Definition dec_value (acc : Z) (s : str) : Z :=
  fold_left (fun a c => (10 * a + digit_val c)%Z) s acc.

(** [hoare P m Qv Qe]: from a state in [P], [m] ends in [Qv] when it
    returns and in [Qe] when it raises. *)
Definition hoare {L A} (P : world L -> Prop) (m : M L A)
    (Qv : A -> world L -> Prop) (Qe : exn -> world L -> Prop) : Prop :=
  forall w, P w ->
    match m w with
    | (inr a, w') => Qv a w'
    | (inl e, w') => Qe e w'
    end.

(** [emits_only G m]: [m] only adds events to the trace, all of the kind
    [G]. *)
Definition emits_only {L A} (G : event -> bool) (m : M L A) : Prop :=
  forall w, exists evs,
    trace (snd (m w)) = trace w ++ evs /\ forallb G evs = true.

(** [silent K m]: [m] adds no event of the kind [K] to the trace. *)
Definition silent {L A} (K : event -> bool) (m : M L A) : Prop :=
  emits_only (fun e => negb (K e)) m.

(** The exceptions the server logs as network errors. *)
Definition is_net (e : exn) : bool :=
  match e with
  | ConnectionAbortedError _ | ConnectionResetError | socket_timeout => true
  | _ => false
  end.

(** The events of kind [K] of the trace, in order. *)
Definition proj {L} (K : event -> bool) (w : world L) : list event :=
  filter K (trace w).

(** *** The receipt and the saving of the result, on the client *)


(** The size field [field] has arrived, then the chunks [chunks]. *)
Definition receiving (field : bytes) (chunks : list bytes) : list event :=
  Rx StOutSize field :: map (Rx StOutData) chunks.

(** The chunks add up to the size the field declares; a field that
    declares a negative number asks for nothing. *)
Definition complete (field : bytes) (chunks : list bytes) : Prop :=
  exists size, py_int (strip field) = Some size /\
               Z.of_nat (length (concat chunks)) = Z.max 0 size.


(** The result file was written to [path], once, after the whole result
    had arrived and the save dialog had answered [path]. *)
Definition written (path : str) (tr : list event) : Prop :=
  exists field chunks,
    complete field chunks /\ path <> [] /\
    tr = receiving field chunks
         ++ [AskSave path; FileWrite ResultFile path (concat chunks)].

(** *** Acknowledgements, on the client *)

(** The token the client waits for after the data of a step. *)
Definition expected_ack (st : step) : option bytes :=
  match st with
  | StAction => Some ("ACK_ACTION" : bytes)
  | StFilename => Some ("ACK_FILENAME" : bytes)
  | StSize => Some ("ACK_SIZE" : bytes)
  | StPass => Some ("ACK_PASS" : bytes)
  | StRanges => Some ("ACK_RANGES" : bytes)
  | StPages => Some ("ACK_PAGES" : bytes)
  | StAngle => Some ("ACK_ANGLE" : bytes)
  | StPosition => Some ("ACK_POSITION" : bytes)
  | _ => None
  end.

(** The message of the [ConnectionAbortedError] of each step. *)
Definition ack_error (st : step) : str :=
  match st with
  | StAction => "Invalid ACK after sending action."
  | StFilename => "Invalid ACK after sending filename."
  | StSize => "Invalid ACK after sending size."
  | StPass => "Invalid ACK after sending password."
  | StRanges => "Invalid ACK after sending ranges."
  | StPages => "Invalid ACK after sending pages."
  | StAngle => "Invalid ACK after sending angle."
  | StPosition => "Invalid ACK after sending position."
  | _ => []
  end.

(** An event that is not the receipt of a wrong acknowledgement. *)
Definition ack_ok (e : event) : bool :=
  match e with
  | Rx st reply =>
      match expected_ack st with
      | Some tok => bytes_eqb reply tok
      | None => true
      end
  | _ => true
  end.

Definition acks_ok (tr : list event) : Prop := forallb ack_ok tr = true.

(** The trace ends with the receipt of a wrong acknowledgement, the first
    one, and [e] is the error of that step. *)
Definition bad_ack (e : exn) (tr : list event) : Prop :=
  exists pre st reply tok,
    tr = pre ++ [Rx st reply] /\ acks_ok pre /\
    expected_ack st = Some tok /\ reply <> tok /\
    e = ConnectionAbortedError (ack_error st).

(** An event of the socket. *)
Definition is_wire (e : event) : bool :=
  match e with
  | Tx _ _ | Rx _ _ => true
  | _ => false
  end.

(** *** Concrete sessions *)

(** A client whose connection succeeds, whose archive encoder lists names
    and data, and whose user saves to [/home/u/out.pdf]. *)
Definition example_client : Client.client_env :=
  Client.ClientEnv None "/tmp/tmpzip.zip"
    (fun entries =>
       concat (map (fun '(name, data) => name ++ ":" ++ data ++ ";")
                   entries))
    "/home/u/out.pdf".

Definition example_disk : fs :=
  fs_write (fun _ => None) "/home/u/in.pdf" "%PDF-".

Definition no_client_options : Client.options :=
  Client.Options None None None None None.

(** The client about to read a result envelope: the three chunks are the
    name, the size field and what follows. *)
Definition awaiting_result (name field more : bytes)
  : world Client.client_locals :=
  World [Data name; Data field; Data more] [] example_disk
        (Client.ClientLocals None).

(** A server with process id 4242 and temporary directory [/tmp], whose
    PDF library reads every byte of a file as one page, writes pages back
    to back and marks a rotated page with a quote, whose archives list
    names and data, and whose other conversions wrap the input. *)
Definition example_server (members : list Server.zip_member)
  : Server.server_env :=
  Server.ServerEnv 4242 "/tmp"
    (fun data => if is_empty data then inl (Exception "EOF marker not found")
                 else inr (map (fun c => [c]) data))
    (fun pages => concat pages)
    (fun _ p => p ++ "'")
    (fun _ => inr members)
    (fun entries =>
       concat (map (fun '(name, data) => name ++ ":" ++ data ++ ";")
                   entries))
    (fun _ _ data _ => inr (Some ("out(" ++ data ++ ")"))).

Definition empty_disk : fs := fun _ => None.

(** *** Splitting by page ranges *)

(** The segments of a range string: its comma-separated parts, stripped,
    the empty ones left out. *)
Definition segments (ranges_str : str) : list str :=
  filter (fun part => negb (is_empty part))
         (map strip (split_on "," ranges_str)).

(** The pages a segment selects, when it is well formed and in range. *)
Definition segment_pages (pages : list Server.page) (seg : str)
  : option (list Server.page) :=
  match Server.part_range (Z.of_nat (length pages)) seg with
  | inr (first, stop) => Some (Server.slice pages first stop)
  | inl _ => None
  end.

(** The groups of pages of the output files: one group for each valid
    segment, in the order of the segments. *)
Definition split_groups (pages : list Server.page) (ranges_str : str)
  : list (list Server.page) :=
  flat_map (fun seg => match segment_pages pages seg with
                       | Some group => [group]
                       | None => []
                       end)
           (segments ranges_str).

(** The name of the [file_index]-th output file. *)
Definition split_name (input_path output_dir : str) (file_index : N) : str :=
  path_join output_dir
    ("split_" ++ str_of_N file_index ++ "_"
     ++ map (fun c => if isalnum c then c else "_"%char) (basename input_path)
     ++ ".pdf").

(** What splitting does, segment by segment: a valid segment gives the
    next output file, any other segment gives a warning and nothing else. *)
Fixpoint split_events (env : Server.server_env) (input_path output_dir : str)
    (pages : list Server.page) (segs : list str) (file_index : N)
  : list event :=
  match segs with
  | [] => []
  | seg :: rest =>
      match Server.part_range (Z.of_nat (length pages)) seg with
      | inr (first, stop) =>
          FileWrite SplitFile (split_name input_path output_dir file_index)
            (Server.PdfWriter_write env (Server.slice pages first stop))
          :: split_events env input_path output_dir pages rest (file_index + 1)
      | inl err =>
          Log ("Warning: Skipping invalid range/page '" ++ seg ++ "': "
               ++ exn_str err)
          :: split_events env input_path output_dir pages rest file_index
      end
  end.

(** The names of the output files of the valid segments. *)
Fixpoint split_names (input_path output_dir : str)
    (pages : list Server.page) (segs : list str) (file_index : N)
  : list str :=
  match segs with
  | [] => []
  | seg :: rest =>
      match Server.part_range (Z.of_nat (length pages)) seg with
      | inr _ =>
          split_name input_path output_dir file_index
          :: split_names input_path output_dir pages rest (file_index + 1)
      | inl _ => split_names input_path output_dir pages rest file_index
      end
  end.

(** The contents of the split files that a list of events writes. *)
Definition split_writes (evs : list event) : list bytes :=
  flat_map (fun e => match e with
                     | FileWrite SplitFile _ data => [data]
                     | _ => []
                     end) evs.

(** *** Extraction of a merge archive *)

(** [path] is a file directly in the directory [dir]: [dir] joined with a
    name that has no slash and is neither empty nor a dot name. *)
Definition directly_inside (dir path : str) : Prop :=
  exists name,
    path = path_join dir name /\ contains "/" name = false /\
    name <> [] /\ name <> "." /\ name <> "..".





(** Two entries whose names differ but whose base names agree, and the
    archives that hold them in either order. *)
Definition entry_a : Server.zip_member :=
  Server.ZipMember "a/x.pdf" false "11".
Definition entry_b : Server.zip_member :=
  Server.ZipMember "b/x.pdf" false "22".

(** The merged file a server writes for an archive with these members. *)
Definition merged_output (members : list Server.zip_member) : option bytes :=
  files (snd (Server.merge_pdfs (example_server members)
                "/tmp/merge_input_2files_4242.zip"
                "/tmp/merged_merge_input_2files_4242.pdf"
                (Server.server_start []
                   (fs_write empty_disk "/tmp/merge_input_2files_4242.zip"
                             "PK"))))
        "/tmp/merged_merge_input_2files_4242.pdf".

(** *** Workspace paths *)


(** [r] does not begin with a digit. *)
Definition no_leading_digit (r : str) : Prop :=
  match r with
  | [] => True
  | c :: _ => isdigit c = false
  end.

(** *** Option fields, on the server *)

(** The steps at which the server receives an option field. *)
Definition option_step (st : step) : bool :=
  match st with
  | StPass | StRanges | StPages | StAngle | StPosition => true
  | _ => false
  end.

(** The message of the error the server raises for an empty field. *)
Definition field_error (st : step) : str :=
  match st with
  | StPass => "No password received."
  | StRanges => "No split ranges received."
  | StPages => "No rotate pages received."
  | StAngle => "No rotate angle received."
  | StPosition => "No position received."
  | _ => []
  end.

Definition is_engine (e : event) : bool :=
  match e with
  | Engine _ _ => true
  | _ => false
  end.

(** An event that is not the receipt of an empty option field. *)
Definition field_ok (e : event) : bool :=
  match e with
  | Rx st data => negb (option_step st && is_empty data)
  | _ => true
  end.

(** An event that is neither that nor a call of the engine. *)
Definition field_ok_no_engine (e : event) : bool :=
  field_ok e && negb (is_engine e).

(** The trace ends with the receipt of an empty option field, the first
    one, and its acknowledgement; the engine has not been called; [e] is
    the error of that field. *)
Definition empty_field (e : exn) (tr : list event) : Prop :=
  exists pre st ack,
    tr = pre ++ [Rx st []; Tx st ack] /\
    forallb field_ok_no_engine pre = true /\
    option_step st = true /\
    e = ConnectionAbortedError (field_error st).

Definition is_remove (e : event) : bool :=
  match e with
  | FileRemove _ => true
  | _ => false
  end.

(** *** Size fields *)

(** The size field as the specification words it: the decimal string of
    [n] with the padding, of spaces or of zeros, in front. *)
Definition left_padded (n : N) (field : bytes) : Prop :=
  length field = 16 /\
  exists pad,
    field = pad ++ str_of_N n /\
    (Forall (eq " "%char) pad \/ Forall (eq "0"%char) pad).

(** The size field as the code builds it: the decimal string of [n] with
    spaces behind. *)
Definition right_padded (n : N) (field : bytes) : Prop :=
  length field = 16 /\
  field = str_of_N n ++ repeat " "%char (16 - length (str_of_N n)).

(** The sending of a size and of a payload, by the client and by the
    server. *)
Definition upload_events (e : event) : bool :=
  match e with
  | Tx StSize _ | Tx StPayload _ => true
  | _ => false
  end.

Definition download_events (e : event) : bool :=
  match e with
  | Tx StOutSize _ | Tx StOutData _ => true
  | _ => false
  end.

(** A size field followed by the chunks of the payload it announces, or by
    nothing when the session ends before the payload, or nothing at all. *)
Definition framed (size_step data_step : step) (tr : list event) : Prop :=
  tr = [] \/
  exists content : bytes,
    let field := ljust 16 (str_of_N (N.of_nat (length content))) in
    tr = [Tx size_step field] \/
    exists chunks,
      concat chunks = content /\
      tr = Tx size_step field :: map (Tx data_step) chunks.

(** * Further vocabulary: transfers, pages, archives and sessions *)

(** *** Streams *)

(** Chunks as a socket delivers them: none of them is empty. *)
Definition chunked (chunks : list bytes) : Prop :=
  Forall (fun c : bytes => c <> []) chunks.

(** The bytes in [chunks] are what waits on the socket, in this order,
    followed by what [rest] says of the connection afterwards. *)
Definition arriving {L} (chunks : list bytes) (rest : list rx_event)
    (w : world L) : Prop :=
  inbound w = map Data chunks ++ rest.

(** *** The archive of a split *)

(** The name of the [file_index]-th output file inside its directory. *)
Definition split_entry_name (input_path : str) (file_index : N) : str :=
  "split_" ++ str_of_N file_index ++ "_"
  ++ map (fun c => if isalnum c then c else "_"%char) (basename input_path)
  ++ ".pdf".

(** The numbers [first], [first + 1], ... of [count] output files. *)
Definition file_indices (first : N) (count : nat) : list N :=
  map (fun j => (first + N.of_nat j)%N) (seq 0 count).

(** The entries of the archive a split request is answered with: for each
    valid segment, in order, the next name and the pages of the segment. *)
Definition split_archive (env : Server.server_env) (input_path : str)
    (pages : list Server.page) (ranges_str : str) : list (str * bytes) :=
  let groups := split_groups pages ranges_str in
  combine (map (split_entry_name input_path)
               (file_indices 1 (length groups)))
          (map (Server.PdfWriter_write env) groups).

(** A disk after the files [pairs] have been written to it, in order. *)
Definition write_all (pairs : list (str * bytes)) (disk : fs) : fs :=
  fold_left (fun f p => fs_write f (fst p) (snd p)) pairs disk.

(** *** The pages of a rotation *)

(** The page indices, from 0, that a valid segment names. *)
Definition segment_covers (num_pages : Z) (seg : str) (i : Z) : bool :=
  match Server.part_range num_pages seg with
  | inr (first, stop) => ((first <=? i) && (i <? stop))%Z
  | inl _ => false
  end.

(** Whether the page of index [i] is to be rotated: every page for [all]
    in any letter case, else the pages that some segment names. *)
Definition selected (num_pages : Z) (pages_str : str) (i : Z) : bool :=
  let spec := lower (strip pages_str) in
  if bytes_eqb spec "all" then ((0 <=? i) && (i <? num_pages))%Z
  else existsb (fun seg => segment_covers num_pages seg i) (segments spec).

(** The first segment that is malformed or out of range, with its error. *)
Fixpoint first_invalid (num_pages : Z) (segs : list str)
  : option (str * exn) :=
  match segs with
  | [] => None
  | seg :: rest =>
      match Server.part_range num_pages seg with
      | inl err => Some (seg, err)
      | inr _ => first_invalid num_pages rest
      end
  end.

(** *** The result of a merge *)









(** *** Sessions as a whole *)

(** [keeps_locals m]: [m] leaves the local variables as they are. *)
Definition keeps_locals {L A} (m : M L A) : Prop :=
  forall w, locals (snd (m w)) = locals w.

(** [keeps_files m]: [m] leaves the disk as it is. *)
Definition keeps_files {L A} (m : M L A) : Prop :=
  forall w, files (snd (m w)) = files w.

(** [returns m]: [m] never raises. *)
Definition returns {L A} (m : M L A) : Prop :=
  forall w, exists a, fst (m w) = inr a.

(** *** What the server answers *)






(** *** What the client tells the user *)

Definition is_dialog (e : event) : bool :=
  match e with
  | Dialog _ _ _ => true
  | _ => false
  end.

(** The message box that goes with the value the call returns: after
    [True] the success note or the warning of an empty result, after
    [False] an error or the warning that saving was cancelled. *)
Definition outcome_dialog (b : bool) (d : event) : Prop :=
  match d with
  | Dialog kind title _ =>
      if b
      then (kind = showinfo /\ title = ("Success" : str))
           \/ (kind = showwarning /\ title = ("Empty Result" : str))
      else kind = showerror
           \/ (kind = showwarning /\ title = ("Cancelled" : str))
  | _ => False
  end.

(** The writing of the temporary archive of a merge. *)
Definition is_temp_zip (e : event) : bool :=
  match e with
  | FileWrite TempZip _ _ => true
  | _ => false
  end.

(** *** The option fields the client sends *)

(** An event that is not the sending of an empty ranges, pages, angle or
    position field. *)
Definition option_sent_ok (e : event) : bool :=
  match e with
  | Tx StRanges d | Tx StPages d | Tx StAngle d | Tx StPosition d =>
      negb (is_empty d)
  | _ => true
  end.

(** *** What the server works on *)

(** The work on a request: a call of a library or of a converter, and the
    writing of an output file, of a part of a split or of an extracted
    entry. *)
Definition is_processing (e : event) : bool :=
  match e with
  | Engine _ _ => true
  | FileWrite OutputFile _ _ | FileWrite SplitFile _ _
  | FileWrite ExtractedFile _ _ => true
  | _ => false
  end.

(** The requests [execute_action] has a branch for: ten actions whatever
    the file, and [convert] for the extensions [handle_file_conversion]
    lists. *)
Definition supported (action input_ext : str) : bool :=
  existsb (bytes_eqb action)
    [("encrypt" : str); ("decrypt" : str); ("pdf_to_jpg" : str);
     ("pdf_to_word" : str); ("pdf_to_pptx" : str); ("compress" : str);
     ("split" : str); ("merge" : str); ("rotate" : str);
     ("add_numbers" : str)]
  || (bytes_eqb action "convert"
      && existsb (bytes_eqb (lower input_ext))
           [(".jpg" : str); (".jpeg" : str); (".png" : str);
            (".docx" : str); (".pptx" : str); (".xlsx" : str);
            (".html" : str)]).

(** * Properties *)

(** ** Text primitives *)

Lemma bytes_eqb_refl (a : bytes) : bytes_eqb a a = true.
Proof.
  induction a as [|x a IH]; simpl; [reflexivity|].
  now rewrite Ascii.eqb_refl, IH.
Qed.

Lemma bytes_eqb_eq (a b : bytes) : bytes_eqb a b = true <-> a = b.
Proof.
  split.
  - revert b; induction a as [|x a IH]; intros [|y b]; simpl;
      try discriminate; [reflexivity|].
    intros H. apply andb_true_iff in H as [Hx Hr].
    apply Ascii.eqb_eq in Hx. subst. f_equal. now apply IH.
  - intros ->. apply bytes_eqb_refl.
Qed.

Lemma bytes_eqb_neq (a b : bytes) : bytes_eqb a b = false <-> a <> b.
Proof.
  split.
  - intros H E. apply bytes_eqb_eq in E. congruence.
  - intros H. destruct (bytes_eqb a b) eqn:E; [|reflexivity].
    apply bytes_eqb_eq in E. contradiction.
Qed.

Lemma N_of_digit_char (d : N) : (d < 10)%N -> N_of_ascii (digit_char d) = (48 + d)%N.
Proof.
  intros H. unfold digit_char. apply N_ascii_embedding. lia.
Qed.

Lemma isdigit_digit_char (d : N) : (d < 10)%N -> isdigit (digit_char d) = true.
Proof.
  intros H. unfold isdigit. rewrite N_of_digit_char by assumption.
  apply andb_true_iff. split; apply N.leb_le; lia.
Qed.

Lemma digit_val_digit_char (d : N) : (d < 10)%N -> digit_val (digit_char d) = Z.of_N d.
Proof.
  intros H. unfold digit_val. rewrite N_of_digit_char by assumption.
  f_equal. lia.
Qed.

Lemma isdigit_not_space (c : ascii) : isdigit c = true -> isspace c = false.
Proof.
  unfold isdigit, isspace. intros H.
  apply andb_true_iff in H as [H1 H2].
  apply N.leb_le in H1. apply N.leb_le in H2.
  apply orb_false_iff. split; apply andb_false_iff.
  - right. apply N.leb_gt. lia.
  - right. apply N.leb_gt. lia.
Qed.

Lemma str_digits_acc (fuel : nat) (n : N) (acc : str) :
  str_digits fuel n acc = str_digits fuel n [] ++ acc.
Proof.
  revert n acc. induction fuel as [|f IH]; intros n acc; simpl; [reflexivity|].
  destruct (n / 10 =? 0)%N; [reflexivity|].
  rewrite IH. rewrite (IH _ [_]). now rewrite <- app_assoc.
Qed.

Lemma parse_digits_all (s t : str) (acc : Z) (b : bool) :
  Forall (fun c => isdigit c = true) s -> s <> [] ->
  parse_digits acc b (s ++ t) = parse_digits (dec_value acc s) true t.
Proof.
  revert acc b. induction s as [|c s IH]; intros acc b Hd Hne; [congruence|].
  inversion Hd as [|? ? Hc Hs]; subst. simpl. rewrite Hc.
  destruct s as [|c' s'].
  - reflexivity.
  - rewrite IH; [reflexivity|assumption|discriminate].
Qed.

Lemma str_digits_S (fuel : nat) (n : N) (acc : str) :
  str_digits (S fuel) n acc =
  if (n / 10 =? 0)%N then digit_char (n mod 10) :: acc
  else str_digits fuel (n / 10) (digit_char (n mod 10) :: acc).
Proof. reflexivity. Qed.

Lemma str_digits_spec (fuel : nat) (n : N) :
  (n < 10 ^ N.of_nat (S fuel))%N ->
  let s := str_digits (S fuel) n [] in
  Forall (fun c => isdigit c = true) s /\ s <> [] /\
  dec_value 0 s = Z.of_N n.
Proof.
  revert n. induction fuel as [|f IH]; intros n Hn;
    cbn zeta; rewrite str_digits_S;
    assert (Hm : (n mod 10 < 10)%N) by (apply N.mod_lt; lia);
    pose proof (N.div_mod n 10 ltac:(lia)) as Hdm;
    destruct (n / 10 =? 0)%N eqn:E.
  1, 3: apply N.eqb_eq in E; repeat split;
    [ constructor; [now apply isdigit_digit_char|constructor]
    | discriminate
    | unfold dec_value; simpl; rewrite digit_val_digit_char by assumption;
      lia ].
  - apply N.eqb_neq in E. exfalso. apply E. apply N.div_small.
    change (N.of_nat 1) with 1%N in Hn. lia.
  - apply N.eqb_neq in E. rewrite str_digits_acc.
    assert (Hq : (n / 10 < 10 ^ N.of_nat (S f))%N).
    { apply N.Div0.div_lt_upper_bound.
      replace (N.of_nat (S (S f))) with (N.succ (N.of_nat (S f))) in Hn by lia.
      rewrite N.pow_succ_r' in Hn. exact Hn. }
    destruct (IH _ Hq) as (Hd & Hne & Hv). repeat split.
    + apply Forall_app. split; [assumption|].
      constructor; [now apply isdigit_digit_char|constructor].
    + intros Habs. apply app_eq_nil in Habs as [_ Habs]. discriminate.
    + unfold dec_value in *. rewrite fold_left_app. cbn [fold_left]. rewrite Hv.
      rewrite digit_val_digit_char by assumption. lia.
Qed.

Lemma str_of_N_fuel (n : N) : (n < 10 ^ N.of_nat (S (N.to_nat (N.size n))))%N.
Proof.
  apply N.lt_le_trans with (2 ^ N.size n)%N; [apply N.size_gt|].
  replace (N.of_nat (S (N.to_nat (N.size n)))) with (N.succ (N.size n)) by lia.
  rewrite N.pow_succ_r'.
  apply N.le_trans with (10 ^ N.size n)%N.
  - apply N.pow_le_mono_l. lia.
  - assert (0 < 10 ^ N.size n)%N by (apply N.neq_0_lt_0, N.pow_nonzero; lia).
    lia.
Qed.

Lemma str_of_N_digits (n : N) : Forall (fun c => isdigit c = true) (str_of_N n).
Proof. apply (str_digits_spec _ _ (str_of_N_fuel n)). Qed.

Lemma str_of_N_nonempty (n : N) : str_of_N n <> [].
Proof. apply (str_digits_spec _ _ (str_of_N_fuel n)). Qed.

Lemma str_of_N_value (n : N) : dec_value 0 (str_of_N n) = Z.of_N n.
Proof. apply (str_digits_spec _ _ (str_of_N_fuel n)). Qed.

Lemma str_of_N_inj (n m : N) : str_of_N n = str_of_N m -> n = m.
Proof.
  intros H. apply N2Z.inj. rewrite <- !str_of_N_value. now rewrite H.
Qed.

Lemma str_digits_length (fuel : nat) (n : N) (acc : str) (k : nat) :
  (n < 10 ^ N.of_nat k)%N -> 1 <= k ->
  length (str_digits fuel n acc) <= k + length acc.
Proof.
  revert n acc k. induction fuel as [|f IH]; intros n acc k Hn Hk; simpl; [lia|].
  destruct (n / 10 =? 0)%N eqn:E; simpl; [lia|].
  apply N.eqb_neq in E.
  destruct k as [|[|k]]; [lia| |].
  - exfalso. apply E. apply N.div_small. exact Hn.
  - assert (Hq : (n / 10 < 10 ^ N.of_nat (S k))%N).
    { apply N.Div0.div_lt_upper_bound.
      replace (N.of_nat (S (S k))) with (N.succ (N.of_nat (S k))) in Hn by lia.
      rewrite N.pow_succ_r' in Hn. exact Hn. }
    specialize (IH _ (digit_char (n mod 10) :: acc) _ Hq ltac:(lia)).
    simpl in IH. lia.
Qed.

Lemma str_of_N_length (n : N) (k : nat) :
  (n < 10 ^ N.of_nat k)%N -> 1 <= k -> length (str_of_N n) <= k.
Proof.
  intros Hn Hk. pose proof (str_digits_length (S (N.to_nat (N.size n))) n [] k Hn Hk) as H.
  cbn [length] in H. unfold str_of_N. lia.
Qed.

Lemma lstrip_nonspace (c : ascii) (s : str) :
  isspace c = false -> lstrip (c :: s) = c :: s.
Proof. intros H. simpl. now rewrite H. Qed.

Lemma lstrip_spaces (k : nat) (s : str) : lstrip (repeat " "%char k ++ s) = lstrip s.
Proof. induction k as [|k IH]; [reflexivity|]. simpl repeat. simpl app. exact IH. Qed.

(** Stripping removes the padding of a field whose text starts and ends
    with a character that is not white space. *)
Lemma strip_ljust (width : nat) (s : str) :
  s <> [] -> Forall (fun c => isspace c = false) s ->
  strip (ljust width s) = s.
Proof.
  intros Hne Hs. unfold strip, ljust, rstrip.
  destruct s as [|c s]; [congruence|].
  inversion Hs as [|? ? Hc Hr]; subst.
  rewrite <- app_comm_cons, lstrip_nonspace by assumption.
  rewrite app_comm_cons, rev_app_distr, rev_repeat, lstrip_spaces.
  assert (Hrev : Forall (fun c => isspace c = false) (rev (c :: s))).
  { apply Forall_rev. assumption. }
  destruct (rev (c :: s)) as [|d r] eqn:E.
  - apply (f_equal (@rev ascii)) in E. rewrite rev_involutive in E. discriminate.
  - inversion Hrev; subst. rewrite lstrip_nonspace by assumption.
    rewrite <- E. apply rev_involutive.
Qed.

Lemma py_int_digits (s : str) :
  s <> [] -> Forall (fun c => isdigit c = true) s ->
  py_int (ljust 16 s) = Some (dec_value 0 s) /\
  py_int (strip (ljust 16 s)) = Some (dec_value 0 s).
Proof.
  intros Hne Hd.
  assert (Hsp : Forall (fun c => isspace c = false) s).
  { eapply Forall_impl; [|exact Hd]. intros c. apply isdigit_not_space. }
  assert (Hstrip : strip s = s).
  { pose proof (strip_ljust 0 s Hne Hsp) as H. unfold ljust in H.
    simpl in H. now rewrite app_nil_r in H. }
  assert (Hint : forall t, strip t = s -> py_int t = Some (dec_value 0 s)).
  { intros t Ht. unfold py_int. rewrite Ht.
    destruct s as [|c s']; [congruence|].
    inversion Hd as [|? ? Hc _]; subst.
    assert (Hparse : parse_digits 0 false (c :: s') = Some (dec_value 0 (c :: s'))).
    { rewrite <- (app_nil_r (c :: s')) at 1.
      rewrite parse_digits_all by (assumption || discriminate). reflexivity. }
    destruct c as [[] [] [] [] [] [] [] []]; try exact Hparse; discriminate Hc. }
  split; apply Hint.
  - now apply strip_ljust.
  - now rewrite strip_ljust.
Qed.

(** ** A program logic for sessions *)

Section Logic.
Context {L : Type}.

Lemma hoare_ret {A} (P : world L -> Prop) (a : A) Qv Qe :
  (forall w, P w -> Qv a w) -> hoare P (ret a) Qv Qe.
Proof. intros H w Hw. simpl. auto. Qed.

Lemma hoare_raise {A} (P : world L -> Prop) (e : exn)
    (Qv : A -> world L -> Prop) Qe :
  (forall w, P w -> Qe e w) -> hoare P (raise e) Qv Qe.
Proof. intros H w Hw. simpl. auto. Qed.

Lemma hoare_bind {A B} (P : world L -> Prop) (m : M L A) (f : A -> M L B)
    (R : A -> world L -> Prop) Qv Qe :
  hoare P m R Qe -> (forall a, hoare (R a) (f a) Qv Qe) ->
  hoare P (bind m f) Qv Qe.
Proof.
  intros Hm Hf w Hw. unfold bind. specialize (Hm w Hw).
  destruct (m w) as [[e|a] w']; [exact Hm|]. apply (Hf a w' Hm).
Qed.

Lemma hoare_conseq {A} (P P' : world L -> Prop) (m : M L A)
    (Qv Qv' : A -> world L -> Prop) (Qe Qe' : exn -> world L -> Prop) :
  hoare P' m Qv' Qe' ->
  (forall w, P w -> P' w) ->
  (forall a w, Qv' a w -> Qv a w) ->
  (forall e w, Qe' e w -> Qe e w) ->
  hoare P m Qv Qe.
Proof.
  intros H HP Hv He w Hw. specialize (H w (HP w Hw)).
  destruct (m w) as [[e|a] w']; auto.
Qed.

Lemma hoare_raise_if (P : world L -> Prop) (c : bool) (e : exn)
    (Qv : unit -> world L -> Prop) Qe :
  (forall w, P w -> c = true -> Qe e w) ->
  (forall w, P w -> c = false -> Qv tt w) ->
  hoare P (raise_if c e) Qv Qe.
Proof. intros H1 H2 w Hw. unfold raise_if. destruct c; simpl; auto. Qed.

Lemma emits_only_ret {A} G (a : A) : emits_only G (@ret L A a).
Proof. intros w. exists []. simpl. now rewrite app_nil_r. Qed.

Lemma emits_only_raise {A} G (e : exn) : emits_only G (@raise L A e).
Proof. intros w. exists []. simpl. now rewrite app_nil_r. Qed.

Lemma emits_only_raise_if G (c : bool) (e : exn) :
  emits_only G (@raise_if L c e).
Proof. destruct c; [apply emits_only_raise|apply emits_only_ret]. Qed.

Lemma emits_only_bind {A B} G (m : M L A) (f : A -> M L B) :
  emits_only G m -> (forall a, emits_only G (f a)) ->
  emits_only G (bind m f).
Proof.
  intros Hm Hf w. unfold bind. destruct (Hm w) as (evs & Ht & Hg).
  destruct (m w) as [[e|a] w']; simpl in *; [eauto|].
  destruct (Hf a w') as (evs' & Ht' & Hg').
  exists (evs ++ evs'). rewrite Ht', Ht, app_assoc, forallb_app, Hg, Hg'.
  auto.
Qed.

Lemma emits_only_emit G (e : event) : G e = true -> emits_only G (@emit L e).
Proof. intros H w. exists [e]. simpl. now rewrite H. Qed.

Lemma emits_only_sendall G st data :
  G (Tx st data) = true -> emits_only G (@sendall L st data).
Proof. apply emits_only_emit. Qed.

Lemma emits_only_recv G st n :
  (forall d, G (Rx st d) = true) -> emits_only G (@recv L st n).
Proof.
  intros H w. unfold recv.
  destruct (inbound w) as [|[b| |] rest]; simpl.
  - exists [Rx st []]. simpl. now rewrite H.
  - exists [Rx st (take n b)]. simpl. now rewrite H.
  - exists []. now rewrite app_nil_r.
  - exists []. now rewrite app_nil_r.
Qed.

Lemma emits_only_get_locals G : emits_only G (@get_locals L).
Proof. intros w. exists []. simpl. now rewrite app_nil_r. Qed.

Lemma emits_only_set_locals G l : emits_only G (@set_locals L l).
Proof. intros w. exists []. simpl. now rewrite app_nil_r. Qed.

Lemma emits_only_isfile G p : emits_only G (@isfile L p).
Proof. intros w. exists []. simpl. now rewrite app_nil_r. Qed.

Lemma emits_only_read_file G p : emits_only G (@read_file L p).
Proof.
  intros w. exists []. unfold read_file.
  destruct (files w p); simpl; now rewrite app_nil_r.
Qed.

Lemma emits_only_write_file G kind p d :
  G (FileWrite kind p d) = true -> emits_only G (@write_file L kind p d).
Proof. intros H w. exists [FileWrite kind p d]. simpl. now rewrite H. Qed.

Lemma emits_only_remove_file G p :
  G (FileRemove p) = true -> emits_only G (@remove_file L p).
Proof.
  intros H w. unfold remove_file. destruct (files w p).
  - exists [FileRemove p]. simpl. now rewrite H.
  - exists []. simpl. now rewrite app_nil_r.
Qed.

Lemma emits_only_try_except {A} G (m : M L A) (h : exn -> M L A) :
  emits_only G m -> (forall e, emits_only G (h e)) ->
  emits_only G (try_except m h).
Proof.
  intros Hm Hh w. unfold try_except. destruct (Hm w) as (evs & Ht & Hg).
  destruct (m w) as [[e|a] w']; simpl in *; [|eauto].
  destruct (Hh e w') as (evs' & Ht' & Hg').
  exists (evs ++ evs'). rewrite Ht', Ht, app_assoc, forallb_app, Hg, Hg'.
  auto.
Qed.

Lemma emits_only_try_finally {A} G (m : M L A) (c : M L unit) :
  emits_only G m -> emits_only G c -> emits_only G (try_finally m c).
Proof.
  intros Hm Hc w. unfold try_finally. destruct (Hm w) as (evs & Ht & Hg).
  destruct (m w) as [r w']. destruct (Hc w') as (evs' & Ht' & Hg').
  exists (evs ++ evs').
  destruct (c w') as [[e|u] w'']; simpl in *;
    rewrite Ht', Ht, app_assoc, forallb_app, Hg, Hg'; auto.
Qed.

Lemma emits_only_send_chunks G fuel st data :
  (forall d, G (Tx st d) = true) ->
  emits_only G (@send_chunks L fuel st data).
Proof.
  intros H. revert data. induction fuel as [|f IH]; intros data; simpl.
  - destruct (take 65536 data); [apply emits_only_ret|apply emits_only_raise].
  - destruct (take 65536 data); [apply emits_only_ret|].
    apply emits_only_bind; [apply emits_only_sendall, H|intros; apply IH].
Qed.

Lemma emits_only_filter {A} K (m : M L A) :
  silent K m ->
  forall w, filter K (trace (snd (m w))) = filter K (trace w).
Proof.
  intros H w. destruct (H w) as (evs & -> & Hg).
  rewrite filter_app.
  assert (Hnil : filter K evs = []).
  { clear - Hg. induction evs as [|e evs IH]; [reflexivity|].
    simpl in *. apply andb_true_iff in Hg as [He Hr].
    destruct (K e); [discriminate|]. now apply IH. }
  rewrite Hnil. apply app_nil_r.
Qed.

(** A silent program keeps whatever holds of the events of kind [K]. *)
Lemma silent_hoare {A} K (m : M L A) (I : list event -> Prop) :
  silent K m ->
  hoare (fun w => I (filter K (trace w))) m
        (fun _ w => I (filter K (trace w)))
        (fun _ w => I (filter K (trace w))).
Proof.
  intros H w Hw. pose proof (emits_only_filter K m H w) as E.
  destruct (m w) as [[e|a] w']; simpl in E; now rewrite E.
Qed.
End Logic.

Ltac emits_step :=
  lazymatch goal with
  | |- emits_only _ (bind _ _) => apply emits_only_bind; [|intros]
  | |- emits_only _ (ret _) => apply emits_only_ret
  | |- emits_only _ (raise _) => apply emits_only_raise
  | |- emits_only _ (raise_if _ _) => apply emits_only_raise_if
  | |- emits_only _ (emit _) => apply emits_only_emit; reflexivity
  | |- emits_only _ (sendall _ _) => apply emits_only_sendall; reflexivity
  | |- emits_only _ (recv _ _) => apply emits_only_recv; reflexivity
  | |- emits_only _ get_locals => apply emits_only_get_locals
  | |- emits_only _ (set_locals _) => apply emits_only_set_locals
  | |- emits_only _ (isfile _) => apply emits_only_isfile
  | |- emits_only _ (read_file _) => apply emits_only_read_file
  | |- emits_only _ (write_file _ _ _) =>
      apply emits_only_write_file; reflexivity
  | |- emits_only _ (remove_file _) =>
      apply emits_only_remove_file; reflexivity
  | |- emits_only _ (send_chunks _ _ _) =>
      apply emits_only_send_chunks; reflexivity
  | |- emits_only _ (try_except _ _) => apply emits_only_try_except; [|intros]
  | |- emits_only _ (try_finally _ _) => apply emits_only_try_finally
  | |- emits_only _ (if ?c then _ else _) => destruct c
  | |- emits_only _ (match ?x with _ => _ end) => destruct x
  | |- emits_only _ (fun w => (inr _, w)) =>
      intros ?; exists []; simpl; now rewrite app_nil_r
  end.

Ltac emits_auto := repeat emits_step.

Ltac silent_auto := unfold silent; emits_auto.

Section Projection.
Context {L : Type}.

Lemma proj_silent {A} K (m : M L A) (I : list event -> Prop) :
  silent K m ->
  hoare (fun w => I (proj K w)) m (fun _ w => I (proj K w))
        (fun _ w => I (proj K w)).
Proof. apply silent_hoare. Qed.

Lemma proj_emit K (e : event) (X : list event) :
  hoare (fun w : world L => proj K w = X) (emit e)
        (fun _ w => proj K w = X ++ filter K [e]) (fun _ _ => False).
Proof.
  intros w Hw. unfold proj in *. simpl.
  rewrite filter_app. now rewrite Hw.
Qed.


Lemma length_take n (b : bytes) : length (take n b) <= N.to_nat n.
Proof. unfold take. rewrite length_firstn. lia. Qed.

Lemma proj_recv K st n (X : list event) :
  hoare (fun w : world L => proj K w = X) (recv st n)
        (fun d w => proj K w = X ++ filter K [Rx st d]
                    /\ length d <= N.to_nat n)
        (fun e w => proj K w = X /\ is_net e = true).
Proof.
  intros w Hw. unfold proj, recv in *.
  destruct (inbound w) as [|[b| |] rest]; simpl.
  - rewrite filter_app, Hw. split; [reflexivity|simpl; lia].
  - rewrite filter_app, Hw. split; [reflexivity|apply length_take].
  - split; [assumption|reflexivity].
  - split; [assumption|reflexivity].
Qed.
End Projection.

Section ProjectionRules.
Context {L : Type}.

Lemma hoare_bind_silent {A B} K (X : list event) (m : M L A)
    (f : A -> M L B) Qv Qe :
  silent K m ->
  (forall e w, proj K w = X -> Qe e w) ->
  (forall a, hoare (fun w => proj K w = X) (f a) Qv Qe) ->
  hoare (fun w => proj K w = X) (bind m f) Qv Qe.
Proof.
  intros Hs He Hf. apply hoare_bind with (R := fun _ w => proj K w = X).
  - eapply hoare_conseq.
    + apply (proj_silent K m (fun tr => tr = X) Hs).
    + auto.
    + auto.
    + intros e w H. apply He, H.
  - exact Hf.
Qed.

Lemma hoare_bind_emit {B} K (X : list event) (e : event)
    (f : unit -> M L B) Qv Qe :
  hoare (fun w => proj K w = X ++ filter K [e]) (f tt) Qv Qe ->
  hoare (fun w => proj K w = X) (bind (emit e) f) Qv Qe.
Proof.
  intros Hf.
  apply hoare_bind with (R := fun _ w => proj K w = X ++ filter K [e]).
  - eapply hoare_conseq; [apply (proj_emit K e X)|auto|auto|intros ? ? []].
  - intros []. exact Hf.
Qed.


Lemma hoare_bind_recv {B} K (X : list event) st n
    (f : bytes -> M L B) Qv Qe :
  (forall e w, is_net e = true -> proj K w = X -> Qe e w) ->
  (forall d, length d <= N.to_nat n ->
             hoare (fun w => proj K w = X ++ filter K [Rx st d]) (f d)
                   Qv Qe) ->
  hoare (fun w => proj K w = X) (bind (recv st n) f) Qv Qe.
Proof.
  intros He Hf.
  apply hoare_bind
    with (R := fun d w => length d <= N.to_nat n /\
                          proj K w = X ++ filter K [Rx st d]).
  - eapply hoare_conseq; [apply (proj_recv K st n X)|auto|..].
    + intros d w [H1 H2]. split; eassumption.
    + intros e w [H1 H2]. now apply He.
  - intros d w [Hlen Hw]. now apply (Hf d Hlen w).
Qed.

Lemma hoare_bind_raise_if {B} (P : world L -> Prop) (c : bool) (e : exn)
    (f : unit -> M L B) Qv Qe :
  (c = true -> forall w, P w -> Qe e w) ->
  (c = false -> hoare P (f tt) Qv Qe) ->
  hoare P (bind (raise_if c e) f) Qv Qe.
Proof.
  intros H1 H2 w Hw. unfold bind, raise_if.
  destruct c; simpl; [now apply H1|now apply H2].
Qed.


End ProjectionRules.

(** ** The client saves complete results only *)










Lemma client_cleanup_returns w :
  exists w', Client.client_cleanup w = (inr tt, w').
Proof.
  unfold Client.client_cleanup, bind, get_locals, remove_file, ret.
  destruct (Client.local_zip_to_send (locals w)) as [p|]; [|eauto].
  destruct (files w p); eauto.
Qed.


(** ** A wrong acknowledgement ends the client's session *)

Section Acks.
Context {L : Type}.

Lemma hoare_bind_within {A B} G (m : M L A) (f : A -> M L B) Qv Qe :
  emits_only G m ->
  (forall e w, forallb G (trace w) = true -> Qe e w) ->
  (forall a, hoare (fun w => forallb G (trace w) = true) (f a) Qv Qe) ->
  hoare (fun w => forallb G (trace w) = true) (bind m f) Qv Qe.
Proof.
  intros Hm He Hf w Hw. unfold bind.
  destruct (Hm w) as (evs & Ht & Hg).
  assert (Hw' : forallb G (trace (snd (m w))) = true)
    by (rewrite Ht, forallb_app, Hw, Hg; reflexivity).
  destruct (m w) as [[e|a] w']; simpl in *; [now apply He|].
  now apply (Hf a w').
Qed.

Lemma hoare_within {A} G (m : M L A) :
  emits_only G m ->
  hoare (fun w => forallb G (trace w) = true) m
        (fun _ w => forallb G (trace w) = true)
        (fun _ w => forallb G (trace w) = true).
Proof.
  intros Hm w Hw. destruct (Hm w) as (evs & Ht & Hg).
  assert (Hw' : forallb G (trace (snd (m w))) = true)
    by (rewrite Ht, forallb_app, Hw, Hg; reflexivity).
  destruct (m w) as [[e|a] w']; exact Hw'.
Qed.

Lemma hoare_bind_ack {B} st n tok (f : unit -> M L B) Qv :
  expected_ack st = Some tok ->
  hoare (fun w => acks_ok (trace w)) (f tt) Qv
        (fun e w => acks_ok (trace w) \/ bad_ack e (trace w)) ->
  hoare (fun w => acks_ok (trace w))
        (bind (recv st n)
           (fun ack =>
              bind (raise_if (negb (bytes_eqb ack tok))
                      (ConnectionAbortedError (ack_error st))) f))
        Qv (fun e w => acks_ok (trace w) \/ bad_ack e (trace w)).
Proof.
  intros Hst Hf w Hw. unfold bind at 1.
  assert (Hstep : forall reply w',
             trace w' = trace w ++ [Rx st reply] ->
             match bind (raise_if (negb (bytes_eqb reply tok))
                           (ConnectionAbortedError (ack_error st))) f w'
             with
             | (inr a, w'') => Qv a w''
             | (inl e, w'') => acks_ok (trace w'') \/ bad_ack e (trace w'')
             end).
  { intros reply w' Ht. unfold bind, raise_if.
    destruct (bytes_eqb reply tok) eqn:E; simpl.
    - apply Hf. unfold acks_ok in *. rewrite Ht, forallb_app, Hw. simpl.
      now rewrite Hst, E.
    - right. exists (trace w), st, reply, tok. repeat split; auto.
      now apply bytes_eqb_neq. }
  unfold recv. destruct (inbound w) as [|[b| |] rest].
  - apply Hstep. reflexivity.
  - apply Hstep. reflexivity.
  - now left.
  - now left.
Qed.

Lemma hoare_ack_last st n tok :
  expected_ack st = Some tok ->
  hoare (fun w : world L => acks_ok (trace w))
        (bind (recv st n)
           (fun ack =>
              raise_if (negb (bytes_eqb ack tok))
                (ConnectionAbortedError (ack_error st))))
        (fun _ w => acks_ok (trace w))
        (fun e w => acks_ok (trace w) \/ bad_ack e (trace w)).
Proof.
  intros Hst w Hw.
  pose proof (hoare_bind_ack st n tok (fun _ => ret tt)
                (fun _ w => acks_ok (trace w)) Hst
                ltac:(apply hoare_ret; auto) w Hw) as H.
  unfold bind in *. destruct (recv st n w) as [[e|ack] w']; [exact H|].
  unfold raise_if in *. destruct (negb (bytes_eqb ack tok)); exact H.
Qed.
End Acks.

Lemma recv_output_emits G fuel size received data :
  (forall d, G (Rx StOutData d) = true) ->
  emits_only G (Client.recv_output fuel size received data).
Proof.
  intros H. revert received data.
  induction fuel as [|fuel IH]; intros received data; simpl;
    destruct (received <? size)%Z;
    try apply emits_only_raise; try apply emits_only_ret.
  apply emits_only_bind; [apply emits_only_recv, H|intros chunk].
  apply emits_only_bind; [apply emits_only_raise_if|intros _]. apply IH.
Qed.

Lemma receive_result_emits G env action :
  (forall e, is_wire e = false -> G e = true) ->
  (forall d, G (Tx StOutName d) = true) ->
  (forall d, G (Tx StOutSize d) = true) ->
  (forall d, G (Rx StOutName d) = true) ->
  (forall d, G (Rx StOutSize d) = true) ->
  (forall d, G (Rx StOutData d) = true) ->
  (forall d, G (Rx StErrMsg d) = true) ->
  emits_only G (Client.receive_result env action).
Proof.
  intros Hother Htx1 Htx2 H1 H2 H3 H4. unfold Client.receive_result.
  repeat lazymatch goal with
    | |- emits_only _ (bind _ _) => apply emits_only_bind; [|intros]
    | |- emits_only _ (ret _) => apply emits_only_ret
    | |- emits_only _ (raise _) => apply emits_only_raise
    | |- emits_only _ (raise_if _ _) => apply emits_only_raise_if
    | |- emits_only _ (emit _) => apply emits_only_emit, Hother; reflexivity
    | |- emits_only _ (sendall _ _) =>
        apply emits_only_sendall; first [apply Htx1 | apply Htx2]
    | |- emits_only _ (recv _ _) => apply emits_only_recv; assumption
    | |- emits_only _ (write_file _ _ _) =>
        apply emits_only_write_file, Hother; reflexivity
    | |- emits_only _ (Client.recv_output _ _ _ _) =>
        apply recv_output_emits; assumption
    | |- emits_only _ (if ?c then _ else _) => destruct c
    | |- emits_only _ (match ?x with _ => _ end) => destruct x
    end.
Qed.

Ltac ack_walk :=
  repeat lazymatch goal with
    | |- hoare _ (bind (recv _ _)
                    (fun ack => bind (raise_if (negb (bytes_eqb ack _)) _) _))
               _ _ =>
        apply hoare_bind_ack; [reflexivity|]
    | |- hoare _ (bind (recv _ _)
                    (fun ack => raise_if (negb (bytes_eqb ack _)) _)) _ _ =>
        apply hoare_ack_last; reflexivity
    | |- hoare _ (bind _ _) _ _ =>
        apply (hoare_bind_within ack_ok);
        [ solve [emits_auto] | intros ? ? ?; now left | intros ? ]
    | |- hoare _ (match ?p with (_, _) => _ end) _ _ => destruct p
    | |- hoare _ (match ?p with Some _ => _ | None => _ end) _ _ =>
        destruct p
    | |- hoare _ (if ?c then _ else _) _ _ => destruct c
    | |- hoare _ (ret _) _ _ => apply hoare_ret; auto
    | |- hoare _ (raise _) _ _ => apply hoare_raise; intros; now left
    end.

Lemma send_options_acks action opts :
  hoare (fun w => acks_ok (trace w)) (Client.send_options action opts)
        (fun _ w => acks_ok (trace w))
        (fun e w => acks_ok (trace w) \/ bad_ack e (trace w)).
Proof. unfold Client.send_options. ack_walk. Qed.

Lemma client_body_acks env action arg opts :
  hoare (fun w => acks_ok (trace w))
        (Client.send_request_body env action arg opts)
        (fun _ w => acks_ok (trace w))
        (fun e w => acks_ok (trace w) \/ bad_ack e (trace w)).
Proof.
  unfold Client.send_request_body, Client.connect, Client.prepare_file_info.
  ack_walk.
  eapply hoare_bind; [apply send_options_acks|intros ?].
  eapply hoare_conseq.
  - apply (hoare_within ack_ok).
    apply receive_result_emits; try reflexivity.
    intros [] H; try reflexivity; discriminate.
  - auto.
  - auto.
  - intros e w H. now left.
Qed.

Lemma client_cleanup_trace w :
  exists w' rest,
    Client.client_cleanup w = (inr tt, w') /\
    trace w' = trace w ++ rest /\
    forall e, In e rest -> exists p, e = FileRemove p.
Proof.
  unfold Client.client_cleanup, bind, get_locals, remove_file, ret.
  destruct (Client.local_zip_to_send (locals w)) as [p|].
  - destruct (files w p).
    + eexists _, [FileRemove p]. repeat split.
      intros e [<-|[]]. eauto.
    + exists w, []. rewrite app_nil_r. repeat split. intros e [].
  - exists w, []. rewrite app_nil_r. repeat split. intros e [].
Qed.

Lemma split_at_only {A} (G : A -> bool) (l1 l2 p q : list A) (x y : A) :
  l1 ++ x :: l2 = p ++ y :: q ->
  forallb G p = true -> forallb G q = true -> G x = false ->
  l1 = p /\ x = y /\ l2 = q.
Proof.
  revert p. induction l1 as [|a l1 IH]; intros [|b p] H Hp Hq Hx; simpl in *.
  - injection H as -> ->. auto.
  - injection H as -> _. apply andb_true_iff in Hp as [Hb _]. congruence.
  - injection H as -> H.
    assert (Hin : In x q) by (rewrite <- H; apply in_or_app; right; now left).
    rewrite forallb_forall in Hq. specialize (Hq x Hin). congruence.
  - injection H as -> H. apply andb_true_iff in Hp as [_ Hp].
    destruct (IH p H Hp Hq Hx) as (-> & -> & ->). auto.
Qed.

Lemma wrong_ack_not_ok st reply tok :
  expected_ack st = Some tok -> reply <> tok -> ack_ok (Rx st reply) = false.
Proof. intros H Hne. simpl. rewrite H. now apply bytes_eqb_neq. Qed.

(** C3. Whenever the reply to an acknowledged step of the client differs
    from the expected token (an empty read included), the body of
    [send_request_to_server] raises [ConnectionAbortedError] with the
    message of that step, no socket operation follows the reply, and the
    call shows the connection error and returns [False]. *)
Theorem wrong_ack_aborts_session :
  forall env action arg opts incoming disk r w pre st reply post tok,
    Client.send_request_to_server env action arg opts
      (Client.client_start incoming disk) = (r, w) ->
    trace w = pre ++ Rx st reply :: post ->
    expected_ack st = Some tok ->
    reply <> tok ->
    fst (Client.send_request_body env action arg opts
           (Client.client_start incoming disk))
    = inl (ConnectionAbortedError (ack_error st))
    /\ r = inr false
    /\ (forall e, In e post -> is_wire e = false)
    /\ exists rest,
         post = Dialog showerror "Connection Error"
                  ("Connection lost:" ++ newline ++ ack_error st) :: rest
         /\ forall e, In e rest -> exists p, e = FileRemove p.
Proof.
  intros env action arg opts incoming disk r w pre st reply post tok
         Hrun Htr Hst Hne.
  pose proof (wrong_ack_not_ok st reply tok Hst Hne) as Hbad.
  assert (Hnot : ~ acks_ok (trace w)).
  { unfold acks_ok. rewrite Htr, forallb_app. cbn [forallb]. rewrite Hbad.
    rewrite andb_false_r. discriminate. }
  unfold Client.send_request_to_server, try_finally, try_except in Hrun.
  pose proof (client_body_acks env action arg opts
                (Client.client_start incoming disk) eq_refl) as Hb.
  destruct (Client.send_request_body env action arg opts
              (Client.client_start incoming disk)) as [[e|b] w1].
  - assert (Hrep : emits_only ack_ok (Client.report_failure e))
      by (unfold Client.report_failure; emits_auto).
    destruct Hb as [Hb|(pre0 & st0 & reply0 & tok0 & Ht0 & Hpre0 & Hst0
                        & Hne0 & ->)].
    + exfalso. apply Hnot.
      destruct (Hrep w1) as (evs & Ht & Hg).
      destruct (Client.report_failure e w1) as [r2 w2].
      destruct (client_cleanup_trace w2) as (w3 & rest & Hw3 & Ht3 & Hrest).
      rewrite Hw3 in Hrun. injection Hrun as <- <-.
      unfold acks_ok in *. simpl in Ht. rewrite Ht3, Ht, !forallb_app, Hb, Hg.
      simpl. apply forallb_forall. intros x Hx.
      destruct (Hrest x Hx) as [p ->]. reflexivity.
    + simpl in Hrun.
      match type of Hrun with
      | context [Client.client_cleanup ?w2] =>
          destruct (client_cleanup_trace w2)
            as (w3 & rest & Hw3 & Ht3 & Hrest);
          rewrite Hw3 in Hrun
      end.
      injection Hrun as <- <-. simpl in Ht3. rewrite Ht0 in Ht3.
      rewrite Htr, <- !app_assoc in Ht3. simpl in Ht3.
      apply (split_at_only ack_ok) in Ht3; auto.
      * destruct Ht3 as (-> & Hev & ->). injection Hev as -> ->.
        repeat split.
        -- intros x [<-|Hx]; [reflexivity|].
           destruct (Hrest x Hx) as [p ->]. reflexivity.
        -- exists rest. split; [reflexivity|exact Hrest].
      * simpl. apply forallb_forall. intros x Hx.
        destruct (Hrest x Hx) as [p ->]. reflexivity.
  - exfalso. apply Hnot.
    destruct (client_cleanup_trace w1) as (w3 & rest & Hw3 & Ht3 & Hrest).
    rewrite Hw3 in Hrun. injection Hrun as <- <-.
    unfold acks_ok in *. rewrite Ht3, forallb_app, Hb. simpl.
    apply forallb_forall. intros x Hx.
    destruct (Hrest x Hx) as [p ->]. reflexivity.
Qed.

(** ** The empty result and the error envelope, on the client *)

Lemma take_whole (n : N) (b : bytes) :
  (N.of_nat (length b) <= n)%N -> take n b = b /\ drop n b = [].
Proof.
  intros H. unfold take, drop. split.
  - apply firstn_all2. lia.
  - apply skipn_all2. lia.
Qed.

Lemma recv_whole {L} st n (w : world L) (b : bytes) rest :
  inbound w = Data b :: rest ->
  (N.of_nat (length b) <= n)%N ->
  recv st n w
  = (inr b, World rest (trace w ++ [Rx st b]) (files w) (locals w)).
Proof.
  intros Hin Hlen. unfold recv. rewrite Hin.
  destruct (take_whole n b Hlen) as [-> ->]. reflexivity.
Qed.

Lemma lower_char_idem (c : ascii) :
  lower_char (lower_char c) = lower_char c.
Proof.
  destruct c as [[] [] [] [] [] [] [] []]; reflexivity.
Qed.

Lemma startswith_lower (p s : str) :
  startswith p s = true -> startswith (lower p) (lower s) = true.
Proof.
  revert s. induction p as [|x p IH]; intros [|y s]; simpl; auto.
  intros H. apply andb_true_iff in H as [Hx Hr].
  apply Ascii.eqb_eq in Hx. subst. rewrite Ascii.eqb_refl. simpl. auto.
Qed.

Lemma contains_lower (sub s : str) :
  contains sub s = true -> contains (lower sub) (lower s) = true.
Proof.
  induction s as [|y s IH]; intros H.
  - cbn [contains] in H. apply orb_true_iff in H as [H|H]; [|discriminate].
    change (contains (lower sub) (lower []))
      with (startswith (lower sub) (lower []) || false).
    apply orb_true_iff. left. now apply startswith_lower.
  - cbn [contains] in H.
    change (contains (lower sub) (lower (y :: s)))
      with (startswith (lower sub) (lower (y :: s))
            || contains (lower sub) (lower s)).
    apply orb_true_iff. apply orb_true_iff in H as [H|H].
    + left. now apply startswith_lower.
    + right. now apply IH.
Qed.

(** Running a session on a state that is known in part. *)
Ltac run_session :=
  repeat (progress
            (lazy beta iota zeta
                  delta [bind sendall emit raise_if ret is_empty];
             cbn [inbound trace files locals])).

(** What [receive_result] does once a name and a size field that declares
    zero have arrived. *)
Lemma receive_result_empty env action (w : world Client.client_locals)
    name field rest :
  inbound w = Data name :: Data field :: rest ->
  name <> [] -> (N.of_nat (length name) <= 1024)%N ->
  field <> [] -> (N.of_nat (length field) <= 16)%N ->
  py_int (strip field) = Some 0%Z ->
  let w2 :=
    World rest
      (trace w ++ [Rx StOutName name] ++ [Tx StOutName "ACK_OUT_FILENAME"]
       ++ [Rx StOutSize field] ++ [Tx StOutSize "ACK_OUT_SIZE"])
      (files w) (locals w) in
  Client.receive_result env action w =
  if contains "error_" (lower name) then
    match recv StErrMsg 4096 w2 with
    | (inr error_msg, w3) =>
        (inl (Exception
                (match error_msg with
                 | [] => "Server indicated an error (" ++ name ++ ")."
                 | _ => "Server Error: " ++ error_msg
                 end)), w3)
    | (inl e, w3) => (inl e, w3)
    end
  else
    (inr true,
     World rest
       (trace w2 ++
        [Dialog showwarning "Empty Result"
           ("Server returned an empty result file for action '"
            ++ action ++ "'." ++ newline ++ "Filename: " ++ name)])
       (files w) (locals w)).
Proof.
  intros Hin Hname Hnlen Hfield Hflen Hsize w2.
  unfold Client.receive_result.
  run_session. rewrite (recv_whole StOutName 1024 w name _ Hin Hnlen).
  destruct name as [|c name']; [congruence|].
  run_session.
  match goal with
  | |- context [recv StOutSize 16 ?w1] =>
      rewrite (recv_whole StOutSize 16 w1 field rest eq_refl Hflen)
  end.
  destruct field as [|d field']; [congruence|].
  run_session. rewrite Hsize.
  run_session. cbn [Z.eqb andb]. rewrite <- !app_assoc.
  destruct (contains "error_" (lower (c :: name'))).
  - fold w2. destruct (recv StErrMsg 4096 w2) as [[e|msg] w3]; reflexivity.
  - run_session. subst w2. cbn [trace]. rewrite <- !app_assoc. reflexivity.
Qed.

(** C2, as stated, fails: a name with [ERROR_] in capitals does not
    contain [error_], yet with a size of zero the client reads a message
    block and fails. *)
Lemma uppercase_error_name_is_failure :
  let w := awaiting_result "ERROR_LOG_compress.pdf" "0               " "late"
  in
  contains "error_" ("ERROR_LOG_compress.pdf" : str) = false /\
  py_int (strip ("0               " : str)) = Some 0%Z /\
  fst (Client.receive_result example_client "compress" w)
  = inl (Exception "Server Error: late") /\
  trace (snd (Client.receive_result example_client "compress" w))
  = [Rx StOutName "ERROR_LOG_compress.pdf"; Tx StOutName "ACK_OUT_FILENAME";
     Rx StOutSize "0               "; Tx StOutSize "ACK_OUT_SIZE";
     Rx StErrMsg "late"].
Proof. vm_compute. repeat split. Qed.

(** C2, amended. For a result envelope whose size field declares zero, the
    test is on the name in lower case: when the lowered name contains
    [error_] (as it does when the name itself contains it), the client
    makes exactly one more [recv], of the message block, and raises; when
    it does not, the client shows the empty-result warning, returns [True]
    and reads nothing more. *)
Theorem empty_result_interpretation :
  forall env action (w : world Client.client_locals) name field rest,
    inbound w = Data name :: Data field :: rest ->
    name <> [] -> (N.of_nat (length name) <= 1024)%N ->
    field <> [] -> (N.of_nat (length field) <= 16)%N ->
    py_int (strip field) = Some 0%Z ->
    let w2 :=
      World rest
        (trace w ++ [Rx StOutName name] ++ [Tx StOutName "ACK_OUT_FILENAME"]
         ++ [Rx StOutSize field] ++ [Tx StOutSize "ACK_OUT_SIZE"])
        (files w) (locals w) in
    (contains "error_" name = true -> contains "error_" (lower name) = true)
    /\ (contains "error_" (lower name) = true ->
        snd (Client.receive_result env action w)
        = snd (recv StErrMsg 4096 w2)
        /\ exists e,
             fst (Client.receive_result env action w) = inl e
             /\ forall msg, fst (recv StErrMsg 4096 w2) = inr msg ->
                            exists text, e = Exception text)
    /\ (contains "error_" (lower name) = false ->
        Client.receive_result env action w
        = (inr true,
           World rest
             (trace w2 ++
              [Dialog showwarning "Empty Result"
                 ("Server returned an empty result file for action '"
                  ++ action ++ "'." ++ newline ++ "Filename: " ++ name)])
             (files w) (locals w))).
Proof.
  intros env action w name field rest Hin Hname Hnlen Hfield Hflen Hsize w2.
  pose proof (receive_result_empty env action w name field rest
                Hin Hname Hnlen Hfield Hflen Hsize) as H.
  cbv zeta in H. fold w2 in H. split; [|split].
  - intros Hc. apply (contains_lower "error_" name Hc).
  - intros Hc. rewrite Hc in H. rewrite H.
    destruct (recv StErrMsg 4096 w2) as [[e|msg] w3]; simpl.
    + split; [reflexivity|]. exists e. split; [reflexivity|].
      intros m Hm. discriminate.
    + split; [reflexivity|]. eexists. split; [reflexivity|].
      intros m Hm. eauto.
  - intros Hc. rewrite Hc in H. exact H.
Qed.

(** The theorem at the error envelope of the server. *)
Lemma empty_result_interpretation_witness :
  let w := awaiting_result "error_processing.bin" "0               "
                           "ERROR: Server failed" in
  (inbound w = [Data ("error_processing.bin" : bytes);
                Data ("0               " : bytes);
                Data ("ERROR: Server failed" : bytes)])
  /\ py_int (strip ("0               " : str)) = Some 0%Z
  /\ contains "error_" (lower "error_processing.bin") = true
  /\ snd (Client.receive_result example_client "rotate" w)
     = snd (recv StErrMsg 4096
              (World [Data ("ERROR: Server failed" : bytes)]
                 ([] ++ [Rx StOutName "error_processing.bin"]
                  ++ [Tx StOutName "ACK_OUT_FILENAME"]
                  ++ [Rx StOutSize "0               "]
                  ++ [Tx StOutSize "ACK_OUT_SIZE"])
                 example_disk (Client.ClientLocals None))).
Proof.
  intros w. split; [reflexivity|]. split; [reflexivity|].
  split; [reflexivity|].
  refine (proj1 (proj1 (proj2 (empty_result_interpretation
                                 example_client "rotate" w
                                 "error_processing.bin" "0               "
                                 [Data ("ERROR: Server failed" : bytes)]
                                 eq_refl _ _ _ _ eq_refl)) eq_refl));
    first [discriminate | vm_compute; discriminate].
Defined.

(** ** Rotation: the angle is checked before the PDF library is used *)

(** C8. When the angle option of a rotate request is an integer that is
    not a multiple of 90, [rotate_pdf], and with it the "Execute Action"
    step, raises the [ValueError] of the angle and leaves the state as it
    found it: the PDF library has not been called and no file has been
    written. *)
Theorem rotate_rejects_angle_not_multiple_of_90 :
  forall env input_path output_path pages_str angle_str a
         (w : world Server.server_locals),
    py_int angle_str = Some a ->
    (a mod 90 <> 0)%Z ->
    Server.rotate_pdf env input_path output_path pages_str angle_str w
    = (inl (ValueError "Rotation angle must be a multiple of 90."), w)
    /\ forall ws opts,
         Server.angle opts = angle_str ->
         Server.execute_action env "rotate" ws opts w
         = (inl (ValueError "Rotation angle must be a multiple of 90."), w).
Proof.
  intros env input_path output_path pages_str angle_str a w Hint Hmod.
  assert (Hrot : forall ip op ps,
             Server.rotate_pdf env ip op ps angle_str w
             = (inl (ValueError "Rotation angle must be a multiple of 90."),
                w)).
  { intros ip op ps. unfold Server.rotate_pdf. rewrite Hint.
    apply Z.eqb_neq in Hmod. unfold bind at 1. rewrite Hmod. reflexivity. }
  split; [apply Hrot|].
  intros ws opts <-.
  change (Server.execute_action env "rotate" ws opts)
    with (Server.rotate_pdf env (Server.input_path ws)
            (Server.output_path ws) (Server.pages opts) (Server.angle opts)).
  apply Hrot.
Qed.

(** The theorem at the angle 45, and the session around it: the server
    answers with the error envelope and its disk ends without any file. *)
Lemma rotate_rejects_angle_witness :
  py_int ("45" : str) = Some 45%Z /\ (45 mod 90 <> 0)%Z /\
  Server.rotate_pdf (example_server []) "/tmp/scan_4242.pdf"
    "/tmp/scan_rotate_4242.pdf" "all" "45"
    (Server.server_start [] empty_disk)
  = (inl (ValueError "Rotation angle must be a multiple of 90."),
     Server.server_start [] empty_disk).
Proof.
  split; [reflexivity|]. split; [discriminate|].
  apply (rotate_rejects_angle_not_multiple_of_90 (example_server [])
           "/tmp/scan_4242.pdf" "/tmp/scan_rotate_4242.pdf" "all" "45" 45%Z).
  - reflexivity.
  - discriminate.
Defined.

Example rotate_session_with_angle_45 :
  let w := snd (Server.handle_connection (example_server [])
                  (Server.server_start
                     [Data "rotate"; Data "scan.pdf"; Data "4               ";
                      Data "abcd"; Data "all"; Data "45";
                      Data "ACK_OUT_FILENAME"; Data "ACK_OUT_SIZE"]
                     empty_disk)) in
  filter (fun e => match e with
                   | Tx _ _ | Engine _ _ | FileWrite OutputFile _ _ => true
                   | _ => false
                   end) (trace w)
  = [Tx StAction "ACK_ACTION"; Tx StFilename "ACK_FILENAME";
     Tx StSize "ACK_SIZE"; Tx StPages "ACK_PAGES"; Tx StAngle "ACK_ANGLE";
     Tx StOutName "error_processing.bin"; Tx StOutSize "0               ";
     Tx StErrMsg ("ERROR: Server failed during action 'rotate'. "
                  ++ "Check server logs. Details: "
                  ++ "Rotation angle must be a multiple of 90.")]
  /\ files w "/tmp/scan_rotate_4242.pdf" = None
  /\ files w "/tmp/scan_4242.pdf" = None.
Proof. vm_compute. repeat split. Qed.

(** ** Splitting: invalid segments are skipped *)


Lemma split_names_groups input_path output_dir pages segs file_index :
  length (split_names input_path output_dir pages segs file_index)
  = length (flat_map (fun seg => match segment_pages pages seg with
                                 | Some group => [group]
                                 | None => []
                                 end) segs).
Proof.
  revert file_index. induction segs as [|seg segs IH]; intros i; simpl;
    [reflexivity|].
  unfold segment_pages.
  destruct (Server.part_range (Z.of_nat (length pages)) seg) as [|[a b]];
    simpl; now rewrite IH.
Qed.

Lemma split_events_writes env input_path output_dir pages segs file_index :
  split_writes
    (split_events env input_path output_dir pages segs file_index)
  = map (Server.PdfWriter_write env)
        (flat_map (fun seg => match segment_pages pages seg with
                              | Some group => [group]
                              | None => []
                              end) segs).
Proof.
  revert file_index. induction segs as [|seg segs IH]; intros i; simpl;
    [reflexivity|].
  unfold segment_pages.
  destruct (Server.part_range (Z.of_nat (length pages)) seg) as [|[a b]];
    simpl; now rewrite IH.
Qed.

Lemma part_range_no_pages (seg : str) :
  exists err, Server.part_range 0 seg = inl err.
Proof.
  unfold Server.part_range.
  destruct (contains "-" seg).
  - destruct (split_once "-" seg) as [start_str end_str].
    destruct (match start_str with [] => Some 1%Z | _ => py_int start_str end)
      as [start|]; [|eauto].
    destruct (match end_str with [] => Some 0%Z | _ => py_int end_str end)
      as [stop|]; [|eauto].
    destruct ((1 <=? start) && (start <=? stop) && (stop <=? 0))%Z eqn:E;
      [|eauto].
    apply andb_true_iff in E as [E E3]. apply andb_true_iff in E as [E1 E2].
    apply Z.leb_le in E1, E2, E3. lia.
  - destruct (py_int seg) as [n|]; [|eauto].
    destruct ((1 <=? n) && (n <=? 0))%Z eqn:E; [|eauto].
    apply andb_true_iff in E as [E1 E2]. apply Z.leb_le in E1, E2. lia.
Qed.

Lemma split_groups_no_pages (ranges_str : str) :
  split_groups [] ranges_str = [].
Proof.
  unfold split_groups. induction (segments ranges_str) as [|seg segs IH];
    [reflexivity|].
  cbn [flat_map]. rewrite IH. unfold segment_pages. cbn [length Z.of_nat].
  destruct (part_range_no_pages seg) as [err ->]. reflexivity.
Qed.


(** ** Merging: extraction stays inside its directory *)

Lemma contains_single (c : ascii) (s : str) :
  contains [c] s = existsb (Ascii.eqb c) s.
Proof.
  induction s as [|y s IH]; [reflexivity|].
  cbn [contains startswith existsb]. rewrite IH.
  now rewrite andb_true_r.
Qed.


Lemma existsb_rev {A} (f : A -> bool) (l : list A) :
  existsb f (rev l) = existsb f l.
Proof.
  induction l as [|a l IH]; [reflexivity|].
  simpl. rewrite existsb_app, IH. simpl. rewrite orb_false_r.
  apply orb_comm.
Qed.








(** ** Merging: the order of the files and the collision of base names *)

Lemma str_leb_refl (a : str) : str_leb a a = true.
Proof.
  induction a as [|x a IH]; [reflexivity|]. simpl.
  rewrite N.ltb_irrefl, Ascii.eqb_refl. exact IH.
Qed.












(** C4 at an archive with two entries of one base name: both are copied
    to the same file, the second over the first, so the merger is given
    the later entry twice and the earlier one never; the merged output
    changes with the order of the entries. *)
Theorem merge_basename_collision :
  map Server.skipped [entry_a; entry_b] = [false; false]
  /\ merged_output [entry_a; entry_b] = Some ("2222" : bytes)
  /\ merged_output [entry_b; entry_a] = Some ("1111" : bytes).
Proof. vm_compute. repeat split. Qed.

(** ** Workspace paths and the process id *)

Lemma digits_prefix_inj (d1 d2 r1 r2 : str) :
  Forall (fun c => isdigit c = true) d1 ->
  Forall (fun c => isdigit c = true) d2 ->
  no_leading_digit r1 -> no_leading_digit r2 ->
  d1 ++ r1 = d2 ++ r2 -> d1 = d2.
Proof.
  revert d2. induction d1 as [|c d1 IH]; intros [|c' d2] H1 H2 N1 N2 E;
    simpl in E.
  - reflexivity.
  - subst r1. inversion H2; subst. simpl in N1. congruence.
  - subst r2. inversion H1; subst. simpl in N2. congruence.
  - injection E as -> E. inversion H1; inversion H2; subst.
    f_equal. now apply IH.
Qed.

Lemma path_join_inj (a b1 b2 : str) :
  startswith "/" b1 = false -> startswith "/" b2 = false ->
  path_join a b1 = path_join a b2 -> b1 = b2.
Proof.
  intros R1 R2. unfold path_join. rewrite R1, R2.
  destruct (match a with [] => true | _ :: _ => endswith "/" a end).
  - apply app_inv_head.
  - intros E. apply app_inv_head in E. now apply app_inv_head in E.
Qed.












(** ** What the parts of the server add to the trace *)

Lemma append_file_emits G kind path chunk :
  (forall k p d, G (FileWrite k p d) = true) ->
  emits_only G (Server.append_file kind path chunk).
Proof.
  intros H w. eexists [_]. split; [reflexivity|].
  simpl. now rewrite H.
Qed.

Lemma recv_input_emits G fuel path size received :
  (forall k p d, G (FileWrite k p d) = true) ->
  (forall d, G (Rx StPayload d) = true) ->
  emits_only G (Server.recv_input fuel path size received).
Proof.
  intros Hw H. revert received.
  induction fuel as [|fuel IH]; intros received; simpl;
    destruct (received <? size)%Z;
    try apply emits_only_raise; try apply emits_only_ret.
  apply emits_only_bind; [apply emits_only_recv, H|intros chunk].
  apply emits_only_bind; [apply emits_only_raise_if|intros _].
  apply emits_only_bind; [now apply append_file_emits|intros _]. apply IH.
Qed.

Section ServerEmits.
Variable G : event -> bool.
Hypothesis G_other : forall e, is_wire e = false -> G e = true.

Ltac emits_other :=
  repeat lazymatch goal with
    | |- emits_only _ (bind _ _) => apply emits_only_bind; [|intros]
    | |- emits_only _ (ret _) => apply emits_only_ret
    | |- emits_only _ (raise _) => apply emits_only_raise
    | |- emits_only _ (raise_if _ _) => apply emits_only_raise_if
    | |- emits_only _ (emit _) => apply emits_only_emit, G_other; reflexivity
    | |- emits_only _ get_locals => apply emits_only_get_locals
    | |- emits_only _ (set_locals _) => apply emits_only_set_locals
    | |- emits_only _ (isfile _) => apply emits_only_isfile
    | |- emits_only _ (read_file _) => apply emits_only_read_file
    | |- emits_only _ (write_file _ _ _) =>
        apply emits_only_write_file, G_other; reflexivity
    | |- emits_only _ (remove_file _) =>
        apply emits_only_remove_file, G_other; reflexivity
    | |- emits_only _ (try_except _ _) =>
        apply emits_only_try_except; [|intros]
    | |- emits_only _ (try_finally _ _) => apply emits_only_try_finally
    | |- emits_only _ (if ?c then _ else _) => destruct c
    | |- emits_only _ (match ?x with _ => _ end) => destruct x
    end.

Lemma read_pdf_emits env path : emits_only G (Server.read_pdf env path).
Proof. unfold Server.read_pdf. emits_other. Qed.

Lemma split_parts_emits env ip od pages parts i acc :
  emits_only G (Server.split_parts env ip od pages parts i acc).
Proof.
  revert i acc. induction parts as [|part parts IH]; intros i acc;
    cbn [Server.split_parts]; [apply emits_only_ret|].
  destruct (is_empty (strip part)); [apply IH|].
  destruct (Server.part_range _ _) as [err|[a b]].
  - apply emits_only_bind; [|intros; apply IH].
    apply emits_only_emit, G_other. reflexivity.
  - apply emits_only_bind; [|intros; apply IH].
    apply emits_only_write_file, G_other. reflexivity.
Qed.

Lemma split_pdf_emits env ip od ranges_str :
  emits_only G (Server.split_pdf env ip od ranges_str).
Proof.
  unfold Server.split_pdf.
  apply emits_only_bind; [apply read_pdf_emits|intros pages].
  apply emits_only_bind; [apply emits_only_raise_if|intros _].
  apply emits_only_bind; [apply split_parts_emits|intros files].
  emits_other.
Qed.

Lemma extract_members_emits all_members members dir acc :
  emits_only G (Server.extract_members all_members members dir acc).
Proof.
  revert acc. induction members as [|m members IH]; intros acc;
    cbn [Server.extract_members]; [apply emits_only_ret|].
  destruct (Server.skipped m); [apply IH|].
  destruct (Server.zip_open all_members (Server.filename m)).
  - apply emits_only_bind; [|intros; apply IH].
    apply emits_only_write_file, G_other. reflexivity.
  - apply emits_only_bind; [|intros; apply IH].
    apply emits_only_emit, G_other. reflexivity.
Qed.

Lemma append_all_emits env paths pages :
  emits_only G (Server.append_all env paths pages).
Proof.
  revert pages. induction paths as [|p paths IH]; intros pages;
    cbn [Server.append_all]; [apply emits_only_ret|].
  apply emits_only_bind;
    [apply emits_only_emit, G_other; reflexivity|intros _].
  intros w. destruct (files w p) as [data|].
  - destruct (Server.PdfReader env data) as [e|ps].
    + apply emits_only_bind; [|intros; apply IH].
      apply emits_only_emit, G_other. reflexivity.
    + apply IH.
  - apply emits_only_bind; [|intros; apply IH].
    apply emits_only_emit, G_other. reflexivity.
Qed.

Lemma merge_pdfs_emits env zip_path out_path :
  emits_only G (Server.merge_pdfs env zip_path out_path).
Proof.
  unfold Server.merge_pdfs. apply emits_only_try_finally.
  - apply emits_only_bind;
      [apply emits_only_emit, G_other; reflexivity|intros _].
    apply emits_only_bind; [apply emits_only_read_file|intros archive].
    destruct (Server.ZipFile_infolist env archive) as [e|members];
      [apply emits_only_raise|].
    apply emits_only_bind; [apply extract_members_emits|intros paths].
    apply emits_only_bind; [apply emits_only_raise_if|intros _].
    apply emits_only_bind; [apply append_all_emits|intros pages].
    emits_other.
  - intros w. eexists [_]. split; [reflexivity|].
    simpl. rewrite G_other; reflexivity.
Qed.

Lemma rotate_pdf_emits env ip op pages_str angle :
  emits_only G (Server.rotate_pdf env ip op pages_str angle).
Proof.
  unfold Server.rotate_pdf.
  destruct (py_int angle); [|apply emits_only_raise].
  apply emits_only_bind; [apply emits_only_raise_if|intros _].
  apply emits_only_bind; [apply read_pdf_emits|intros pages].
  apply emits_only_bind; [apply emits_only_raise_if|intros _].
  match goal with
  | |- emits_only _ (match ?x with _ => _ end) => destruct x
  end; emits_other.
Qed.

Lemma run_external_emits env action ws opt :
  emits_only G (Server.run_external env action ws opt).
Proof. unfold Server.run_external. emits_other. Qed.

Lemma execute_action_emits env action ws opts :
  emits_only G (Server.execute_action env action ws opts).
Proof.
  unfold Server.execute_action, Server.handle_file_conversion,
    Server.encrypt_pdf, Server.decrypt_pdf.
  repeat lazymatch goal with
    | |- emits_only _ (if ?c then _ else _) => destruct c
    | |- emits_only _ (try_except _ _) =>
        apply emits_only_try_except; [|intros]
    | |- emits_only _ (match ?x with _ => _ end) => destruct x
    | |- emits_only _ (raise _) => apply emits_only_raise
    | |- emits_only _ (Server.run_external _ _ _ _) =>
        apply run_external_emits
    | |- emits_only _ (Server.merge_pdfs _ _ _) => apply merge_pdfs_emits
    | |- emits_only _ (Server.rotate_pdf _ _ _ _ _) => apply rotate_pdf_emits
    | |- emits_only _ (bind (Server.split_pdf _ _ _ _) _) =>
        apply emits_only_bind; [apply split_pdf_emits|intros]
    | |- emits_only _ (fun w => write_file _ _ _ w) =>
        let w := fresh "w" in
        intros w; apply emits_only_write_file, G_other; reflexivity
    end.
Qed.

Lemma cleanup_emits : emits_only G Server.cleanup.
Proof.
  unfold Server.cleanup.
  apply emits_only_bind; [apply emits_only_get_locals|intros l].
  destruct (Server.paths l) as [ws|]; [|apply emits_only_ret].
  apply emits_only_bind;
    [apply emits_only_remove_file, G_other; reflexivity|intros _].
  apply emits_only_bind;
    [apply emits_only_remove_file, G_other; reflexivity|intros _].
  destruct (Server.temp_dir_for_action ws); [|apply emits_only_ret].
  intros w. eexists [_]. split; [reflexivity|].
  simpl. rewrite G_other; reflexivity.
Qed.
End ServerEmits.

(** ** An empty option field ends the server's session *)

Lemma field_ok_no_engine_weaken (tr : list event) :
  forallb field_ok_no_engine tr = true -> forallb field_ok tr = true.
Proof.
  induction tr as [|e tr IH]; [reflexivity|]. simpl. intros H.
  apply andb_true_iff in H as [He Ht]. unfold field_ok_no_engine in He.
  apply andb_true_iff in He as [He _]. rewrite He. now apply IH.
Qed.

Lemma hoare_bind_field {B} st n ack (f : bytes -> unit -> Server.SM B) Qv :
  option_step st = true ->
  (forall d,
     hoare (fun w => forallb field_ok_no_engine (trace w) = true) (f d tt) Qv
           (fun e w => forallb field_ok (trace w) = true
                       \/ empty_field e (trace w))) ->
  hoare (fun w => forallb field_ok_no_engine (trace w) = true)
        (bind (recv st n)
           (fun d =>
              bind (sendall st ack)
                (fun _ =>
                   bind (raise_if (is_empty d)
                           (ConnectionAbortedError (field_error st)))
                        (f d))))
        Qv
        (fun e w => forallb field_ok (trace w) = true
                    \/ empty_field e (trace w)).
Proof.
  intros Hst Hf w Hw. unfold bind at 1.
  assert (Hstep : forall d w',
             trace w' = trace w ++ [Rx st d] ->
             match bind (sendall st ack)
                     (fun _ =>
                        bind (raise_if (is_empty d)
                                (ConnectionAbortedError (field_error st)))
                             (f d))
                     w'
             with
             | (inr a, w'') => Qv a w''
             | (inl e, w'') =>
                 forallb field_ok (trace w'') = true
                 \/ empty_field e (trace w'')
             end).
  { intros d w' Ht. unfold bind at 1. cbn [sendall emit].
    unfold bind at 1. destruct d as [|c d]; cbn [is_empty raise_if].
    - cbn [raise trace]. right. exists (trace w), st, ack.
      rewrite Ht, <- app_assoc. repeat split; auto.
    - cbn [ret]. apply Hf. cbn [trace]. rewrite Ht, !forallb_app, Hw.
      unfold field_ok_no_engine. simpl. now rewrite Hst. }
  unfold recv. destruct (inbound w) as [|[b| |] rest].
  - apply Hstep. reflexivity.
  - apply Hstep. reflexivity.
  - left. now apply field_ok_no_engine_weaken.
  - left. now apply field_ok_no_engine_weaken.
Qed.

Lemma recv_options_fields action :
  hoare (fun w => forallb field_ok_no_engine (trace w) = true)
        (Server.recv_options action)
        (fun _ w => forallb field_ok_no_engine (trace w) = true)
        (fun e w => forallb field_ok (trace w) = true
                    \/ empty_field e (trace w)).
Proof.
  unfold Server.recv_options.
  repeat lazymatch goal with
    | |- hoare _ (if ?c then _ else _) _ _ => destruct c
    | |- hoare _ (bind (recv _ _) _) _ _ =>
        apply hoare_bind_field; [reflexivity|intros ?]
    | |- hoare _ (ret _) _ _ => apply hoare_ret; auto
    end.
Qed.

Lemma send_result_emits G action ws :
  (forall d, G (Tx StOutName d) = true) ->
  (forall d, G (Tx StOutSize d) = true) ->
  (forall d, G (Tx StOutData d) = true) ->
  (forall d, G (Rx StOutName d) = true) ->
  (forall d, G (Rx StOutSize d) = true) ->
  emits_only G (Server.send_result action ws).
Proof.
  intros Htx1 Htx2 Htx3 H1 H2. unfold Server.send_result.
  repeat lazymatch goal with
    | |- emits_only _ (bind _ _) => apply emits_only_bind; [|intros]
    | |- emits_only _ (raise_if _ _) => apply emits_only_raise_if
    | |- emits_only _ (sendall _ _) =>
        apply emits_only_sendall; first [apply Htx1 | apply Htx2]
    | |- emits_only _ (recv _ _) => apply emits_only_recv; assumption
    | |- emits_only _ (isfile _) => apply emits_only_isfile
    | |- emits_only _ (read_file _) => apply emits_only_read_file
    | |- emits_only _ (send_chunks _ _ _) =>
        apply emits_only_send_chunks; assumption
    end.
Qed.

Lemma send_error_emits G name message :
  (forall d, G (Tx StOutName d) = true) ->
  (forall d, G (Tx StOutSize d) = true) ->
  (forall d, G (Tx StErrMsg d) = true) ->
  (forall d, G (Rx StOutName d) = true) ->
  (forall d, G (Rx StOutSize d) = true) ->
  emits_only G (Server.send_error name message).
Proof.
  intros Htx1 Htx2 Htx3 H1 H2. unfold Server.send_error.
  apply emits_only_try_except; [|intros; apply emits_only_ret].
  repeat lazymatch goal with
    | |- emits_only _ (bind _ _) => apply emits_only_bind; [|intros]
    | |- emits_only _ (sendall _ _) =>
        apply emits_only_sendall;
        first [apply Htx1 | apply Htx2 | apply Htx3]
    | |- emits_only _ (recv _ _) => apply emits_only_recv; assumption
    end.
Qed.

Lemma handle_error_emits G e :
  (forall d, G (Tx StOutName d) = true) ->
  (forall d, G (Tx StOutSize d) = true) ->
  (forall d, G (Tx StErrMsg d) = true) ->
  (forall d, G (Rx StOutName d) = true) ->
  (forall d, G (Rx StOutSize d) = true) ->
  emits_only G (Server.handle_error e).
Proof.
  intros Htx1 Htx2 Htx3 H1 H2. unfold Server.handle_error.
  destruct e; try apply emits_only_ret;
    try (now apply send_error_emits);
    (apply emits_only_bind; [apply emits_only_get_locals|intros l];
     destruct (negb (Server.action_success l));
     [now apply send_error_emits|apply emits_only_ret]).
Qed.

Lemma serve_request_fields env :
  hoare (fun w => forallb field_ok_no_engine (trace w) = true)
        (Server.serve_request env)
        (fun _ w => forallb field_ok (trace w) = true)
        (fun e w => forallb field_ok (trace w) = true
                    \/ empty_field e (trace w)).
Proof.
  assert (Hother : forall e, is_wire e = false -> field_ok e = true)
    by (intros [] H; try reflexivity; discriminate).
  unfold Server.serve_request.
  repeat lazymatch goal with
    | |- hoare _ (bind (Server.recv_options _) _) _ _ => fail
    | |- hoare _ (bind _ _) _ _ =>
        apply (hoare_bind_within field_ok_no_engine);
        [ solve [emits_auto
                | apply recv_input_emits; reflexivity ]
        | intros ? ? ?; left; now apply field_ok_no_engine_weaken
        | intros ? ]
    | |- hoare _ (match ?p with Some _ => _ | None => _ end) _ _ =>
        destruct p
    | |- hoare _ (raise _) _ _ =>
        apply hoare_raise; intros; left; now apply field_ok_no_engine_weaken
    end.
  eapply hoare_bind; [apply recv_options_fields|intros opts].
  eapply hoare_conseq
    with (P' := fun w => forallb field_ok (trace w) = true)
         (Qv' := fun _ w => forallb field_ok (trace w) = true)
         (Qe' := fun _ w => forallb field_ok (trace w) = true);
    [|intros w; apply field_ok_no_engine_weaken|auto|auto].
  apply (hoare_within field_ok).
  apply emits_only_bind; [now apply execute_action_emits|intros _].
  apply emits_only_bind; [apply emits_only_set_locals|intros _].
  apply send_result_emits; reflexivity.
Qed.

Lemma server_cleanup_trace (w : world Server.server_locals) :
  exists w' removes,
    Server.cleanup w = (inr tt, w') /\
    trace w' = trace w ++ removes /\
    forallb is_remove removes = true.
Proof.
  unfold Server.cleanup, bind, get_locals.
  destruct (Server.paths (locals w)) as [ws|];
    [|exists w, []; rewrite app_nil_r; auto].
  unfold remove_file at 1.
  destruct (files w (Server.input_path ws)); cbn [inbound trace files locals];
    unfold remove_file;
    cbn [inbound trace files locals];
    match goal with
    | |- context [match ?f (Server.output_path ws) with _ => _ end] =>
        destruct (f (Server.output_path ws))
    end;
    cbn [inbound trace files locals ret];
    destruct (Server.temp_dir_for_action ws);
    eexists _, _; (split; [reflexivity|]); cbn [trace];
    rewrite <- ?app_assoc;
    first [ split; [reflexivity|reflexivity]
          | split; [symmetry; apply app_nil_r|reflexivity] ].
Qed.

(** C6, as stated, fails: when the password of an encrypt request is
    read empty, the error raised is [ConnectionAbortedError], not a
    validation error, and the handler of network errors sends no error
    envelope: the last thing the server sends is [ACK_PASS]. *)
Lemma empty_password_is_connection_error :
  let start := Server.server_start
                 [Data "encrypt"; Data "doc.pdf"; Data "3               ";
                  Data "abc"] empty_disk in
  fst (Server.serve_request (example_server []) start)
  = inl (ConnectionAbortedError "No password received.")
  /\ (forall msg, fst (Server.serve_request (example_server []) start)
                  <> inl (ValueError msg))
  /\ filter is_wire
       (trace (snd (Server.handle_connection (example_server []) start)))
     = [Rx StAction "encrypt"; Tx StAction "ACK_ACTION";
        Rx StFilename "doc.pdf"; Tx StFilename "ACK_FILENAME";
        Rx StSize "3               "; Tx StSize "ACK_SIZE";
        Rx StPayload "abc"; Rx StPass []; Tx StPass "ACK_PASS"].
Proof.
  vm_compute. split; [reflexivity|]. split; [discriminate|reflexivity].
Qed.

(** C6, amended. The server checks that each option field it receives is
    not empty before the action is executed, and an empty field is taken
    for a lost connection: whenever a session of the server holds the
    receipt of an empty option field, the body of the handler raised
    [ConnectionAbortedError] with the message of that field, the engine was
    never called, and after the acknowledgement of the field the server
    sends nothing, no error envelope either, and only removes its files. *)
Theorem empty_option_field_aborts :
  forall env incoming disk r w pre st post,
    Server.handle_connection env (Server.server_start incoming disk) = (r, w) ->
    trace w = pre ++ Rx st [] :: post ->
    option_step st = true ->
    fst (Server.serve_request env (Server.server_start incoming disk))
    = inl (ConnectionAbortedError (field_error st))
    /\ (forall e, In e (trace w) -> is_engine e = false)
    /\ exists ack removes,
         post = Tx st ack :: removes /\ forallb is_remove removes = true.
Proof.
  intros env incoming disk r w pre st post Hrun Htr Hst.
  assert (Hbad : field_ok (Rx st []) = false) by (simpl; now rewrite Hst).
  assert (Hnot : forallb field_ok (trace w) <> true).
  { rewrite Htr, forallb_app. cbn [forallb]. rewrite Hbad.
    rewrite andb_false_r. discriminate. }
  assert (Hrem : forall l, forallb is_remove l = true ->
                           forallb field_ok l = true
                           /\ forall e, In e l -> is_engine e = false).
  { intros l Hl. rewrite forallb_forall in Hl. split.
    - apply forallb_forall. intros x Hx. specialize (Hl x Hx).
      destruct x; try discriminate; reflexivity.
    - intros x Hx. specialize (Hl x Hx).
      destruct x; try discriminate; reflexivity. }
  unfold Server.handle_connection, try_finally, try_except in Hrun.
  pose proof (serve_request_fields env (Server.server_start incoming disk)
                eq_refl) as Hb.
  destruct (Server.serve_request env (Server.server_start incoming disk))
    as [[e|u] w1].
  - destruct Hb as [Hb|(pre0 & st0 & ack & Ht0 & Hpre0 & Hst0 & ->)].
    + exfalso. apply Hnot.
      assert (Hh : emits_only field_ok (Server.handle_error e))
        by (apply handle_error_emits; reflexivity).
      destruct (Hh w1) as (evs & Ht & Hg).
      destruct (Server.handle_error e w1) as [r2 w2].
      destruct (server_cleanup_trace w2) as (w3 & removes & Hw3 & Ht3 & Hr3).
      rewrite Hw3 in Hrun. injection Hrun as <- <-.
      simpl in Ht. rewrite Ht3, Ht, !forallb_app, Hb, Hg.
      now rewrite (proj1 (Hrem removes Hr3)).
    + cbn [Server.handle_error ret] in Hrun.
      destruct (server_cleanup_trace w1) as (w3 & removes & Hw3 & Ht3 & Hr3).
      rewrite Hw3 in Hrun. injection Hrun as <- <-.
      rewrite Ht0 in Ht3.
      assert (Hsplit : pre ++ Rx st [] :: post
                       = pre0 ++ Rx st0 [] :: (Tx st0 ack :: removes)).
      { rewrite <- Htr, Ht3, <- app_assoc. reflexivity. }
      apply (split_at_only field_ok) in Hsplit; auto.
      * destruct Hsplit as (-> & Hev & ->). injection Hev as ->.
        split; [reflexivity|]. split.
        -- intros x Hx. rewrite Ht3 in Hx.
           apply in_app_or in Hx as [Hx|Hx].
           ++ apply in_app_or in Hx as [Hx|[<-|[<-|[]]]]; try reflexivity.
              rewrite forallb_forall in Hpre0. specialize (Hpre0 x Hx).
              unfold field_ok_no_engine in Hpre0.
              apply andb_true_iff in Hpre0 as [_ Hpre0].
              now apply negb_true_iff in Hpre0.
           ++ now apply (proj2 (Hrem removes Hr3)).
        -- exists ack, removes. split; [reflexivity|exact Hr3].
      * now apply field_ok_no_engine_weaken.
      * simpl. apply (proj1 (Hrem removes Hr3)).
  - exfalso. apply Hnot.
    destruct (server_cleanup_trace w1) as (w3 & removes & Hw3 & Ht3 & Hr3).
    rewrite Hw3 in Hrun. injection Hrun as <- <-.
    rewrite Ht3, forallb_app, Hb. apply (proj1 (Hrem removes Hr3)).
Qed.

(** ** Size fields *)

Lemma hoare_try_except {L A} (P : world L -> Prop) (m : M L A)
    (h : exn -> M L A) (R : exn -> world L -> Prop) Qv Qe :
  hoare P m Qv R -> (forall e, hoare (R e) (h e) Qv Qe) ->
  hoare P (try_except m h) Qv Qe.
Proof.
  intros Hm Hh w Hw. unfold try_except. specialize (Hm w Hw).
  destruct (m w) as [[e|a] w']; [|exact Hm]. apply (Hh e w' Hm).
Qed.

Lemma take_nil (n : N) (data : bytes) :
  take n data = [] -> (0 < n)%N -> data = [].
Proof.
  unfold take. intros H Hn. destruct data as [|c data]; [reflexivity|].
  destruct (N.to_nat n) eqn:E; [lia|discriminate].
Qed.

Lemma take_drop (n : N) (data : bytes) : take n data ++ drop n data = data.
Proof. apply firstn_skipn. Qed.

Lemma length_drop (n : N) (data : bytes) :
  (0 < n)%N -> data <> [] -> length (drop n data) < length data.
Proof.
  intros Hn Hd. unfold drop. rewrite length_skipn.
  destruct data; [congruence|]. cbn [length]. lia.
Qed.

(** The sending loop sends the whole of the data, in chunks, and with the
    length of the data for fuel it never runs out. *)
Lemma send_chunks_spec {L} st :
  forall fuel data (w : world L),
    length data <= fuel ->
    exists chunks,
      concat chunks = data /\
      send_chunks fuel st data w
      = (inr tt,
         World (inbound w) (trace w ++ map (Tx st) chunks) (files w)
               (locals w)).
Proof.
  induction fuel as [|fuel IH]; intros data w Hlen.
  - destruct data; [|simpl in Hlen; lia].
    exists []. split; [reflexivity|]. cbn. rewrite app_nil_r. now destruct w.
  - cbn [send_chunks]. destruct (take 65536 data) as [|c chunk] eqn:E.
    + apply take_nil in E; [|lia]. subst.
      exists []. split; [reflexivity|]. cbn. rewrite app_nil_r.
      now destruct w.
    + assert (Hne : data <> []) by (intros ->; discriminate).
      pose proof (length_drop 65536 data ltac:(lia) Hne) as Hd.
      unfold bind. cbn [sendall emit].
      match goal with
      | |- context [send_chunks fuel st _ ?w1] =>
          destruct (IH (drop 65536 data) w1 ltac:(lia)) as (chunks & Hc & Hs)
      end.
      rewrite Hs. exists ((c :: chunk) :: chunks). split.
      * cbn [concat]. rewrite Hc, <- E. apply take_drop.
      * cbn [inbound trace files locals map]. now rewrite <- app_assoc.
Qed.

Lemma filter_all {A} (f : A -> bool) (l : list A) :
  forallb f l = true -> filter f l = l.
Proof.
  induction l as [|a l IH]; [reflexivity|]. simpl. intros H.
  apply andb_true_iff in H as [Ha Hl]. rewrite Ha. now rewrite IH.
Qed.

Lemma hoare_bind_send_chunks {L B} K (X : list event) st data
    (f : unit -> M L B) Qv Qe :
  (forall d, K (Tx st d) = true) ->
  (forall chunks,
     concat chunks = data ->
     hoare (fun w => proj K w = X ++ map (Tx st) chunks) (f tt) Qv Qe) ->
  hoare (fun w => proj K w = X)
        (bind (send_chunks (length data) st data) f) Qv Qe.
Proof.
  intros HK Hf w Hw. unfold bind.
  destruct (send_chunks_spec st (length data) data w (le_n _))
    as (chunks & Hc & ->).
  apply (Hf chunks Hc). unfold proj in *. cbn [trace].
  rewrite filter_app, Hw. f_equal. apply filter_all.
  apply forallb_forall. intros x Hx. apply in_map_iff in Hx as (d & <- & _).
  apply HK.
Qed.

Lemma size_field_properties (n : N) :
  (n < 10 ^ 16)%N ->
  right_padded n (ljust 16 (str_of_N n))
  /\ py_int (strip (ljust 16 (str_of_N n))) = Some (Z.of_N n).
Proof.
  intros Hn.
  assert (Hlen : length (str_of_N n) <= 16)
    by (apply str_of_N_length; [exact Hn|lia]).
  split; [split|].
  - unfold ljust. rewrite length_app, repeat_length. lia.
  - reflexivity.
  - destruct (py_int_digits (str_of_N n) (str_of_N_nonempty n)
                (str_of_N_digits n)) as [_ H].
    rewrite H. now rewrite str_of_N_value.
Qed.

Lemma receive_result_silent K env action :
  (forall e, is_wire e = false -> K e = false) ->
  (forall d, K (Tx StOutName d) = false) ->
  (forall d, K (Tx StOutSize d) = false) ->
  (forall d, K (Rx StOutName d) = false) ->
  (forall d, K (Rx StOutSize d) = false) ->
  (forall d, K (Rx StOutData d) = false) ->
  (forall d, K (Rx StErrMsg d) = false) ->
  silent K (Client.receive_result env action).
Proof.
  intros H0 H1 H2 H3 H4 H5 H6. unfold silent.
  apply receive_result_emits; intros; apply negb_true_iff; auto.
Qed.

Ltac framed_tac :=
  unfold framed; cbv zeta;
  first [ left; reflexivity
        | right; eexists; left; reflexivity
        | right; eexists; right; eexists; split; [eassumption|reflexivity] ].

Lemma client_body_upload env action arg opts :
  hoare (fun w => proj upload_events w = [])
        (Client.send_request_body env action arg opts)
        (fun _ w => framed StSize StPayload (proj upload_events w))
        (fun _ w => framed StSize StPayload (proj upload_events w)).
Proof.
  unfold Client.send_request_body.
  repeat
    (lazymatch goal with
     | |- hoare _ (bind (sendall StSize _) _) _ _ =>
         apply hoare_bind_emit; cbn [filter upload_events app]
     | |- hoare _ (bind (send_chunks _ _ _) _) _ _ =>
         apply hoare_bind_send_chunks; [reflexivity|intros chunks Hchunks];
         cbn [app]
     | |- hoare _ (bind _ _) _ _ =>
         apply hoare_bind_silent;
         [ solve [unfold Client.connect, Client.prepare_file_info,
                    Client.send_options; silent_auto]
         | intros ? ? ->; framed_tac
         | intros ? ]
     | |- hoare _ (match ?p with (_, _) => _ end) _ _ => destruct p
     end).
  eapply hoare_conseq.
  - apply (proj_silent upload_events _
             (fun tr => framed StSize StPayload tr)).
    apply receive_result_silent; try reflexivity.
    intros [] H; try reflexivity; discriminate.
  - intros w Hw. cbv beta. rewrite Hw. framed_tac.
  - auto.
  - auto.
Qed.

(** The events of kind [K] of a call of the client are those of its
    [try] block when the dialogs and the removal of files are not of that
    kind. *)
Lemma client_call_proj K env action arg opts w0 :
  (forall e, is_wire e = false -> K e = false) ->
  proj K (snd (Client.send_request_to_server env action arg opts w0))
  = proj K (snd (Client.send_request_body env action arg opts w0)).
Proof.
  intros HK.
  assert (Hcl : forall w,
             filter K (trace (snd (Client.client_cleanup w)))
             = filter K (trace w)).
  { apply emits_only_filter. unfold Client.client_cleanup, silent.
    repeat lazymatch goal with
      | |- emits_only _ (bind _ _) => apply emits_only_bind; [|intros]
      | |- emits_only _ get_locals => apply emits_only_get_locals
      | |- emits_only _ (ret _) => apply emits_only_ret
      | |- emits_only _ (remove_file _) =>
          apply emits_only_remove_file; now rewrite HK
      | |- emits_only _ (match ?x with _ => _ end) => destruct x
      end. }
  unfold Client.send_request_to_server, try_finally, try_except, proj.
  destruct (Client.send_request_body env action arg opts w0) as [[e|b] w1].
  - assert (Hrep : filter K (trace (snd (Client.report_failure e w1)))
                   = filter K (trace w1)).
    { apply emits_only_filter. unfold Client.report_failure, silent.
      destruct e;
        (apply emits_only_bind;
         [apply emits_only_emit; now rewrite HK
         |intros; apply emits_only_ret]). }
    destruct (Client.report_failure e w1) as [r2 w2].
    specialize (Hcl w2).
    destruct (Client.client_cleanup w2) as [[e3|u] w3]; cbn [snd] in *;
      congruence.
  - specialize (Hcl w1).
    destruct (Client.client_cleanup w1) as [[e3|u] w3]; cbn [snd] in *;
      congruence.
Qed.

Lemma hoare_send_chunks {L} K (X : list event) st data :
  (forall d, K (Tx st d) = true) ->
  hoare (fun w : world L => proj K w = X)
        (send_chunks (length data) st data)
        (fun _ w => exists chunks,
                      concat chunks = data /\
                      proj K w = X ++ map (Tx st) chunks)
        (fun _ _ => False).
Proof.
  intros HK w Hw.
  destruct (send_chunks_spec st (length data) data w (le_n _))
    as (chunks & Hc & ->).
  exists chunks. split; [exact Hc|]. unfold proj in *. cbn [trace].
  rewrite filter_app, Hw. f_equal. apply filter_all.
  apply forallb_forall. intros x Hx. apply in_map_iff in Hx as (d & <- & _).
  apply HK.
Qed.

Lemma recv_options_silent K action :
  (forall st d, option_step st = true -> K (Rx st d) = false) ->
  (forall st d, option_step st = true -> K (Tx st d) = false) ->
  silent K (Server.recv_options action).
Proof.
  intros H1 H2. unfold Server.recv_options, silent.
  repeat lazymatch goal with
    | |- emits_only _ (bind _ _) => apply emits_only_bind; [|intros]
    | |- emits_only _ (ret _) => apply emits_only_ret
    | |- emits_only _ (raise_if _ _) => apply emits_only_raise_if
    | |- emits_only _ (sendall _ _) =>
        apply emits_only_sendall; rewrite H2; reflexivity
    | |- emits_only _ (recv _ _) =>
        apply emits_only_recv; intros; rewrite H1; reflexivity
    | |- emits_only _ (if ?c then _ else _) => destruct c
    end.
Qed.

Lemma send_result_download action ws :
  hoare (fun w => proj download_events w = [])
        (Server.send_result action ws)
        (fun _ w => framed StOutSize StOutData (proj download_events w))
        (fun e w => proj download_events w = []
                    \/ (framed StOutSize StOutData (proj download_events w)
                        /\ is_net e = true)).
Proof.
  unfold Server.send_result.
  repeat
    (lazymatch goal with
     | |- hoare _ (bind (sendall StOutSize _) _) _ _ =>
         apply hoare_bind_emit; cbn [filter download_events app]
     | |- hoare _ (bind (recv StOutSize _) _) _ _ =>
         apply hoare_bind_recv;
         [ intros ? ? ? ->; right; split; [framed_tac|assumption]
         | intros ack _; cbn [filter download_events app] ]
     | |- hoare (fun w => _ = [_]) (bind (raise_if _ _) _) _ _ =>
         apply hoare_bind_raise_if;
         [ intros _ ? ->; right; split; [framed_tac|reflexivity]
         | intros _ ]
     | |- hoare _ (bind _ _) _ _ =>
         apply hoare_bind_silent;
         [ solve [silent_auto] | intros ? ? ->; now left | intros ? ]
     end).
  eapply hoare_conseq.
  - apply (hoare_send_chunks download_events); reflexivity.
  - intros w Hw; exact Hw.
  - intros _ w (chunks & Hc & ->). cbn [app]. framed_tac.
  - intros e w [].
Qed.

Lemma serve_request_download env :
  hoare (fun w => proj download_events w = [])
        (Server.serve_request env)
        (fun _ w => framed StOutSize StOutData (proj download_events w))
        (fun e w => proj download_events w = []
                    \/ (framed StOutSize StOutData (proj download_events w)
                        /\ is_net e = true)).
Proof.
  assert (Hother : forall e, is_wire e = false ->
                             negb (download_events e) = true)
    by (intros [] H; try reflexivity; discriminate).
  unfold Server.serve_request.
  repeat
    (lazymatch goal with
     | |- hoare _ (bind _ _) _ _ =>
         apply hoare_bind_silent;
         [ solve [ silent_auto
                 | apply recv_input_emits; reflexivity
                 | apply recv_options_silent; intros [] ? ?;
                   try reflexivity; discriminate
                 | unfold silent; now apply execute_action_emits ]
         | intros ? ? ->; now left
         | intros ? ]
     | |- hoare _ (match ?p with Some _ => _ | None => _ end) _ _ =>
         destruct p
     | |- hoare _ (raise _) _ _ => apply hoare_raise; intros ? ->; now left
     end).
  apply send_result_download.
Qed.

Lemma send_error_download name message :
  hoare (fun w => proj download_events w = [])
        (Server.send_error name message)
        (fun _ w => framed StOutSize StOutData (proj download_events w))
        (fun _ w => framed StOutSize StOutData (proj download_events w)).
Proof.
  unfold Server.send_error.
  apply hoare_try_except
    with (R := fun _ w => framed StOutSize StOutData (proj download_events w));
    [|intros e; apply hoare_ret; auto].
  apply hoare_bind_silent;
    [solve [silent_auto]|intros ? ? ->; now left|intros _].
  apply hoare_bind_silent;
    [solve [silent_auto]|intros ? ? ->; now left|intros _].
  apply hoare_bind_emit. cbn [filter download_events app].
  assert (Hf : framed StOutSize StOutData
                 [Tx StOutSize (ljust 16 (str_of_N 0))])
    by (right; exists []; left; reflexivity).
  apply hoare_bind_silent;
    [solve [silent_auto]|intros ? ? ->; exact Hf|intros _].
  eapply hoare_conseq.
  - apply (proj_silent download_events _
             (fun tr => framed StOutSize StOutData tr)).
    silent_auto.
  - intros w Hw. cbv beta. rewrite Hw. exact Hf.
  - auto.
  - auto.
Qed.

Lemma handle_error_download e :
  hoare (fun w => proj download_events w = [])
        (Server.handle_error e)
        (fun _ w => framed StOutSize StOutData (proj download_events w))
        (fun _ w => framed StOutSize StOutData (proj download_events w)).
Proof.
  assert (Hret : forall P : world Server.server_locals -> Prop,
             (forall w, P w -> proj download_events w = []) ->
             hoare P (ret tt)
               (fun _ w => framed StOutSize StOutData (proj download_events w))
               (fun _ w => framed StOutSize StOutData
                             (proj download_events w))).
  { intros P HP. apply hoare_ret. intros w Hw. rewrite (HP w Hw). now left. }
  unfold Server.handle_error.
  destruct e; try (apply Hret; auto); try apply send_error_download;
    (apply hoare_bind_silent;
     [solve [silent_auto]|intros ? ? ->; now left|intros l];
     destruct (negb (Server.action_success l));
     [apply send_error_download|apply Hret; auto]).
Qed.

Lemma handle_error_net e (w : world Server.server_locals) :
  is_net e = true -> Server.handle_error e w = (inr tt, w).
Proof. destruct e; try discriminate; reflexivity. Qed.

(** C1, as stated, fails: for a payload of five bytes the client sends
    the digit followed by fifteen spaces, which is not a field padded on
    the left. *)
Lemma size_field_is_not_left_padded :
  let w := snd (Client.send_request_to_server example_client "compress"
                  (Client.OnePath "/home/u/in.pdf") no_client_options
                  (Client.client_start
                     [Data "ACK_ACTION"; Data "ACK_FILENAME";
                      Data "ACK_SIZE"] example_disk)) in
  filter upload_events (trace w)
  = [Tx StSize "5               "; Tx StPayload "%PDF-"]
  /\ ~ left_padded 5 "5               ".
Proof.
  split; [vm_compute; reflexivity|].
  intros [_ (pad & Hpad & _)].
  apply (f_equal (@rev ascii)) in Hpad. rewrite rev_app_distr in Hpad.
  vm_compute in Hpad. discriminate.
Qed.

(** C1, amended. For every payload size below 10^16 the size field is the
    decimal string of the size followed by spaces up to 16 bytes, and
    stripping and parsing it gives the size back.  In every call of the
    client the size field that is sent is this field for the length of
    the file, and the payload chunks that follow it, if any, make up the
    file; the same holds of the output size and the output data in every
    session of the server. *)
Theorem size_field_right_padded :
  (forall n, (n < 10 ^ 16)%N ->
     right_padded n (ljust 16 (str_of_N n))
     /\ py_int (strip (ljust 16 (str_of_N n))) = Some (Z.of_N n))
  /\ (forall env action arg opts incoming disk,
        framed StSize StPayload
          (proj upload_events
             (snd (Client.send_request_to_server env action arg opts
                     (Client.client_start incoming disk)))))
  /\ (forall env incoming disk,
        framed StOutSize StOutData
          (proj download_events
             (snd (Server.handle_connection env
                     (Server.server_start incoming disk))))).
Proof.
  split; [exact size_field_properties|split].
  - intros env action arg opts incoming disk.
    rewrite client_call_proj
      by (intros [] H; try reflexivity; discriminate).
    pose proof (client_body_upload env action arg opts
                  (Client.client_start incoming disk) eq_refl) as H.
    destruct (Client.send_request_body env action arg opts
                (Client.client_start incoming disk)) as [[e|b] w1]; exact H.
  - intros env incoming disk.
    assert (Hcl : forall w,
               filter download_events (trace (snd (Server.cleanup w)))
               = filter download_events (trace w)).
    { apply emits_only_filter. unfold silent. apply cleanup_emits.
      intros [] H; try reflexivity; discriminate. }
    unfold Server.handle_connection, try_finally, try_except.
    pose proof (serve_request_download env
                  (Server.server_start incoming disk) eq_refl) as Hb.
    destruct (Server.serve_request env (Server.server_start incoming disk))
      as [[e|u] w1].
    + assert (Hh : framed StOutSize StOutData
                     (proj download_events
                        (snd (Server.handle_error e w1)))).
      { destruct Hb as [Hb|[Hb Hnet]].
        - pose proof (handle_error_download e w1 Hb) as H.
          destruct (Server.handle_error e w1) as [[e2|u2] w2]; exact H.
        - rewrite (handle_error_net e w1 Hnet). exact Hb. }
      destruct (Server.handle_error e w1) as [r2 w2].
      specialize (Hcl w2). unfold proj in *.
      destruct (Server.cleanup w2) as [[e3|u3] w3]; cbn [snd] in *;
        now rewrite Hcl.
    + specialize (Hcl w1). unfold proj in *.
      destruct (Server.cleanup w1) as [[e3|u3] w3]; cbn [snd] in *;
        now rewrite Hcl.
Qed.

Lemma size_field_right_padded_witness :
  (65537 < 10 ^ 16)%N
  /\ right_padded 65537 (ljust 16 (str_of_N 65537))
  /\ py_int (strip (ljust 16 (str_of_N 65537))) = Some 65537%Z.
Proof.
  split; [reflexivity|].
  apply (proj1 size_field_right_padded 65537%N). reflexivity.
Defined.

(** ** The theorems at concrete sessions *)

(** A compress request whose file name is answered by [NOPE]. *)
Lemma wrong_ack_aborts_session_witness :
  let run := Client.send_request_to_server example_client "compress"
               (Client.OnePath "/home/u/in.pdf") no_client_options
               (Client.client_start [Data "ACK_ACTION"; Data "NOPE"]
                  example_disk) in
  run = (inr false, snd run)
  /\ trace (snd run)
     = firstn 3 (trace (snd run)) ++ Rx StFilename "NOPE"
       :: skipn 4 (trace (snd run))
  /\ expected_ack StFilename = Some ("ACK_FILENAME" : bytes)
  /\ ("NOPE" : bytes) <> "ACK_FILENAME"
  /\ fst (Client.send_request_body example_client "compress"
            (Client.OnePath "/home/u/in.pdf") no_client_options
            (Client.client_start [Data "ACK_ACTION"; Data "NOPE"]
               example_disk))
     = inl (ConnectionAbortedError (ack_error StFilename)).
Proof.
  intros run.
  assert (Hrun : run = (inr false, snd run)) by (vm_compute; reflexivity).
  assert (Htr : trace (snd run)
                = firstn 3 (trace (snd run)) ++ Rx StFilename "NOPE"
                  :: skipn 4 (trace (snd run)))
    by (vm_compute; reflexivity).
  assert (Hne : ("NOPE" : bytes) <> "ACK_FILENAME") by discriminate.
  split; [exact Hrun|]. split; [exact Htr|]. split; [reflexivity|].
  split; [exact Hne|].
  exact (proj1 (wrong_ack_aborts_session
              example_client "compress" (Client.OnePath "/home/u/in.pdf")
              no_client_options [Data "ACK_ACTION"; Data "NOPE"] example_disk
              (inr false) (snd run) (firstn 3 (trace (snd run)))
              StFilename "NOPE" (skipn 4 (trace (snd run))) "ACK_FILENAME"
              Hrun Htr eq_refl Hne)).
Defined.


(** A rotate request whose angle is read empty. *)
Lemma empty_option_field_aborts_witness :
  let run := Server.handle_connection (example_server [])
               (Server.server_start
                  [Data "rotate"; Data "doc.pdf"; Data "3               ";
                   Data "abc"; Data "1-2"] empty_disk) in
  run = (inr tt, snd run)
  /\ trace (snd run)
     = firstn 11 (trace (snd run)) ++ Rx StAngle []
       :: skipn 12 (trace (snd run))
  /\ option_step StAngle = true
  /\ fst (Server.serve_request (example_server [])
            (Server.server_start
               [Data "rotate"; Data "doc.pdf"; Data "3               ";
                Data "abc"; Data "1-2"] empty_disk))
     = inl (ConnectionAbortedError (field_error StAngle)).
Proof.
  intros run.
  assert (Hrun : run = (inr tt, snd run)) by (vm_compute; reflexivity).
  assert (Htr : trace (snd run)
                = firstn 11 (trace (snd run)) ++ Rx StAngle []
                  :: skipn 12 (trace (snd run)))
    by (vm_compute; reflexivity).
  split; [exact Hrun|]. split; [exact Htr|]. split; [reflexivity|].
  exact (proj1 (empty_option_field_aborts
                  (example_server [])
                  [Data "rotate"; Data "doc.pdf"; Data "3               ";
                   Data "abc"; Data "1-2"] empty_disk
                  (inr tt) (snd run) (firstn 11 (trace (snd run)))
                  StAngle (skipn 12 (trace (snd run)))
                  Hrun Htr eq_refl)).
Defined.



(** ** The loops have fuel enough *)

(** The transfer loops stop on their own: every pass of a receiving loop
    takes at least one byte or raises, so the declared size bounds the
    number of passes, and the sending loop is bounded by the length of
    the data ([send_chunks_spec]). *)

Lemma recv_has_fuel {L} st bufsize (w : world L) :
  fst (recv st bufsize w) <> inl OutOfFuel.
Proof.
  unfold recv. destruct (inbound w) as [|[b| |] rest]; discriminate.
Qed.

Lemma recv_output_has_fuel fuel :
  forall output_size received_bytes output_data
         (w : world Client.client_locals),
    (output_size - received_bytes <= Z.of_nat fuel)%Z ->
    fst (Client.recv_output fuel output_size received_bytes output_data w)
    <> inl OutOfFuel.
Proof.
  induction fuel as [|fuel IH]; intros size rcv data w Hfuel;
    cbn [Client.recv_output];
    destruct (rcv <? size)%Z eqn:Hlt; try discriminate;
    apply Z.ltb_lt in Hlt; [lia|].
  unfold bind at 1.
  pose proof (recv_has_fuel StOutData
                (Z.to_N (Z.min 65536 (size - rcv))) w) as Hr.
  destruct (recv StOutData (Z.to_N (Z.min 65536 (size - rcv))) w)
    as [[e|chunk] w1]; [exact Hr|].
  destruct chunk as [|c chunk]; [discriminate|].
  apply IH. cbn [length]. lia.
Qed.

Lemma recv_input_has_fuel fuel :
  forall input_path size received_bytes (w : world Server.server_locals),
    (size - received_bytes <= Z.of_nat fuel)%Z ->
    fst (Server.recv_input fuel input_path size received_bytes w)
    <> inl OutOfFuel.
Proof.
  induction fuel as [|fuel IH]; intros path size rcv w Hfuel;
    cbn [Server.recv_input];
    destruct (rcv <? size)%Z eqn:Hlt; try discriminate;
    apply Z.ltb_lt in Hlt; [lia|].
  unfold bind at 1.
  pose proof (recv_has_fuel StPayload
                (Z.to_N (Z.min 65536 (size - rcv))) w) as Hr.
  destruct (recv StPayload (Z.to_N (Z.min 65536 (size - rcv))) w)
    as [[e|chunk] w1];
    [intros E; apply Hr; cbn [fst] in *; injection E as ->; reflexivity|].
  destruct chunk as [|c chunk]; [discriminate|].
  unfold bind, raise_if, is_empty, ret, Server.append_file.
  apply IH. cbn [length]. lia.
Qed.

Lemma transfer_loops_have_fuel :
  (forall size (w : world Client.client_locals),
     fst (Client.recv_output (Z.to_nat size) size 0 [] w) <> inl OutOfFuel)
  /\ (forall path size (w : world Server.server_locals),
        fst (Server.recv_input (Z.to_nat size) path size 0 w)
        <> inl OutOfFuel)
  /\ (forall st data (w : world Server.server_locals),
        fst (send_chunks (length data) st data w) = inr tt).
Proof.
  split; [|split].
  - intros size w. apply recv_output_has_fuel. lia.
  - intros path size w. apply recv_input_has_fuel. lia.
  - intros st data w.
    destruct (send_chunks_spec st (length data) data w (le_n _))
      as (chunks & _ & ->). reflexivity.
Qed.

(** * Further properties of the code *)

(** ** Transfers: what is sent is what is received *)

Lemma chunked_concat_nil (chunks : list bytes) :
  chunked chunks -> concat chunks = [] -> chunks = [].
Proof.
  intros Hc E. destruct chunks as [|c cs]; [reflexivity|].
  inversion Hc as [|? ? Hne _]; subst. cbn [concat] in E.
  apply app_eq_nil in E as [E _]. contradiction.
Qed.

Lemma take_nonempty (n : N) (b : bytes) :
  (0 < n)%N -> b <> [] -> take n b <> [].
Proof. intros Hn Hb E. apply Hb. now apply (take_nil n b). Qed.

(** One [recv] on a stream that has data: it takes a non-empty piece from
    the front, at most [n] bytes, and leaves the rest as it was. *)
Lemma recv_stream {L} st n (w : world L) (b : bytes) cs rest :
  arriving (b :: cs) rest w -> chunked (b :: cs) -> (0 < n)%N ->
  exists cs',
    recv st n w
    = (inr (take n b),
       World (map Data cs' ++ rest) (trace w ++ [Rx st (take n b)])
             (files w) (locals w))
    /\ take n b <> [] /\ chunked cs'
    /\ take n b ++ concat cs' = concat (b :: cs).
Proof.
  unfold arriving. intros Hin Hc Hn. inversion Hc as [|? ? Hb Hcs]; subst.
  unfold recv. rewrite Hin. cbn [map app].
  destruct (drop n b) as [|c more] eqn:E.
  - exists cs. repeat split; auto using take_nonempty.
    cbn [concat]. rewrite <- (take_drop n b) at 2. now rewrite E, app_nil_r.
  - exists ((c :: more) :: cs). repeat split; auto using take_nonempty.
    + constructor; [discriminate|assumption].
    + cbn [concat]. rewrite <- E, app_assoc. now rewrite take_drop.
Qed.

(** The receiving loop of the server on a stream that holds at least what
    is still missing. *)
Lemma recv_input_stream fuel :
  forall path size received chunks rest (w : world Server.server_locals),
    arriving chunks rest w -> chunked chunks ->
    (0 <= size - received <= Z.of_nat (length (concat chunks)))%Z ->
    (size - received <= Z.of_nat fuel)%Z ->
    exists queue w',
      Server.recv_input fuel path size received w = (inr size, w')
      /\ arriving queue rest w' /\ chunked queue
      /\ concat queue = skipn (Z.to_nat (size - received)) (concat chunks)
      /\ files w' path
         = (if (received <? size)%Z
            then Some (match files w path with Some old => old | None => [] end
                       ++ firstn (Z.to_nat (size - received)) (concat chunks))
            else files w path)
      /\ (forall p, p <> path -> files w' p = files w p)
      /\ locals w' = locals w.
Proof.
  induction fuel as [|fuel IH];
    intros path size rcv chunks rest w Harr Hch Hlen Hfuel;
    cbn [Server.recv_input]; destruct (rcv <? size)%Z eqn:Hlt;
    try (apply Z.ltb_lt in Hlt; lia);
    try (apply Z.ltb_ge in Hlt; assert (size = rcv) by lia; subst rcv;
         exists chunks, w; rewrite Z.sub_diag; cbn [Z.to_nat skipn];
         repeat split; auto).
  apply Z.ltb_lt in Hlt.
  destruct chunks as [|b cs];
    [cbn [concat length] in Hlen; lia|].
  set (n := Z.to_N (Z.min 65536 (size - rcv))).
  assert (Hn : (0 < n)%N) by (unfold n; lia).
  destruct (recv_stream StPayload n w b cs rest Harr Hch Hn)
    as (cs' & Hrecv & Hne & Hch' & Hcat).
  unfold bind at 1. rewrite Hrecv.
  assert (Hnz : (Z.of_nat (N.to_nat n) <= size - rcv)%Z)
    by (unfold n; lia).
  assert (Hpl : length (take n b) <= N.to_nat n) by apply length_take.
  assert (Hp1 : 1 <= length (take n b))
    by (destruct (take n b); [congruence|cbn; lia]).
  assert (Hie : is_empty (take n b) = false)
    by (destruct (take n b); [congruence|reflexivity]).
  unfold bind, raise_if, ret, Server.append_file. rewrite Hie.
  cbn [inbound trace files locals].
  match goal with
  | |- context [Server.recv_input fuel path size ?r ?w1] =>
      destruct (IH path size r cs' rest w1) as
        (queue & w' & Hrun & Harr' & Hq & Hqc & Hfile & Hother & Hloc)
  end.
  - reflexivity.
  - assumption.
  - assert (length (concat (b :: cs))
            = length (take n b) + length (concat cs'))
      by (rewrite <- Hcat; apply length_app).
    lia.
  - lia.
  - exists queue, w'. rewrite Hrun. split; [reflexivity|].
    split; [assumption|]. split; [assumption|].
    assert (Hk : Z.to_nat (size - rcv)
                 = length (take n b)
                   + Z.to_nat (size - (rcv + Z.of_nat (length (take n b)))))
      by lia.
    split; [|split; [|split]].
    + rewrite Hqc, <- Hcat, Hk. rewrite skipn_app.
      rewrite (skipn_all2 (take n b)) by lia. cbn [app].
      f_equal. lia.
    + rewrite Hfile. cbn [files].
      assert (Hw1 : forall f d, fs_write f path d path = Some d)
        by (intros; unfold fs_write; now rewrite bytes_eqb_refl).
      rewrite !Hw1.
      destruct (rcv + Z.of_nat (length (take n b)) <? size)%Z eqn:Hlt2.
      * f_equal. rewrite <- app_assoc. f_equal.
        rewrite <- Hcat, Hk. rewrite firstn_app.
        rewrite (firstn_all2 (take n b)) by lia. f_equal. f_equal. lia.
      * apply Z.ltb_ge in Hlt2. f_equal. f_equal.
        rewrite <- Hcat, Hk. rewrite firstn_app.
        rewrite (firstn_all2 (take n b)) by lia.
        replace (Z.to_nat (size - (rcv + Z.of_nat (length (take n b)))))
          with 0 by lia.
        rewrite Nat.add_0_r, Nat.sub_diag. cbn [firstn].
        now rewrite app_nil_r.
    + intros p Hp. rewrite (Hother p Hp). cbn [files]. unfold fs_write.
      apply bytes_eqb_neq in Hp. now rewrite Hp.
    + rewrite Hloc. reflexivity.
Qed.

(** The same loop on a stream that ends too early. *)
Lemma recv_input_short fuel :
  forall path size received chunks old (w : world Server.server_locals),
    arriving chunks [] w -> chunked chunks ->
    (Z.of_nat (length (concat chunks)) < size - received)%Z ->
    (size - received <= Z.of_nat fuel)%Z ->
    files w path = Some old ->
    exists w',
      Server.recv_input fuel path size received w
      = (inl (ConnectionAbortedError
                ("Client disconnected during file transfer ("
                 ++ str_of_Z (received + Z.of_nat (length (concat chunks)))
                 ++ "/" ++ str_of_Z size ++ " received).")), w')
      /\ files w' path = Some (old ++ concat chunks)
      /\ inbound w' = [].
Proof.
  induction fuel as [|fuel IH];
    intros path size rcv chunks old w Harr Hch Hlen Hfuel Hold;
    cbn [Server.recv_input]; destruct (rcv <? size)%Z eqn:Hlt;
    try (apply Z.ltb_lt in Hlt; lia); try (apply Z.ltb_ge in Hlt; lia).
  destruct chunks as [|b cs].
  - unfold arriving in Harr. cbn [map app] in Harr.
    unfold bind at 1. unfold recv. rewrite Harr.
    unfold bind, raise_if, raise. cbn [is_empty concat length Z.of_nat].
    rewrite Z.add_0_r, app_nil_r. eexists. split; [reflexivity|].
    cbn [files inbound]. auto.
  - set (n := Z.to_N (Z.min 65536 (size - rcv))).
    assert (Hn : (0 < n)%N) by (unfold n; lia).
    destruct (recv_stream StPayload n w b cs [] Harr Hch Hn)
      as (cs' & Hrecv & Hne & Hch' & Hcat).
    unfold bind at 1. rewrite Hrecv.
    assert (Hp1 : 1 <= length (take n b))
      by (destruct (take n b); [congruence|cbn; lia]).
    assert (Hie : is_empty (take n b) = false)
      by (destruct (take n b); [congruence|reflexivity]).
    assert (Hsum : length (concat (b :: cs))
                   = length (take n b) + length (concat cs'))
      by (rewrite <- Hcat; apply length_app).
    unfold bind, raise_if, ret, Server.append_file. rewrite Hie.
    cbn [inbound trace files locals]. rewrite Hold.
    match goal with
    | |- context [Server.recv_input fuel path size ?r ?w1] =>
        destruct (IH path size r cs' (old ++ take n b) w1)
          as (w' & Hrun & Hfile & Hq)
    end.
    + reflexivity.
    + assumption.
    + lia.
    + lia.
    + cbn [files]. unfold fs_write. now rewrite bytes_eqb_refl.
    + exists w'. rewrite Hrun. split; [|split; [|assumption]].
      * rewrite Hsum, Nat2Z.inj_add, Z.add_assoc. reflexivity.
      * rewrite Hfile, <- app_assoc, Hcat. reflexivity.
Qed.

(** The receiving loop of the client, likewise. *)
Lemma recv_output_stream fuel :
  forall size received data chunks rest (w : world Client.client_locals),
    arriving chunks rest w -> chunked chunks ->
    (0 <= size - received <= Z.of_nat (length (concat chunks)))%Z ->
    (size - received <= Z.of_nat fuel)%Z ->
    exists queue w',
      Client.recv_output fuel size received data w
      = (inr (data ++ firstn (Z.to_nat (size - received)) (concat chunks)),
         w')
      /\ arriving queue rest w' /\ chunked queue
      /\ concat queue = skipn (Z.to_nat (size - received)) (concat chunks)
      /\ files w' = files w /\ locals w' = locals w.
Proof.
  induction fuel as [|fuel IH];
    intros size rcv data chunks rest w Harr Hch Hlen Hfuel;
    cbn [Client.recv_output]; destruct (rcv <? size)%Z eqn:Hlt;
    try (apply Z.ltb_lt in Hlt; lia);
    try (apply Z.ltb_ge in Hlt; assert (size = rcv) by lia; subst rcv;
         exists chunks, w; rewrite Z.sub_diag; cbn [Z.to_nat skipn firstn];
         rewrite app_nil_r; repeat split; auto).
  apply Z.ltb_lt in Hlt.
  destruct chunks as [|b cs];
    [cbn [concat length] in Hlen; lia|].
  set (n := Z.to_N (Z.min 65536 (size - rcv))).
  assert (Hn : (0 < n)%N) by (unfold n; lia).
  destruct (recv_stream StOutData n w b cs rest Harr Hch Hn)
    as (cs' & Hrecv & Hne & Hch' & Hcat).
  unfold bind at 1. rewrite Hrecv.
  assert (Hnz : (Z.of_nat (N.to_nat n) <= size - rcv)%Z)
    by (unfold n; lia).
  assert (Hpl : length (take n b) <= N.to_nat n) by apply length_take.
  assert (Hp1 : 1 <= length (take n b))
    by (destruct (take n b); [congruence|cbn; lia]).
  assert (Hie : is_empty (take n b) = false)
    by (destruct (take n b); [congruence|reflexivity]).
  assert (Hsum : length (concat (b :: cs))
                 = length (take n b) + length (concat cs'))
    by (rewrite <- Hcat; apply length_app).
  unfold bind, raise_if, ret. rewrite Hie.
  match goal with
  | |- context [Client.recv_output fuel size ?r ?d ?w1] =>
      destruct (IH size r d cs' rest w1) as
        (queue & w' & Hrun & Harr' & Hq & Hqc & Hfile & Hloc)
  end.
  - reflexivity.
  - assumption.
  - lia.
  - lia.
  - exists queue, w'. rewrite Hrun.
    assert (Hk : Z.to_nat (size - rcv)
                 = length (take n b)
                   + Z.to_nat (size - (rcv + Z.of_nat (length (take n b)))))
      by lia.
    split; [|split; [assumption|split; [assumption|split]]].
    + f_equal. f_equal. rewrite <- app_assoc. f_equal.
      rewrite <- Hcat, Hk. rewrite firstn_app.
      rewrite (firstn_all2 (take n b)) by lia. f_equal. f_equal. lia.
    + rewrite Hqc, <- Hcat, Hk. rewrite skipn_app.
      rewrite (skipn_all2 (take n b)) by lia. cbn [app]. f_equal. lia.
    + rewrite Hfile, Hloc. auto.
Qed.

Lemma recv_output_short fuel :
  forall size received data chunks (w : world Client.client_locals),
    arriving chunks [] w -> chunked chunks ->
    (Z.of_nat (length (concat chunks)) < size - received)%Z ->
    (size - received <= Z.of_nat fuel)%Z ->
    exists w',
      Client.recv_output fuel size received data w
      = (inl (ConnectionAbortedError
                ("Server disconnected during result transfer ("
                 ++ str_of_Z (received + Z.of_nat (length (concat chunks)))
                 ++ "/" ++ str_of_Z size ++ " received).")), w')
      /\ files w' = files w.
Proof.
  induction fuel as [|fuel IH];
    intros size rcv data chunks w Harr Hch Hlen Hfuel;
    cbn [Client.recv_output]; destruct (rcv <? size)%Z eqn:Hlt;
    try (apply Z.ltb_lt in Hlt; lia); try (apply Z.ltb_ge in Hlt; lia).
  destruct chunks as [|b cs].
  - unfold arriving in Harr. cbn [map app] in Harr.
    unfold bind at 1. unfold recv. rewrite Harr.
    unfold bind, raise_if, raise. cbn [is_empty concat length Z.of_nat].
    rewrite Z.add_0_r. eexists. split; reflexivity.
  - set (n := Z.to_N (Z.min 65536 (size - rcv))).
    assert (Hn : (0 < n)%N) by (unfold n; lia).
    destruct (recv_stream StOutData n w b cs [] Harr Hch Hn)
      as (cs' & Hrecv & Hne & Hch' & Hcat).
    unfold bind at 1. rewrite Hrecv.
    assert (Hp1 : 1 <= length (take n b))
      by (destruct (take n b); [congruence|cbn; lia]).
    assert (Hie : is_empty (take n b) = false)
      by (destruct (take n b); [congruence|reflexivity]).
    assert (Hsum : length (concat (b :: cs))
                   = length (take n b) + length (concat cs'))
      by (rewrite <- Hcat; apply length_app).
    unfold bind, raise_if, ret. rewrite Hie.
    match goal with
    | |- context [Client.recv_output fuel size ?r ?d ?w1] =>
        destruct (IH size r d cs' w1) as (w' & Hrun & Hfile)
    end.
    + reflexivity.
    + assumption.
    + lia.
    + lia.
    + exists w'. rewrite Hrun. split; [|exact Hfile].
      rewrite Hsum, Nat2Z.inj_add, Z.add_assoc. reflexivity.
Qed.

(** The chunks of the sending loop are not empty. *)
Lemma send_chunks_chunked {L} st :
  forall fuel data (w : world L),
    length data <= fuel ->
    exists chunks,
      chunked chunks /\ concat chunks = data /\
      Forall (fun c : bytes => (N.of_nat (length c) <= 65536)%N) chunks /\
      send_chunks fuel st data w
      = (inr tt,
         World (inbound w) (trace w ++ map (Tx st) chunks) (files w)
               (locals w)).
Proof.
  induction fuel as [|fuel IH]; intros data w Hlen.
  - destruct data; [|simpl in Hlen; lia].
    exists []. repeat split; try constructor.
    cbn. rewrite app_nil_r. now destruct w.
  - cbn [send_chunks]. destruct (take 65536 data) as [|c chunk] eqn:E.
    + apply take_nil in E; [|lia]. subst.
      exists []. repeat split; try constructor.
      cbn. rewrite app_nil_r. now destruct w.
    + assert (Hne : data <> []) by (intros ->; discriminate).
      pose proof (length_drop 65536 data ltac:(lia) Hne) as Hd.
      pose proof (length_take 65536 data) as Ht. rewrite E in Ht.
      unfold bind. cbn [sendall emit].
      match goal with
      | |- context [send_chunks fuel st _ ?w1] =>
          destruct (IH (drop 65536 data) w1 ltac:(lia))
            as (chunks & Hch & Hc & Hsz & Hs)
      end.
      rewrite Hs. exists ((c :: chunk) :: chunks). repeat split.
      * constructor; [discriminate|assumption].
      * cbn [concat]. rewrite Hc, <- E. apply take_drop.
      * constructor; [lia|assumption].
      * cbn [inbound trace files locals map]. now rewrite <- app_assoc.
Qed.

(** The upload arrives unchanged.  The sending loop of the client cuts the
    file into chunks that are not empty, of at most 65536 bytes, and that
    add up to the file.  When the announced size is the length of the file
    and the bytes of the file arrive, cut in any way and followed by
    anything, the receiving loop of the server ("4. Receive File Data")
    stores exactly the file at the input path, touches no other file, and
    leaves on the socket exactly what followed. *)
Theorem upload_is_stored_unchanged :
  forall (content : bytes),
    (forall wc : world Client.client_locals,
       exists chunks,
         chunked chunks /\ concat chunks = content /\
         Forall (fun c : bytes => (N.of_nat (length c) <= 65536)%N) chunks /\
         send_chunks (length content) StPayload content wc
         = (inr tt,
            World (inbound wc) (trace wc ++ map (Tx StPayload) chunks)
                  (files wc) (locals wc)))
    /\ (forall chunks extra rest path (ws : world Server.server_locals),
          chunked chunks ->
          concat chunks = content ++ extra ->
          arriving chunks rest ws ->
          let size := Z.of_nat (length content) in
          exists queue w',
            (write_file InputFile path [] ;;
             Server.recv_input (Z.to_nat size) path size 0) ws
            = (inr size, w')
            /\ files w' path = Some content
            /\ (forall p, p <> path -> files w' p = files ws p)
            /\ arriving queue rest w' /\ concat queue = extra).
Proof.
  intros content. split.
  - intros wc. apply send_chunks_chunked. apply le_n.
  - intros chunks extra rest path ws Hch Hcat Harr size.
    unfold bind, write_file.
    match goal with
    | |- context [Server.recv_input _ path size 0 ?w1] =>
        destruct (recv_input_stream (Z.to_nat size) path size 0 chunks rest w1)
          as (queue & w' & Hrun & Harr' & _ & Hq & Hfile & Hother & _)
    end.
    + exact Harr.
    + exact Hch.
    + rewrite Hcat, length_app. unfold size. lia.
    + unfold size. lia.
    + exists queue, w'. rewrite Hrun. split; [reflexivity|].
      rewrite Z.sub_0_r in *. unfold size in *. rewrite Nat2Z.id in *.
      split; [|split; [|split; [exact Harr'|]]].
      * rewrite Hfile. cbn [files].
        assert (Hw1 : fs_write (files ws) path [] path = Some [])
          by (unfold fs_write; now rewrite bytes_eqb_refl).
        rewrite Hw1, Hcat.
        rewrite firstn_app, Nat.sub_diag, firstn_all. cbn [firstn app].
        rewrite app_nil_r.
        destruct (0 <? Z.of_nat (length content))%Z eqn:E; [reflexivity|].
        apply Z.ltb_ge in E.
        destruct content; [reflexivity|cbn [length] in E; lia].
      * intros p Hp. rewrite (Hother p Hp). cbn [files]. unfold fs_write.
        apply bytes_eqb_neq in Hp. now rewrite Hp.
      * rewrite Hq, Hcat, skipn_app, Nat.sub_diag, skipn_all. reflexivity.
Qed.

Lemma upload_is_stored_unchanged_witness :
  let chunks : list bytes := [("ab" : bytes); ("cde" : bytes)] in
  let ws := Server.server_start [Data "ab"; Data "cde"; Timeout] empty_disk in
  chunked chunks
  /\ concat chunks = ("abc" : bytes) ++ ("de" : bytes)
  /\ arriving chunks [Timeout] ws
  /\ exists queue w',
       (write_file InputFile "/tmp/in.pdf" [] ;;
        Server.recv_input 3 "/tmp/in.pdf" 3 0) ws = (inr 3%Z, w')
       /\ files w' "/tmp/in.pdf" = Some ("abc" : bytes)
       /\ (forall p : str, p <> "/tmp/in.pdf" -> files w' p = files ws p)
       /\ arriving queue [Timeout] w' /\ concat queue = ("de" : bytes).
Proof.
  intros chunks ws.
  assert (H1 : chunked chunks)
    by (repeat constructor; discriminate).
  assert (H2 : concat chunks = ("abc" : bytes) ++ ("de" : bytes))
    by reflexivity.
  assert (H3 : arriving chunks [Timeout] ws) by reflexivity.
  split; [exact H1|]. split; [exact H2|]. split; [exact H3|].
  exact (proj2 (upload_is_stored_unchanged "abc")
           chunks "de" [Timeout] "/tmp/in.pdf" ws H1 H2 H3).
Defined.

(** The download arrives unchanged.  The sending loop of the server cuts
    the output file into chunks that are not empty and add up to it; when
    the announced size is the length of the result and its bytes arrive,
    cut in any way and followed by anything, the receiving loop of the
    client ("7. Receive Output File Data") returns exactly the result and
    leaves on the socket exactly what followed. *)
Theorem download_is_received_unchanged :
  forall (content : bytes),
    (forall ws : world Server.server_locals,
       exists chunks,
         chunked chunks /\ concat chunks = content /\
         send_chunks (length content) StOutData content ws
         = (inr tt,
            World (inbound ws) (trace ws ++ map (Tx StOutData) chunks)
                  (files ws) (locals ws)))
    /\ (forall chunks extra rest (wc : world Client.client_locals),
          chunked chunks ->
          concat chunks = content ++ extra ->
          arriving chunks rest wc ->
          let size := Z.of_nat (length content) in
          exists queue w',
            Client.recv_output (Z.to_nat size) size 0 [] wc
            = (inr content, w')
            /\ files w' = files wc
            /\ arriving queue rest w' /\ concat queue = extra).
Proof.
  intros content. split.
  - intros ws.
    destruct (send_chunks_chunked StOutData (length content) content ws
                (le_n _)) as (chunks & H1 & H2 & _ & H3).
    exists chunks. auto.
  - intros chunks extra rest wc Hch Hcat Harr size.
    destruct (recv_output_stream (Z.to_nat size) size 0 [] chunks rest wc)
      as (queue & w' & Hrun & Harr' & _ & Hq & Hfile & _).
    + exact Harr.
    + exact Hch.
    + rewrite Hcat, length_app. unfold size. lia.
    + unfold size. lia.
    + exists queue, w'. rewrite Hrun.
      rewrite Z.sub_0_r in *. unfold size in *. rewrite Nat2Z.id in *.
      split; [|split; [exact Hfile|split; [exact Harr'|]]].
      * cbn [app]. rewrite Hcat, firstn_app, Nat.sub_diag, firstn_all.
        cbn [firstn]. now rewrite app_nil_r.
      * rewrite Hq, Hcat, skipn_app, Nat.sub_diag, skipn_all. reflexivity.
Qed.

Lemma download_is_received_unchanged_witness :
  let chunks : list bytes := [("out" : bytes); ("put" : bytes)] in
  let wc := Client.client_start [Data "out"; Data "put"] example_disk in
  chunked chunks
  /\ concat chunks = ("output" : bytes) ++ []
  /\ arriving chunks [] wc
  /\ exists queue w',
       Client.recv_output 6 6 0 [] wc = (inr ("output" : bytes), w')
       /\ files w' = files wc
       /\ arriving queue [] w' /\ concat queue = [].
Proof.
  intros chunks wc.
  assert (H1 : chunked chunks)
    by (repeat constructor; discriminate).
  assert (H2 : concat chunks = ("output" : bytes) ++ []) by reflexivity.
  assert (H3 : arriving chunks [] wc) by reflexivity.
  split; [exact H1|]. split; [exact H2|]. split; [exact H3|].
  exact (proj2 (download_is_received_unchanged "output")
           chunks [] [] wc H1 H2 H3).
Defined.

(** A transfer that is cut short.  When the connection is closed after
    fewer bytes than announced, the receiving loop of the server raises
    [ConnectionAbortedError] with the count of the bytes it has received
    and leaves them in the input file; the loop of the client raises its
    own [ConnectionAbortedError] with the count and touches no file. *)
Theorem short_transfer_is_aborted :
  forall chunks size,
    chunked chunks ->
    (Z.of_nat (length (concat chunks)) < size)%Z ->
    let got := str_of_Z (Z.of_nat (length (concat chunks))) in
    (forall path (ws : world Server.server_locals),
       arriving chunks [] ws ->
       exists w',
         (write_file InputFile path [] ;;
          Server.recv_input (Z.to_nat size) path size 0) ws
         = (inl (ConnectionAbortedError
                   ("Client disconnected during file transfer ("
                    ++ got ++ "/" ++ str_of_Z size ++ " received).")), w')
         /\ files w' path = Some (concat chunks))
    /\ (forall (wc : world Client.client_locals),
          arriving chunks [] wc ->
          exists w',
            Client.recv_output (Z.to_nat size) size 0 [] wc
            = (inl (ConnectionAbortedError
                      ("Server disconnected during result transfer ("
                       ++ got ++ "/" ++ str_of_Z size ++ " received).")), w')
            /\ files w' = files wc).
Proof.
  intros chunks size Hch Hlen got. split.
  - intros path ws Harr. unfold bind, write_file.
    match goal with
    | |- context [Server.recv_input _ path size 0 ?w1] =>
        destruct (recv_input_short (Z.to_nat size) path size 0 chunks [] w1)
          as (w' & Hrun & Hfile & _)
    end; try assumption; try lia.
    + cbn [files]. unfold fs_write. now rewrite bytes_eqb_refl.
    + exists w'. rewrite Hrun. split; [reflexivity|exact Hfile].
  - intros wc Harr.
    destruct (recv_output_short (Z.to_nat size) size 0 [] chunks wc)
      as (w' & Hrun & Hfile); try assumption; try lia.
    exists w'. rewrite Hrun. split; [reflexivity|exact Hfile].
Qed.

Lemma short_transfer_is_aborted_witness :
  let chunks : list bytes := [("ab" : bytes); ("c" : bytes)] in
  let wc := Client.client_start [Data "ab"; Data "c"] example_disk in
  chunked chunks
  /\ (Z.of_nat (length (concat chunks)) < 10)%Z
  /\ arriving chunks [] wc
  /\ exists w',
       Client.recv_output 10 10 0 [] wc
       = (inl (ConnectionAbortedError
                 "Server disconnected during result transfer (3/10 received)."),
          w')
       /\ files w' = files wc.
Proof.
  intros chunks wc.
  assert (H1 : chunked chunks)
    by (repeat constructor; discriminate).
  assert (H2 : (Z.of_nat (length (concat chunks)) < 10)%Z)
    by (vm_compute; reflexivity).
  assert (H3 : arriving chunks [] wc) by reflexivity.
  split; [exact H1|]. split; [exact H2|]. split; [exact H3|].
  exact (proj2 (short_transfer_is_aborted chunks 10 H1 H2) wc H3).
Defined.

(** ** Numbers on the wire *)

Lemma strip_clean (s : str) :
  s <> [] -> Forall (fun c => isspace c = false) s -> strip s = s.
Proof.
  intros Hne Hs. pose proof (strip_ljust 0 s Hne Hs) as H.
  unfold ljust in H. cbn [Nat.sub repeat] in H. now rewrite app_nil_r in H.
Qed.

Lemma parse_digits_value (s : str) :
  s <> [] -> Forall (fun c => isdigit c = true) s ->
  parse_digits 0 false s = Some (dec_value 0 s).
Proof.
  intros Hne Hd. destruct s as [|c s]; [congruence|].
  rewrite <- (app_nil_r (c :: s)) at 1.
  rewrite parse_digits_all by (assumption || discriminate). reflexivity.
Qed.

Lemma py_int_str_of_N (n : N) : py_int (str_of_N n) = Some (Z.of_N n).
Proof.
  pose proof (str_of_N_digits n) as Hd.
  pose proof (str_of_N_nonempty n) as Hne.
  assert (Hsp : Forall (fun c => isspace c = false) (str_of_N n)).
  { eapply Forall_impl; [|exact Hd]. intros c. apply isdigit_not_space. }
  unfold py_int. rewrite (strip_clean _ Hne Hsp).
  rewrite <- (str_of_N_value n).
  pose proof (parse_digits_value _ Hne Hd) as Hp.
  destruct (str_of_N n) as [|c s]; [congruence|].
  inversion Hd as [|? ? Hc _]; subst.
  destruct c as [[] [] [] [] [] [] [] []]; try exact Hp; discriminate Hc.
Qed.

Lemma py_int_str_of_Z (z : Z) : py_int (str_of_Z z) = Some z.
Proof.
  destruct z as [|p|p].
  - reflexivity.
  - change (str_of_Z (Z.pos p)) with (str_of_N (N.pos p)).
    now rewrite py_int_str_of_N.
  - cbn [str_of_Z].
    pose proof (str_of_N_digits (N.pos p)) as Hd.
    pose proof (str_of_N_nonempty (N.pos p)) as Hne.
    assert (Hsp : Forall (fun c => isspace c = false)
                         ("-"%char :: str_of_N (N.pos p))).
    { constructor; [reflexivity|].
      eapply Forall_impl; [|exact Hd]. intros c. apply isdigit_not_space. }
    assert (Hn2 : "-"%char :: str_of_N (N.pos p) <> []) by discriminate.
    unfold py_int. rewrite (strip_clean _ Hn2 Hsp).
    rewrite (parse_digits_value _ Hne Hd), str_of_N_value. reflexivity.
Qed.

Lemma str_of_Z_nonempty (z : Z) : str_of_Z z <> [].
Proof.
  destruct z; cbn [str_of_Z]; try apply str_of_N_nonempty. discriminate.
Qed.

(** The angle of a rotation crosses the wire unchanged: the client sends
    [str(angle)] and the server reads it back with [int], for every
    integer, negative ones included, and the text is never empty.  When
    the options hold no angle the client sends the text [None], which
    [rotate_pdf] refuses as not an integer before it looks at the file. *)
Theorem angle_field_round_trip :
  (forall a : Z, py_int (str_of_Z a) = Some a /\ str_of_Z a <> [])
  /\ (forall pages_str rest (w : world Client.client_locals) a,
        inbound w = Data "ACK_PAGES" :: Data "ACK_ANGLE" :: rest ->
        pages_str <> [] ->
        let field := match a with
                     | Some z => str_of_Z z
                     | None => ("None" : str)
                     end in
        Client.send_options "rotate"
          (Client.Options None None (Some pages_str) a None) w
        = (inr tt,
           World rest
             (trace w ++ [Tx StPages pages_str; Rx StPages "ACK_PAGES";
                          Tx StAngle field; Rx StAngle "ACK_ANGLE"])
             (files w) (locals w)))
  /\ (forall env input_path output_path pages_str
             (w : world Server.server_locals),
        Server.rotate_pdf env input_path output_path pages_str "None" w
        = (inl (Server.int_error "None"), w)).
Proof.
  split; [|split].
  - intros a. split; [apply py_int_str_of_Z|apply str_of_Z_nonempty].
  - intros pages_str rest w a Hin Hne field.
    assert (Hf : field <> []).
    { unfold field. destruct a; [apply str_of_Z_nonempty|discriminate]. }
    unfold Client.send_options.
    change (bytes_eqb "rotate" "encrypt" || bytes_eqb "rotate" "decrypt")
      with false.
    change (bytes_eqb "rotate" "split") with false.
    change (bytes_eqb "rotate" "rotate") with true.
    cbv iota. cbn [Client.pages Client.angle Client.or_empty].
    fold field.
    assert (Hfalsy : Client.falsy (Some pages_str)
                     || Client.falsy (Some field) = false).
    { unfold Client.falsy. destruct pages_str; [congruence|].
      destruct field; [congruence|reflexivity]. }
    rewrite Hfalsy.
    unfold bind at 1. cbn [raise_if ret].
    unfold bind at 1. unfold sendall at 1. unfold emit at 1.
    unfold bind at 1.
    rewrite (recv_whole StPages 1024 _ "ACK_PAGES" (Data "ACK_ANGLE" :: rest))
      by first [cbn [inbound]; exact Hin | vm_compute; discriminate].
    change (bytes_eqb "ACK_PAGES" "ACK_PAGES") with true.
    unfold bind at 1. cbn [negb raise_if ret].
    unfold bind at 1. unfold sendall at 1. unfold emit at 1.
    unfold bind at 1.
    rewrite (recv_whole StAngle 1024 _ "ACK_ANGLE" rest)
      by first [cbn [inbound]; reflexivity | vm_compute; discriminate].
    change (bytes_eqb "ACK_ANGLE" "ACK_ANGLE") with true.
    cbn [negb raise_if ret inbound trace files locals].
    rewrite <- !app_assoc. reflexivity.
  - intros env input_path output_path pages_str w. reflexivity.
Qed.

Lemma angle_field_round_trip_witness :
  let w := Client.client_start [Data "ACK_PAGES"; Data "ACK_ANGLE"]
             example_disk in
  inbound w = [Data ("ACK_PAGES" : bytes); Data ("ACK_ANGLE" : bytes)]
  /\ ("1-2" : str) <> []
  /\ Client.send_options "rotate"
       (Client.Options None None (Some ("1-2" : str)) (Some (-90)%Z) None) w
     = (inr tt,
        World []
          (trace w ++ [Tx StPages "1-2"; Rx StPages "ACK_PAGES";
                       Tx StAngle (str_of_Z (-90)); Rx StAngle "ACK_ANGLE"])
          (files w) (locals w)).
Proof.
  intros w.
  assert (H1 : inbound w = [Data ("ACK_PAGES" : bytes);
                            Data ("ACK_ANGLE" : bytes)]) by reflexivity.
  assert (H2 : ("1-2" : str) <> []) by discriminate.
  split; [exact H1|]. split; [exact H2|].
  exact (proj1 (proj2 angle_field_round_trip) "1-2" [] w (Some (-90)%Z)
           H1 H2).
Defined.

(** ** Paths *)

Lemma split_once_absent (sep : ascii) (s : str) :
  existsb (Ascii.eqb sep) s = false -> split_once sep s = (s, []).
Proof.
  induction s as [|c s IH]; cbn [existsb split_once]; [reflexivity|].
  intros H. apply orb_false_iff in H as [Hc Hs].
  rewrite Ascii.eqb_sym, Hc, (IH Hs). reflexivity.
Qed.

Lemma split_once_first (sep : ascii) (s r : str) :
  existsb (Ascii.eqb sep) s = false ->
  split_once sep (s ++ sep :: r) = (s, r).
Proof.
  induction s as [|c s IH]; cbn [existsb split_once app].
  - intros _. now rewrite Ascii.eqb_refl.
  - intros H. apply orb_false_iff in H as [Hc Hs].
    rewrite Ascii.eqb_sym, Hc, (IH Hs). reflexivity.
Qed.

Lemma no_slash_relative (name : str) :
  contains "/" name = false -> startswith "/" name = false.
Proof.
  destruct name as [|c name]; [reflexivity|].
  cbn [contains]. intros H. now apply orb_false_iff in H as [H _].
Qed.

(** The base name of a name joined to a directory is the name. *)
Lemma basename_path_join (dir name : str) :
  contains "/" name = false -> basename (path_join dir name) = name.
Proof.
  intros Hn. pose proof (no_slash_relative name Hn) as Hr.
  assert (Hx : existsb (Ascii.eqb "/") (rev name) = false).
  { rewrite existsb_rev, <- contains_single. exact Hn. }
  unfold path_join. rewrite Hr. unfold basename.
  destruct dir as [|d dir].
  - cbn [app]. rewrite (split_once_absent _ _ Hx). cbn [fst].
    apply rev_involutive.
  - destruct (endswith "/" (d :: dir)) eqn:E.
    + unfold endswith in E.
      change (rev (list_ascii_of_string "/")) with ["/"%char] in E.
      rewrite rev_app_distr.
      destruct (rev (d :: dir)) as [|c r]; [discriminate|].
      cbn [startswith] in E. apply andb_true_iff in E as [E _].
      apply Ascii.eqb_eq in E. subst c.
      rewrite (split_once_first _ _ _ Hx). cbn [fst]. apply rev_involutive.
    + change (list_ascii_of_string "/" ++ name) with ("/"%char :: name).
      rewrite rev_app_distr. cbn [rev]. rewrite <- app_assoc. cbn [app].
      rewrite (split_once_first _ _ _ Hx). cbn [fst]. apply rev_involutive.
Qed.

Lemma contains_single_app (c : ascii) (a b : str) :
  contains [c] (a ++ b) = contains [c] a || contains [c] b.
Proof. rewrite !contains_single. apply existsb_app. Qed.

Lemma digits_no_slash (d : str) :
  Forall (fun c => isdigit c = true) d -> contains "/" d = false.
Proof.
  intros H. change (contains "/" d) with (contains ["/"%char] d).
  rewrite contains_single. induction H as [|c d Hc _ IH]; [reflexivity|].
  cbn [existsb]. rewrite IH, orb_false_r.
  apply Ascii.eqb_neq. intros <-. discriminate.
Qed.

Lemma alnum_or_underscore_no_slash (s : str) :
  contains "/" (map (fun c => if isalnum c then c else "_"%char) s) = false.
Proof.
  change (contains "/" ?x) with (contains ["/"%char] x).
  rewrite contains_single. induction s as [|c s IH]; [reflexivity|].
  cbn [map existsb]. rewrite IH, orb_false_r.
  destruct (isalnum c) eqn:E.
  - apply Ascii.eqb_neq. intros <-. discriminate.
  - reflexivity.
Qed.

Lemma split_entry_name_no_slash input_path i :
  contains "/" (split_entry_name input_path i) = false.
Proof.
  unfold split_entry_name.
  change (contains "/" ?x) with (contains ["/"%char] x).
  rewrite !contains_single_app.
  change (contains ["/"%char] ?x) with (contains "/" x).
  rewrite (digits_no_slash _ (str_of_N_digits i)).
  rewrite alnum_or_underscore_no_slash. reflexivity.
Qed.

Lemma split_name_entry input_path output_dir i :
  split_name input_path output_dir i
  = path_join output_dir (split_entry_name input_path i).
Proof. reflexivity. Qed.

Lemma split_entry_name_inj input_path i j :
  split_entry_name input_path i = split_entry_name input_path j -> i = j.
Proof.
  unfold split_entry_name. intros E. apply app_inv_head in E.
  apply digits_prefix_inj in E; try apply str_of_N_digits;
    try reflexivity.
  now apply str_of_N_inj.
Qed.

Lemma split_name_inj input_path output_dir i j :
  split_name input_path output_dir i = split_name input_path output_dir j ->
  i = j.
Proof.
  rewrite !split_name_entry. intros E.
  apply path_join_inj in E;
    try (apply no_slash_relative, split_entry_name_no_slash).
  now apply split_entry_name_inj in E.
Qed.

(** ** Splitting: what the output files are *)

(** A segment that is accepted selects pages of the document, and at least
    one. *)
Lemma part_range_bounds (num_pages : Z) (part : str) first stop :
  Server.part_range num_pages part = inr (first, stop) ->
  (0 <= first < stop)%Z /\ (stop <= num_pages)%Z.
Proof.
  unfold Server.part_range. destruct (contains "-" part).
  - destruct (split_once "-" part) as [start_str end_str].
    destruct (match start_str with [] => Some 1%Z | _ => py_int start_str end)
      as [start|]; [|discriminate].
    destruct (match end_str with [] => Some num_pages | _ => py_int end_str
              end) as [end_|]; [|discriminate].
    destruct ((1 <=? start) && (start <=? end_) && (end_ <=? num_pages))%Z
      eqn:E; [|discriminate].
    intros [= <- <-].
    apply andb_true_iff in E as [E E3]. apply andb_true_iff in E as [E1 E2].
    apply Z.leb_le in E1, E2, E3. lia.
  - destruct (py_int part) as [n|]; [|discriminate].
    destruct ((1 <=? n) && (n <=? num_pages))%Z eqn:E; [|discriminate].
    intros [= <- <-].
    apply andb_true_iff in E as [E1 E2]. apply Z.leb_le in E1, E2. lia.
Qed.

Lemma length_slice {A} (l : list A) (a b : Z) :
  (0 <= a <= b)%Z -> (b <= Z.of_nat (length l))%Z ->
  length (Server.slice l a b) = Z.to_nat (b - a).
Proof.
  intros H1 H2. unfold Server.slice.
  rewrite length_firstn, length_skipn. lia.
Qed.

Lemma split_names_indices input_path output_dir pages segs :
  forall i,
    split_names input_path output_dir pages segs i
    = map (split_name input_path output_dir)
          (file_indices i
             (length (split_names input_path output_dir pages segs i))).
Proof.
  induction segs as [|seg segs IH]; intros i; cbn [split_names];
    [reflexivity|].
  destruct (Server.part_range (Z.of_nat (length pages)) seg) as [|[a b]];
    [apply IH|].
  cbn [length]. unfold file_indices. cbn [seq map].
  rewrite N.add_0_r. f_equal.
  rewrite (IH (i + 1)%N) at 1. unfold file_indices.
  rewrite <- seq_shift, !map_map.
  apply map_ext. intros j. f_equal. lia.
Qed.

Lemma NoDup_map_inj {A B} (f : A -> B) (l : list A) :
  (forall x y, f x = f y -> x = y) -> NoDup l -> NoDup (map f l).
Proof.
  intros Hf Hl. induction Hl as [|a l Ha _ IH]; cbn [map]; constructor;
    [|exact IH].
  intros Hin. apply in_map_iff in Hin as (y & Hy & Hin).
  apply Hf in Hy. now subst.
Qed.

Lemma file_indices_NoDup first count : NoDup (file_indices first count).
Proof.
  unfold file_indices. apply NoDup_map_inj; [|apply seq_NoDup].
  intros x y H. lia.
Qed.

Lemma split_names_NoDup input_path output_dir pages segs i :
  NoDup (split_names input_path output_dir pages segs i).
Proof.
  rewrite split_names_indices.
  apply NoDup_map_inj; [|apply file_indices_NoDup].
  intros x y. apply split_name_inj.
Qed.

(** The disk after the loop of [split_pdf]: the output files have been
    written, one after the other. *)
Lemma split_parts_disk env input_path output_dir pages :
  forall parts file_index output_files (w : world Server.server_locals),
    let segs := filter (fun part => negb (is_empty part)) (map strip parts) in
    let names := split_names input_path output_dir pages segs file_index in
    let datas :=
      split_writes
        (split_events env input_path output_dir pages segs file_index) in
    Server.split_parts env input_path output_dir pages parts file_index
                       output_files w
    = (inr (output_files ++ names),
       World (inbound w)
         (trace w
          ++ split_events env input_path output_dir pages segs file_index)
         (write_all (combine names datas) (files w)) (locals w)).
Proof.
  induction parts as [|part parts IH]; intros file_index output_files w;
    cbn zeta.
  - cbn. rewrite !app_nil_r. now destruct w.
  - cbn [Server.split_parts map filter].
    destruct (is_empty (strip part)) eqn:E; cbn [negb].
    + apply IH.
    + cbn [split_names split_events].
      destruct (Server.part_range (Z.of_nat (length pages)) (strip part))
        as [err|[first stop]].
      * unfold bind at 1. cbn [emit].
        rewrite IH. cbv zeta. cbn [inbound trace locals files].
        unfold split_writes at 2. cbn [flat_map app]. fold split_writes.
        fold (split_writes
                (split_events env input_path output_dir pages
                   (filter (fun part0 => negb (is_empty part0))
                      (map strip parts)) file_index)).
        now rewrite <- app_assoc.
      * unfold bind at 1. cbn [write_file].
        rewrite IH. cbv zeta. cbn [inbound trace locals files].
        unfold split_writes at 2. cbn [flat_map app].
        fold (split_writes
                (split_events env input_path output_dir pages
                   (filter (fun part0 => negb (is_empty part0))
                      (map strip parts)) (file_index + 1))).
        cbn [combine write_all fold_left fst snd].
        now rewrite <- !app_assoc.
Qed.

Lemma write_all_other (pairs : list (str * bytes)) (disk : fs) (p : str) :
  ~ In p (map fst pairs) -> write_all pairs disk p = disk p.
Proof.
  revert disk. induction pairs as [|[n d] pairs IH]; intros disk Hp;
    [reflexivity|].
  cbn [write_all fold_left fst snd].
  change (fold_left _ pairs ?f p) with (write_all pairs f p).
  rewrite IH by (intros H; apply Hp; now right).
  unfold fs_write. destruct (bytes_eqb p n) eqn:E; [|reflexivity].
  apply bytes_eqb_eq in E. subst. exfalso. apply Hp. now left.
Qed.

Lemma write_all_lookup (pairs : list (str * bytes)) (disk : fs) n d :
  NoDup (map fst pairs) -> In (n, d) pairs ->
  write_all pairs disk n = Some d.
Proof.
  revert disk. induction pairs as [|[n0 d0] pairs IH]; intros disk Hnd Hin;
    [destruct Hin|].
  cbn [map fst] in Hnd. inversion Hnd as [|? ? Hn0 Hnd']; subst.
  cbn [write_all fold_left fst snd].
  change (fold_left _ pairs ?f n) with (write_all pairs f n).
  destruct Hin as [[= -> ->]|Hin].
  - rewrite write_all_other by assumption.
    unfold fs_write. now rewrite bytes_eqb_refl.
  - now apply IH.
Qed.

Lemma zip_files_combine (disk : fs) :
  forall names datas,
    length names = length datas ->
    (forall n d, In (n, d) (combine names datas) -> disk n = Some d) ->
    Server.zip_files disk names = combine (map basename names) datas.
Proof.
  induction names as [|n names IH]; intros [|d datas] Hlen Hdisk;
    try discriminate; [reflexivity|].
  cbn [Server.zip_files map combine].
  rewrite (Hdisk n d) by now left.
  f_equal. apply IH; [now injection Hlen|].
  intros n' d' Hin. apply Hdisk. now right.
Qed.

Lemma map_fst_combine_eq {A B} (l1 : list A) (l2 : list B) :
  length l1 = length l2 -> map fst (combine l1 l2) = l1.
Proof.
  revert l2. induction l1 as [|a l1 IH]; intros [|b l2] H;
    try discriminate; [reflexivity|].
  cbn [combine map fst]. f_equal. apply IH. now injection H.
Qed.

Lemma in_combine_map_r {A B C} (f : B -> C) (l1 : list A) (l2 : list B) a b :
  In (a, b) (combine l1 l2) -> In (a, f b) (combine l1 (map f l2)).
Proof.
  revert l2. induction l1 as [|x l1 IH]; intros [|y l2] H;
    cbn [combine map] in *; try contradiction.
  destruct H as [H|H].
  - injection H as -> ->. now left.
  - right. now apply IH.
Qed.

(** [split_pdf] on a readable file with pages, with the disk it leaves. *)
Lemma split_pdf_run env input_path output_dir ranges_str
    (w : world Server.server_locals) data pages :
  files w input_path = Some data ->
  Server.PdfReader env data = inr pages ->
  pages <> [] ->
  let groups := split_groups pages ranges_str in
  let names :=
    split_names input_path output_dir pages (segments ranges_str) 1 in
  let events :=
    split_events env input_path output_dir pages (segments ranges_str) 1 in
  Server.split_pdf env input_path output_dir ranges_str w
  = (if is_empty groups
     then inl (ValueError
                 "No valid output files created. Check input ranges and PDF.")
     else inr names,
     World (inbound w)
       (trace w ++ Engine "PdfReader" input_path :: events)
       (write_all (combine names (map (Server.PdfWriter_write env) groups))
                  (files w))
       (locals w)).
Proof.
  intros Hfile Hread Hpages groups names events.
  unfold Server.split_pdf, Server.read_pdf.
  unfold bind at 1. unfold bind at 1. unfold bind at 1.
  cbn [emit]. unfold read_file. cbn [files]. rewrite Hfile.
  unfold bind at 1. rewrite Hread. cbn [ret].
  destruct pages as [|p pages]; [congruence|].
  cbn [length Nat.eqb raise_if ret].
  unfold bind at 1. rewrite split_parts_disk. cbv zeta.
  fold (segments ranges_str).
  rewrite (split_events_writes env input_path output_dir (p :: pages)
             (segments ranges_str) 1).
  fold (split_groups (p :: pages) ranges_str). fold groups.
  fold names. fold events.
  cbn [app inbound trace files locals].
  assert (Hlen : length names = length groups)
    by apply split_names_groups.
  unfold bind, raise_if.
  destruct names as [|n names'], groups as [|g groups'];
    try discriminate Hlen; cbn [is_empty raise ret];
    rewrite <- app_assoc; reflexivity.
Qed.

(** The output files of a split.  Whenever [split_pdf] returns, the paths
    it returns are pairwise distinct files directly inside the output
    directory, named [split_1_...], [split_2_...] in the order of the
    valid segments; each of them holds on disk the pages of its segment,
    at least one page and only pages of the document. *)
Theorem split_outputs_are_distinct_files :
  forall env input_path output_dir ranges_str
         (w w' : world Server.server_locals) output_files,
    Server.split_pdf env input_path output_dir ranges_str w
    = (inr output_files, w') ->
    exists data pages,
      files w input_path = Some data
      /\ Server.PdfReader env data = inr pages
      /\ let groups := split_groups pages ranges_str in
         output_files
         = map (fun i => path_join output_dir
                           (split_entry_name input_path i))
               (file_indices 1 (length groups))
         /\ groups <> []
         /\ NoDup output_files
         /\ Forall (directly_inside output_dir) output_files
         /\ Forall (fun group => 1 <= length group <= length pages) groups
         /\ forall name group,
              In (name, group) (combine output_files groups) ->
              files w' name = Some (Server.PdfWriter_write env group).
Proof.
  intros env input_path output_dir ranges_str w w' output_files Hrun.
  destruct (files w input_path) as [data|] eqn:Hfile.
  2:{ unfold Server.split_pdf, Server.read_pdf in Hrun.
      unfold bind at 1 in Hrun. unfold bind at 1 in Hrun.
      unfold bind at 1 in Hrun. cbn [emit] in Hrun.
      unfold read_file in Hrun. cbn [files] in Hrun.
      rewrite Hfile in Hrun. discriminate. }
  destruct (Server.PdfReader env data) as [e|pages] eqn:Hread.
  { unfold Server.split_pdf, Server.read_pdf in Hrun.
    unfold bind at 1 in Hrun. unfold bind at 1 in Hrun.
    unfold bind at 1 in Hrun. cbn [emit] in Hrun.
    unfold read_file in Hrun. cbn [files] in Hrun.
    rewrite Hfile in Hrun. unfold bind at 1 in Hrun.
    rewrite Hread in Hrun. discriminate. }
  destruct pages as [|p pages].
  { unfold Server.split_pdf, Server.read_pdf in Hrun.
    unfold bind at 1 in Hrun. unfold bind at 1 in Hrun.
    unfold bind at 1 in Hrun. cbn [emit] in Hrun.
    unfold read_file in Hrun. cbn [files] in Hrun.
    rewrite Hfile in Hrun. unfold bind at 1 in Hrun.
    rewrite Hread in Hrun. discriminate. }
  exists data, (p :: pages). split; [reflexivity|]. split; [exact Hread|].
  intros groups.
  rewrite (split_pdf_run env input_path output_dir ranges_str w data
             (p :: pages) Hfile Hread ltac:(discriminate)) in Hrun.
  cbv zeta in Hrun. fold groups in Hrun.
  set (names := split_names input_path output_dir (p :: pages)
                  (segments ranges_str) 1) in *.
  assert (Hlen : length names = length groups)
    by apply split_names_groups.
  destruct (is_empty groups) eqn:Hempty; [discriminate|].
  injection Hrun as <- <-.
  assert (Hnd : NoDup names) by apply split_names_NoDup.
  assert (Hnames : names
                   = map (fun i => path_join output_dir
                                     (split_entry_name input_path i))
                         (file_indices 1 (length groups))).
  { unfold names. rewrite split_names_indices. fold names.
    rewrite Hlen. reflexivity. }
  split; [exact Hnames|]. split; [intros E; now rewrite E in Hempty|].
  split; [exact Hnd|]. split; [|split].
  - rewrite Hnames. apply Forall_forall. intros x Hx.
    apply in_map_iff in Hx as (i & <- & _).
    exists (split_entry_name input_path i).
    split; [reflexivity|]. split; [apply split_entry_name_no_slash|].
    unfold split_entry_name. repeat split; discriminate.
  - unfold groups, split_groups. apply Forall_forall. intros g Hg.
    apply in_flat_map in Hg as (seg & _ & Hg). unfold segment_pages in Hg.
    destruct (Server.part_range (Z.of_nat (length (p :: pages))) seg)
      as [|[first stop]] eqn:Hr; [destruct Hg|].
    destruct Hg as [<-|[]].
    destruct (part_range_bounds _ _ _ _ Hr) as [H1 H2].
    rewrite length_slice by lia. lia.
  - intros name group Hin. cbn [files].
    apply write_all_lookup.
    + rewrite map_fst_combine_eq; [exact Hnd|].
      rewrite length_map. exact Hlen.
    + apply in_combine_map_r. exact Hin.
Qed.

Lemma split_outputs_are_distinct_files_witness :
  let w := Server.server_start []
             (fs_write empty_disk "/tmp/in.pdf" "abcde") in
  let run := Server.split_pdf (example_server []) "/tmp/in.pdf" "/tmp/out"
               "2-3,9,x,1" w in
  run = (inr [("/tmp/out/split_1_in_pdf.pdf" : str);
              ("/tmp/out/split_2_in_pdf.pdf" : str)], snd run)
  /\ exists data pages,
       files w "/tmp/in.pdf" = Some data
       /\ Server.PdfReader (example_server []) data = inr pages
       /\ NoDup [("/tmp/out/split_1_in_pdf.pdf" : str);
                 ("/tmp/out/split_2_in_pdf.pdf" : str)]
       /\ Forall (fun group : list Server.page =>
                    1 <= length group <= length pages)
                 (split_groups pages "2-3,9,x,1").
Proof.
  intros w run.
  assert (Hrun : run = (inr [("/tmp/out/split_1_in_pdf.pdf" : str);
                             ("/tmp/out/split_2_in_pdf.pdf" : str)],
                        snd run)) by (vm_compute; reflexivity).
  split; [exact Hrun|].
  destruct (split_outputs_are_distinct_files
              (example_server []) "/tmp/in.pdf" "/tmp/out" "2-3,9,x,1"
              w (snd run) _ Hrun)
    as (data & pages & H1 & H2 & _ & _ & H3 & _ & H4 & _).
  exists data, pages. auto.
Defined.

(** The answer to a split request.  When the input is a readable PDF and
    at least one segment of the ranges is valid, the "Execute Action" step
    writes to the output path the archive whose entries are, in the order
    of the valid segments, [split_1_<name>.pdf], [split_2_<name>.pdf], ...
    with the pages of each segment: no segment's file is lost or
    overwritten on the way. *)
Theorem split_answer_is_the_archive :
  forall env ws opts (w : world Server.server_locals) data pages d,
    files w (Server.input_path ws) = Some data ->
    Server.PdfReader env data = inr pages ->
    Server.temp_dir_for_action ws = Some d ->
    split_groups pages (Server.ranges opts) <> [] ->
    exists w',
      Server.execute_action env "split" ws opts w = (inr tt, w')
      /\ files w' (Server.output_path ws)
         = Some (Server.zip_encode env
                   (split_archive env (Server.input_path ws) pages
                      (Server.ranges opts)))
      /\ NoDup (map fst (split_archive env (Server.input_path ws) pages
                           (Server.ranges opts)))
      /\ inbound w' = inbound w /\ locals w' = locals w.
Proof.
  intros env ws opts w data pages d Hfile Hread Hdir Hgroups.
  assert (Hpages : pages <> []).
  { intros ->. apply Hgroups. apply split_groups_no_pages. }
  unfold Server.execute_action.
  change (bytes_eqb "split" "convert") with false.
  change (bytes_eqb "split" "encrypt") with false.
  change (bytes_eqb "split" "decrypt") with false.
  change (bytes_eqb "split" "pdf_to_jpg") with false.
  change (bytes_eqb "split" "pdf_to_word") with false.
  change (bytes_eqb "split" "pdf_to_pptx") with false.
  change (bytes_eqb "split" "compress") with false.
  change (bytes_eqb "split" "split") with true.
  cbv iota. rewrite Hdir. unfold bind.
  rewrite (split_pdf_run env (Server.input_path ws) d (Server.ranges opts)
             w data pages Hfile Hread Hpages).
  cbv zeta.
  set (groups := split_groups pages (Server.ranges opts)) in *.
  set (names := split_names (Server.input_path ws) d pages
                  (segments (Server.ranges opts)) 1).
  assert (Hlen : length names = length groups)
    by apply split_names_groups.
  assert (Hnd : NoDup names) by apply split_names_NoDup.
  assert (Hnames : names
                   = map (split_name (Server.input_path ws) d)
                         (file_indices 1 (length groups))).
  { unfold names. rewrite split_names_indices. fold names.
    now rewrite Hlen. }
  destruct (is_empty groups) eqn:Hempty;
    [destruct groups; [congruence|discriminate]|].
  unfold write_file. cbn [inbound trace files locals].
  eexists. split; [reflexivity|]. cbn [inbound files locals].
  split; [|split; [|split; reflexivity]].
  - unfold fs_write at 1. rewrite bytes_eqb_refl. f_equal. f_equal.
    rewrite zip_files_combine
      with (datas := map (Server.PdfWriter_write env) groups).
    + unfold split_archive. fold groups. f_equal.
      rewrite Hnames, map_map. apply map_ext. intros i.
      rewrite split_name_entry.
      apply basename_path_join, split_entry_name_no_slash.
    + now rewrite length_map.
    + intros n dta Hin. apply write_all_lookup; [|exact Hin].
      rewrite map_fst_combine_eq; [exact Hnd|].
      now rewrite length_map.
  - unfold split_archive. fold groups.
    rewrite map_fst_combine_eq by (now rewrite !length_map;
                                   unfold file_indices;
                                   rewrite length_map, length_seq).
    apply NoDup_map_inj; [|apply file_indices_NoDup].
    intros x y. apply split_entry_name_inj.
Qed.

Lemma split_answer_is_the_archive_witness :
  let env := example_server [] in
  let ws := Server.setup_paths "/tmp" 4242 "split" "in.pdf" in
  let opts := Server.Options [] "2-3,9,x,1" [] [] [] in
  let w := Server.server_start []
             (fs_write empty_disk "/tmp/in_4242.pdf" "abcde") in
  files w (Server.input_path ws) = Some ("abcde" : bytes)
  /\ Server.PdfReader env "abcde"
     = inr [("a" : bytes); ("b" : bytes); ("c" : bytes); ("d" : bytes);
            ("e" : bytes)]
  /\ Server.temp_dir_for_action ws = Some ("/tmp/in_split_output_4242" : str)
  /\ split_groups [("a" : bytes); ("b" : bytes); ("c" : bytes);
                   ("d" : bytes); ("e" : bytes)] (Server.ranges opts) <> []
  /\ exists w',
       Server.execute_action env "split" ws opts w = (inr tt, w')
       /\ files w' (Server.output_path ws)
          = Some ("split_1_in_4242_pdf.pdf:bc;split_2_in_4242_pdf.pdf:a;"
                  : bytes).
Proof.
  intros env ws opts w.
  assert (H1 : files w (Server.input_path ws) = Some ("abcde" : bytes))
    by reflexivity.
  assert (H2 : Server.PdfReader env "abcde"
               = inr [("a" : bytes); ("b" : bytes); ("c" : bytes);
                      ("d" : bytes); ("e" : bytes)]) by reflexivity.
  assert (H3 : Server.temp_dir_for_action ws
               = Some ("/tmp/in_split_output_4242" : str)) by reflexivity.
  assert (H4 : split_groups [("a" : bytes); ("b" : bytes); ("c" : bytes);
                             ("d" : bytes); ("e" : bytes)]
                 (Server.ranges opts) <> [])
    by (vm_compute; discriminate).
  split; [exact H1|]. split; [exact H2|]. split; [exact H3|].
  split; [exact H4|].
  destruct (split_answer_is_the_archive env ws opts w _ _ _ H1 H2 H3 H4)
    as (w' & Hrun & Hout & _).
  exists w'. split; [exact Hrun|]. rewrite Hout. vm_compute. reflexivity.
Defined.

(** ** Rotation: which pages are turned *)

Lemma existsb_py_range (a b i : Z) :
  existsb (Z.eqb i) (Server.py_range a b) = ((a <=? i) && (i <? b))%Z.
Proof.
  unfold Server.py_range.
  destruct ((a <=? i) && (i <? b))%Z eqn:E.
  - apply andb_true_iff in E as [E1 E2].
    apply Z.leb_le in E1. apply Z.ltb_lt in E2.
    apply existsb_exists. exists i. split; [|apply Z.eqb_refl].
    apply in_map_iff. exists (Z.to_nat (i - a)). split; [lia|].
    apply in_seq. lia.
  - destruct (existsb (Z.eqb i) _) eqn:X; [|reflexivity].
    apply existsb_exists in X as (x & Hx & Hi).
    apply Z.eqb_eq in Hi. subst x.
    apply in_map_iff in Hx as (j & Hj & Hin). apply in_seq in Hin.
    apply andb_false_iff in E as [E|E];
      [apply Z.leb_gt in E|apply Z.ltb_ge in E]; lia.
Qed.

(** The loop over the parts of a page specification: the first invalid
    segment aborts it; without one, the indices of all segments are
    collected. *)
Lemma rotate_parts_spec (num_pages : Z) :
  forall parts rotate_indices,
    let segs := filter (fun part => negb (is_empty part)) (map strip parts) in
    Server.rotate_parts num_pages parts rotate_indices
    = match first_invalid num_pages segs with
      | Some (seg, err) =>
          inl (ValueError ("Invalid page specification '" ++ seg ++ "': "
                           ++ exn_str err))
      | None =>
          inr (rotate_indices
               ++ flat_map (fun seg =>
                              match Server.part_range num_pages seg with
                              | inr (first, stop) => Server.py_range first stop
                              | inl _ => []
                              end) segs)
      end.
Proof.
  induction parts as [|part parts IH]; intros acc; cbn zeta.
  - cbn. now rewrite app_nil_r.
  - cbn [Server.rotate_parts map filter].
    destruct (is_empty (strip part)) eqn:E; cbn [negb]; [apply IH|].
    cbn [first_invalid flat_map].
    destruct (Server.part_range num_pages (strip part)) as [err|[a b]];
      [reflexivity|].
    rewrite IH. cbv zeta.
    destruct (first_invalid num_pages _) as [[seg err]|]; [reflexivity|].
    now rewrite app_assoc.
Qed.

Lemma rotate_selected_length env angle idx :
  forall pages i,
    length (Server.rotate_selected env angle idx i pages) = length pages.
Proof.
  induction pages as [|p pages IH]; intros i; cbn [Server.rotate_selected];
    [reflexivity|].
  cbn [length]. now rewrite IH.
Qed.

Lemma rotate_selected_nth env angle idx :
  forall pages i k p,
    nth_error pages k = Some p ->
    nth_error (Server.rotate_selected env angle idx i pages) k
    = Some (if existsb (Z.eqb (i + Z.of_nat k)) idx
            then Server.page_rotate env angle p else p).
Proof.
  induction pages as [|q pages IH]; intros i k p Hk;
    [destruct k; discriminate|].
  cbn [Server.rotate_selected]. destruct k as [|k].
  - injection Hk as ->. cbn [nth_error Z.of_nat]. now rewrite Z.add_0_r.
  - cbn [nth_error] in *. rewrite (IH (i + 1)%Z k p Hk).
    replace (i + 1 + Z.of_nat k)%Z with (i + Z.of_nat (S k))%Z by lia.
    reflexivity.
Qed.

Lemma existsb_pointwise {A} (f g : A -> bool) (l : list A) :
  (forall a, f a = g a) -> existsb f l = existsb g l.
Proof.
  intros H. induction l as [|a l IH]; [reflexivity|].
  cbn [existsb]. now rewrite H, IH.
Qed.

Lemma existsb_flat_map {A B} (f : B -> bool) (g : A -> list B) (l : list A) :
  existsb f (flat_map g l) = existsb (fun a => existsb f (g a)) l.
Proof.
  induction l as [|a l IH]; [reflexivity|].
  cbn [flat_map existsb]. now rewrite existsb_app, IH.
Qed.

(** [rotate_pdf] on a readable file with pages and an angle that is a
    multiple of 90. *)
Lemma rotate_pdf_run env input_path output_path pages_str angle
    (w : world Server.server_locals) a data pages :
  py_int angle = Some a -> (a mod 90 = 0)%Z ->
  files w input_path = Some data ->
  Server.PdfReader env data = inr pages -> pages <> [] ->
  let num_pages := Z.of_nat (length pages) in
  let spec := lower (strip pages_str) in
  Server.rotate_pdf env input_path output_path pages_str angle w
  = match (if bytes_eqb spec "all" then None
           else first_invalid num_pages (segments spec)) with
    | Some (seg, err) =>
        (inl (ValueError ("Invalid page specification '" ++ seg ++ "': "
                          ++ exn_str err)),
         World (inbound w) (trace w ++ [Engine "PdfReader" input_path])
               (files w) (locals w))
    | None =>
        let out :=
          Server.PdfWriter_write env
            (map (fun '(i, p) =>
                    if selected num_pages pages_str (Z.of_nat i)
                    then Server.page_rotate env a p else p)
                 (combine (seq 0 (length pages)) pages)) in
        (inr tt,
         World (inbound w)
           (trace w ++ [Engine "PdfReader" input_path;
                        FileWrite OutputFile output_path out])
           (fs_write (files w) output_path out) (locals w))
    end.
Proof.
  intros Hangle Hmod Hfile Hread Hpages num_pages spec.
  assert (Hsel : forall idx,
             (forall i, existsb (Z.eqb i) idx
                        = selected num_pages pages_str i) ->
             Server.rotate_selected env a idx 0 pages
             = map (fun '(i, p) =>
                      if selected num_pages pages_str (Z.of_nat i)
                      then Server.page_rotate env a p else p)
                   (combine (seq 0 (length pages)) pages)).
  { intros idx Hidx.
    assert (G : forall ps k,
               Server.rotate_selected env a idx (Z.of_nat k) ps
               = map (fun '(i, p) =>
                        if selected num_pages pages_str (Z.of_nat i)
                        then Server.page_rotate env a p else p)
                     (combine (seq k (length ps)) ps)).
    { induction ps as [|p ps IH]; intros k; [reflexivity|].
      cbn [Server.rotate_selected length seq combine map].
      rewrite Hidx. f_equal.
      replace (Z.of_nat k + 1)%Z with (Z.of_nat (S k)) by lia. apply IH. }
    apply (G pages 0). }
  unfold Server.rotate_pdf. rewrite Hangle.
  assert (Hm : (a mod 90 =? 0)%Z = true) by now apply Z.eqb_eq.
  rewrite Hm. cbn [negb raise_if].
  unfold bind at 1. cbn [ret]. unfold Server.read_pdf.
  unfold bind at 1. unfold bind at 1. unfold bind at 1. cbn [emit].
  unfold read_file. cbn [files]. rewrite Hfile.
  unfold bind at 1. rewrite Hread. cbn [ret].
  fold num_pages. fold spec.
  assert (Hn : (num_pages =? 0)%Z = false).
  { apply Z.eqb_neq. unfold num_pages. destruct pages; [congruence|].
    cbn [length]. lia. }
  rewrite Hn. cbn [raise_if ret].
  destruct (bytes_eqb spec "all") eqn:Hall.
  - rewrite (Hsel (Server.py_range 0 num_pages)).
    + unfold write_file. cbn [inbound trace files locals].
      now rewrite <- app_assoc.
    + intros i. rewrite existsb_py_range. unfold selected. fold spec.
      now rewrite Hall.
  - destruct (is_empty spec) eqn:Hspec; cbn [negb].
    + assert (Es : spec = []) by (destruct spec; [reflexivity|discriminate]).
      rewrite Es.
      change (first_invalid num_pages (segments []))
        with (@None (str * exn)).
      rewrite (Hsel []).
      * unfold write_file. cbn [inbound trace files locals].
        now rewrite <- app_assoc.
      * intros i. unfold selected. fold spec. rewrite Hall, Es.
        reflexivity.
    + rewrite rotate_parts_spec. cbv zeta. fold (segments spec).
      destruct (first_invalid num_pages (segments spec)) as [[seg err]|];
        [reflexivity|].
      rewrite (Hsel _).
      * unfold write_file. cbn [inbound trace files locals].
        now rewrite <- app_assoc.
      * intros i. cbn [app]. unfold selected. fold spec. rewrite Hall.
        rewrite existsb_flat_map. apply existsb_pointwise. intros seg.
        unfold segment_covers.
        destruct (Server.part_range num_pages seg) as [|[f s]];
          [reflexivity|apply existsb_py_range].
Qed.

Lemma nth_error_map_indexed {A B} (f : nat * A -> B) (l : list A) :
  forall start k a,
    nth_error l k = Some a ->
    nth_error (map f (combine (seq start (length l)) l)) k
    = Some (f (start + k, a)).
Proof.
  induction l as [|x l IH]; intros start k a Hk; [destruct k; discriminate|].
  cbn [length seq combine map]. destruct k as [|k].
  - injection Hk as ->. cbn [nth_error]. now rewrite Nat.add_0_r.
  - cbn [nth_error] in *. rewrite (IH (S start) k a Hk).
    do 3 f_equal. lia.
Qed.

Lemma map_indexed_all {A B} (g : A -> B) (f : nat * A -> B) (l : list A) :
  forall start,
    (forall i a, start <= i < start + length l -> f (i, a) = g a) ->
    map f (combine (seq start (length l)) l) = map g l.
Proof.
  induction l as [|x l IH]; intros start H; [reflexivity|].
  cbn [length seq combine map] in *. rewrite H by lia. f_equal.
  apply IH. intros i a Hi. apply H. lia.
Qed.


(** What a rotation writes.  Whenever [rotate_pdf] returns, the angle was
    an integer multiple of 90 and the output file holds as many pages as
    the input, in the same order: a page that the specification selects is
    rotated by the angle, once, however often it is named, and every other
    page is unchanged.  With [all], in any letter case and with spaces
    around, every page is rotated once. *)
Theorem rotate_turns_selected_pages_once :
  forall env input_path output_path pages_str angle
         (w w' : world Server.server_locals),
    Server.rotate_pdf env input_path output_path pages_str angle w
    = (inr tt, w') ->
    exists a data pages out_pages,
      py_int angle = Some a /\ (a mod 90 = 0)%Z
      /\ files w input_path = Some data
      /\ Server.PdfReader env data = inr pages
      /\ files w' output_path = Some (Server.PdfWriter_write env out_pages)
      /\ length out_pages = length pages
      /\ (forall k p,
            nth_error pages k = Some p ->
            nth_error out_pages k
            = Some (if selected (Z.of_nat (length pages)) pages_str
                         (Z.of_nat k)
                    then Server.page_rotate env a p else p))
      /\ (bytes_eqb (lower (strip pages_str)) "all" = true ->
          out_pages = map (Server.page_rotate env a) pages).
Proof.
  intros env input_path output_path pages_str angle w w' Hrun.
  destruct (py_int angle) as [a|] eqn:Hangle.
  2:{ unfold Server.rotate_pdf in Hrun. rewrite Hangle in Hrun.
      discriminate. }
  destruct (a mod 90 =? 0)%Z eqn:Hm.
  2:{ unfold Server.rotate_pdf in Hrun. rewrite Hangle, Hm in Hrun.
      discriminate. }
  apply Z.eqb_eq in Hm.
  assert (Hhead : forall r,
             Server.rotate_pdf env input_path output_path pages_str angle w
             = (inr tt, r) ->
             exists data pages,
               files w input_path = Some data
               /\ Server.PdfReader env data = inr pages /\ pages <> []).
  { intros r Hr. unfold Server.rotate_pdf in Hr. rewrite Hangle in Hr.
    assert (Hm' : (a mod 90 =? 0)%Z = true) by now apply Z.eqb_eq.
    rewrite Hm' in Hr. cbn [negb raise_if] in Hr.
    unfold bind at 1 in Hr. cbn [ret] in Hr. unfold Server.read_pdf in Hr.
    unfold bind at 1 in Hr. unfold bind at 1 in Hr.
    unfold bind at 1 in Hr. cbn [emit] in Hr.
    unfold read_file in Hr. cbn [files] in Hr.
    destruct (files w input_path) as [data|]; [|discriminate].
    unfold bind at 1 in Hr.
    destruct (Server.PdfReader env data) as [e|pages] eqn:Hread;
      [discriminate|].
    cbn [ret] in Hr.
    destruct pages as [|p pages]; [discriminate|].
    exists data, (p :: pages). repeat split; [exact Hread|discriminate]. }
  destruct (Hhead w' Hrun) as (data & pages & Hfile & Hread & Hpages).
  rewrite (rotate_pdf_run env input_path output_path pages_str angle w
             a data pages Hangle Hm Hfile Hread Hpages) in Hrun.
  cbv zeta in Hrun.
  destruct (if bytes_eqb (lower (strip pages_str)) "all" then None
            else first_invalid (Z.of_nat (length pages))
                   (segments (lower (strip pages_str))))
    as [[seg err]|]; [discriminate|].
  injection Hrun as <-.
  eexists a, data, pages, _.
  split; [reflexivity|]. split; [exact Hm|]. split; [exact Hfile|].
  split; [exact Hread|]. split; [|split; [|split]].
  - cbn [files]. unfold fs_write. rewrite bytes_eqb_refl. reflexivity.
  - rewrite length_map, length_combine, length_seq. apply Nat.min_id.
  - intros k p Hk. rewrite (nth_error_map_indexed _ pages 0 k p Hk).
    reflexivity.
  - intros Hall. apply map_indexed_all. intros i p Hi.
    unfold selected. rewrite Hall.
    replace ((0 <=? Z.of_nat i) && (Z.of_nat i <? Z.of_nat (length pages)))%Z
      with true; [reflexivity|].
    symmetry. apply andb_true_iff. split; [apply Z.leb_le|apply Z.ltb_lt];
      lia.
Qed.

Lemma rotate_turns_selected_pages_once_witness :
  let w := Server.server_start []
             (fs_write empty_disk "/tmp/in.pdf" "abcd") in
  let run := Server.rotate_pdf (example_server []) "/tmp/in.pdf"
               "/tmp/out.pdf" " 2-3, 3 ,2" "-90" w in
  run = (inr tt, snd run)
  /\ files (snd run) "/tmp/out.pdf" = Some ("ab'c'd" : bytes)
  /\ exists a data pages out_pages,
       py_int "-90" = Some a /\ (a mod 90 = 0)%Z
       /\ files w "/tmp/in.pdf" = Some data
       /\ Server.PdfReader (example_server []) data = inr pages
       /\ files (snd run) "/tmp/out.pdf"
          = Some (Server.PdfWriter_write (example_server []) out_pages)
       /\ length out_pages = length pages.
Proof.
  intros w run.
  assert (Hrun : run = (inr tt, snd run)) by (vm_compute; reflexivity).
  split; [exact Hrun|]. split; [vm_compute; reflexivity|].
  destruct (rotate_turns_selected_pages_once
              (example_server []) "/tmp/in.pdf" "/tmp/out.pdf" " 2-3, 3 ,2"
              "-90" w (snd run) Hrun)
    as (a & data & pages & out_pages & H1 & H2 & H3 & H4 & H5 & H6 & _).
  exists a, data, pages, out_pages. auto 10.
Defined.



(** ** Merging: entries with distinct base names *)

























(** ** What a session leaves behind *)

Section Frames.
Context {L : Type}.

Lemma keeps_locals_ret {A} (a : A) : keeps_locals (@ret L A a).
Proof. intros w. reflexivity. Qed.

Lemma keeps_locals_raise {A} (e : exn) : keeps_locals (@raise L A e).
Proof. intros w. reflexivity. Qed.

Lemma keeps_locals_raise_if (c : bool) (e : exn) :
  keeps_locals (@raise_if L c e).
Proof. destruct c; intros w; reflexivity. Qed.

Lemma keeps_locals_bind {A B} (m : M L A) (f : A -> M L B) :
  keeps_locals m -> (forall a, keeps_locals (f a)) ->
  keeps_locals (bind m f).
Proof.
  intros Hm Hf w. unfold bind. specialize (Hm w).
  destruct (m w) as [[e|a] w']; cbn [snd] in *; [exact Hm|].
  now rewrite Hf.
Qed.

Lemma keeps_locals_emit (e : event) : keeps_locals (@emit L e).
Proof. intros w. reflexivity. Qed.

Lemma keeps_locals_recv st n : keeps_locals (@recv L st n).
Proof.
  intros w. unfold recv. destruct (inbound w) as [|[b| |] rest]; reflexivity.
Qed.

Lemma keeps_locals_get_locals : keeps_locals (@get_locals L).
Proof. intros w. reflexivity. Qed.

Lemma keeps_locals_isfile p : keeps_locals (@isfile L p).
Proof. intros w. reflexivity. Qed.

Lemma keeps_locals_read_file p : keeps_locals (@read_file L p).
Proof. intros w. unfold read_file. destruct (files w p); reflexivity. Qed.

Lemma keeps_locals_write_file kind p d :
  keeps_locals (@write_file L kind p d).
Proof. intros w. reflexivity. Qed.

Lemma keeps_locals_remove_file p : keeps_locals (@remove_file L p).
Proof. intros w. unfold remove_file. destruct (files w p); reflexivity. Qed.

Lemma keeps_locals_try_except {A} (m : M L A) (h : exn -> M L A) :
  keeps_locals m -> (forall e, keeps_locals (h e)) ->
  keeps_locals (try_except m h).
Proof.
  intros Hm Hh w. unfold try_except. specialize (Hm w).
  destruct (m w) as [[e|a] w']; cbn [snd] in *; [|exact Hm].
  now rewrite Hh.
Qed.

Lemma keeps_locals_try_finally {A} (m : M L A) (c : M L unit) :
  keeps_locals m -> keeps_locals c -> keeps_locals (try_finally m c).
Proof.
  intros Hm Hc w. unfold try_finally. specialize (Hm w).
  destruct (m w) as [r w']. specialize (Hc w').
  destruct (c w') as [[e|u] w'']; cbn [snd] in *; congruence.
Qed.

Lemma keeps_locals_send_chunks fuel st data :
  keeps_locals (@send_chunks L fuel st data).
Proof.
  revert data. induction fuel as [|f IH]; intros data; cbn [send_chunks].
  - destruct (take 65536 data);
      [apply keeps_locals_ret|apply keeps_locals_raise].
  - destruct (take 65536 data); [apply keeps_locals_ret|].
    apply keeps_locals_bind; [apply keeps_locals_emit|intros; apply IH].
Qed.

Lemma returns_ret {A} (a : A) : returns (@ret L A a).
Proof. intros w. now exists a. Qed.

Lemma returns_bind {A B} (m : M L A) (f : A -> M L B) :
  returns m -> (forall a, returns (f a)) -> returns (bind m f).
Proof.
  intros Hm Hf w. unfold bind. destruct (Hm w) as [a Ha].
  destruct (m w) as [[e|a'] w']; cbn [fst] in Ha; [discriminate|].
  apply Hf.
Qed.

Lemma returns_try_except {A} (m : M L A) (h : exn -> M L A) :
  (forall e, returns (h e)) -> returns (try_except m h).
Proof.
  intros Hh w. unfold try_except.
  destruct (m w) as [[e|a] w']; [apply Hh|now exists a].
Qed.

Lemma returns_remove_file p : returns (@remove_file L p).
Proof.
  intros w. unfold remove_file. destruct (files w p); now exists tt.
Qed.
End Frames.

Ltac keeps_step :=
  lazymatch goal with
  | |- keeps_locals (bind _ _) => apply keeps_locals_bind; [|intros]
  | |- keeps_locals (ret _) => apply keeps_locals_ret
  | |- keeps_locals (raise _) => apply keeps_locals_raise
  | |- keeps_locals (raise_if _ _) => apply keeps_locals_raise_if
  | |- keeps_locals (emit _) => apply keeps_locals_emit
  | |- keeps_locals (sendall _ _) => apply keeps_locals_emit
  | |- keeps_locals (recv _ _) => apply keeps_locals_recv
  | |- keeps_locals get_locals => apply keeps_locals_get_locals
  | |- keeps_locals (isfile _) => apply keeps_locals_isfile
  | |- keeps_locals (read_file _) => apply keeps_locals_read_file
  | |- keeps_locals (write_file _ _ _) => apply keeps_locals_write_file
  | |- keeps_locals (remove_file _) => apply keeps_locals_remove_file
  | |- keeps_locals (send_chunks _ _ _) => apply keeps_locals_send_chunks
  | |- keeps_locals (try_except _ _) =>
      apply keeps_locals_try_except; [|intros]
  | |- keeps_locals (try_finally _ _) => apply keeps_locals_try_finally
  | |- keeps_locals (if ?c then _ else _) => destruct c
  | |- keeps_locals (match ?x with _ => _ end) => destruct x
  | |- keeps_locals (fun w => (_, World _ _ _ (locals w))) =>
      intros ?; reflexivity
  end.

Ltac keeps_auto := repeat keeps_step.

Lemma recv_input_keeps_locals fuel path size received :
  keeps_locals (Server.recv_input fuel path size received).
Proof.
  revert received. induction fuel as [|fuel IH]; intros received;
    cbn [Server.recv_input]; destruct (received <? size)%Z;
    try apply keeps_locals_ret; try apply keeps_locals_raise.
  apply keeps_locals_bind; [apply keeps_locals_recv|intros chunk].
  apply keeps_locals_bind; [apply keeps_locals_raise_if|intros _].
  apply keeps_locals_bind; [intros w; reflexivity|intros _]. apply IH.
Qed.

Lemma recv_options_keeps_locals action :
  keeps_locals (Server.recv_options action).
Proof. unfold Server.recv_options. keeps_auto. Qed.

Lemma read_pdf_keeps_locals env path :
  keeps_locals (Server.read_pdf env path).
Proof. unfold Server.read_pdf. keeps_auto. Qed.

Lemma split_parts_keeps_locals env ip od pages parts i acc :
  keeps_locals (Server.split_parts env ip od pages parts i acc).
Proof.
  revert i acc. induction parts as [|part parts IH]; intros i acc;
    cbn [Server.split_parts]; [apply keeps_locals_ret|].
  destruct (is_empty (strip part)); [apply IH|].
  destruct (Server.part_range _ _) as [err|[a b]];
    (apply keeps_locals_bind; [keeps_auto|intros; apply IH]).
Qed.

Lemma split_pdf_keeps_locals env ip od ranges_str :
  keeps_locals (Server.split_pdf env ip od ranges_str).
Proof.
  unfold Server.split_pdf.
  apply keeps_locals_bind; [apply read_pdf_keeps_locals|intros pages].
  apply keeps_locals_bind; [apply keeps_locals_raise_if|intros _].
  apply keeps_locals_bind; [apply split_parts_keeps_locals|intros].
  keeps_auto.
Qed.

Lemma extract_members_keeps_locals all_members members dir acc :
  keeps_locals (Server.extract_members all_members members dir acc).
Proof.
  revert acc. induction members as [|m members IH]; intros acc;
    cbn [Server.extract_members]; [apply keeps_locals_ret|].
  destruct (Server.skipped m); [apply IH|].
  destruct (Server.zip_open all_members (Server.filename m));
    (apply keeps_locals_bind; [keeps_auto|intros; apply IH]).
Qed.

Lemma append_all_keeps_locals env paths pages :
  keeps_locals (Server.append_all env paths pages).
Proof.
  revert pages. induction paths as [|p paths IH]; intros pages;
    cbn [Server.append_all]; [apply keeps_locals_ret|].
  apply keeps_locals_bind; [apply keeps_locals_emit|intros _].
  intros w. destruct (files w p) as [data|].
  - destruct (Server.PdfReader env data) as [e|ps].
    + apply keeps_locals_bind; [apply keeps_locals_emit|intros; apply IH].
    + apply IH.
  - apply keeps_locals_bind; [apply keeps_locals_emit|intros; apply IH].
Qed.

Lemma merge_pdfs_keeps_locals env zip_path out_path :
  keeps_locals (Server.merge_pdfs env zip_path out_path).
Proof.
  unfold Server.merge_pdfs. apply keeps_locals_try_finally.
  - apply keeps_locals_bind; [apply keeps_locals_emit|intros _].
    apply keeps_locals_bind; [apply keeps_locals_read_file|intros archive].
    destruct (Server.ZipFile_infolist env archive) as [e|members];
      [apply keeps_locals_raise|].
    apply keeps_locals_bind;
      [apply extract_members_keeps_locals|intros paths].
    apply keeps_locals_bind; [apply keeps_locals_raise_if|intros _].
    apply keeps_locals_bind; [apply append_all_keeps_locals|intros pages].
    keeps_auto.
  - intros w. reflexivity.
Qed.

Lemma rotate_pdf_keeps_locals env ip op pages_str angle :
  keeps_locals (Server.rotate_pdf env ip op pages_str angle).
Proof.
  unfold Server.rotate_pdf.
  destruct (py_int angle); [|apply keeps_locals_raise].
  apply keeps_locals_bind; [apply keeps_locals_raise_if|intros _].
  apply keeps_locals_bind; [apply read_pdf_keeps_locals|intros pages].
  apply keeps_locals_bind; [apply keeps_locals_raise_if|intros _].
  match goal with
  | |- keeps_locals (match ?x with _ => _ end) => destruct x
  end; keeps_auto.
Qed.

Lemma run_external_keeps_locals env action ws opt :
  keeps_locals (Server.run_external env action ws opt).
Proof. unfold Server.run_external. keeps_auto. Qed.

Lemma execute_action_keeps_locals env action ws opts :
  keeps_locals (Server.execute_action env action ws opts).
Proof.
  unfold Server.execute_action, Server.handle_file_conversion,
    Server.encrypt_pdf, Server.decrypt_pdf.
  repeat lazymatch goal with
    | |- keeps_locals (if ?c then _ else _) => destruct c
    | |- keeps_locals (try_except _ _) =>
        apply keeps_locals_try_except; [|intros]
    | |- keeps_locals (match ?x with _ => _ end) => destruct x
    | |- keeps_locals (raise _) => apply keeps_locals_raise
    | |- keeps_locals (Server.run_external _ _ _ _) =>
        apply run_external_keeps_locals
    | |- keeps_locals (Server.merge_pdfs _ _ _) =>
        apply merge_pdfs_keeps_locals
    | |- keeps_locals (Server.rotate_pdf _ _ _ _ _) =>
        apply rotate_pdf_keeps_locals
    | |- keeps_locals (bind (Server.split_pdf _ _ _ _) _) =>
        apply keeps_locals_bind; [apply split_pdf_keeps_locals|intros]
    | |- keeps_locals (fun w => write_file _ _ _ w) =>
        let w := fresh "w" in intros w; reflexivity
    end.
Qed.

Lemma send_result_keeps_locals action ws :
  keeps_locals (Server.send_result action ws).
Proof. unfold Server.send_result. keeps_auto. Qed.

Lemma send_error_keeps_locals name message :
  keeps_locals (Server.send_error name message).
Proof. unfold Server.send_error. keeps_auto. Qed.

Lemma handle_error_keeps_locals e : keeps_locals (Server.handle_error e).
Proof.
  unfold Server.handle_error.
  destruct e; try apply keeps_locals_ret;
    try apply send_error_keeps_locals;
    (apply keeps_locals_bind; [apply keeps_locals_get_locals|intros l];
     destruct (negb (Server.action_success l));
     [apply send_error_keeps_locals|apply keeps_locals_ret]).
Qed.

Lemma cleanup_keeps_locals : keeps_locals Server.cleanup.
Proof. unfold Server.cleanup. keeps_auto. Qed.

Lemma send_error_returns name message :
  returns (Server.send_error name message).
Proof.
  unfold Server.send_error. apply returns_try_except.
  intros e. apply returns_ret.
Qed.

Lemma handle_error_returns e : returns (Server.handle_error e).
Proof.
  unfold Server.handle_error.
  destruct e; try apply returns_ret; try apply send_error_returns;
    (apply returns_bind; [intros w; now exists (locals w)|intros l];
     destruct (negb (Server.action_success l));
     [apply send_error_returns|apply returns_ret]).
Qed.

Lemma cleanup_returns : returns Server.cleanup.
Proof.
  unfold Server.cleanup.
  apply returns_bind; [intros w; now exists (locals w)|intros l].
  destruct (Server.paths l) as [ws|]; [|apply returns_ret].
  apply returns_bind; [apply returns_remove_file|intros _].
  apply returns_bind; [apply returns_remove_file|intros _].
  destruct (Server.temp_dir_for_action ws); [|apply returns_ret].
  intros w. now exists tt.
Qed.

Lemma hoare_keeps_locals {L A} (m : M L A) (Q : L -> Prop) :
  keeps_locals m ->
  hoare (fun w => Q (locals w)) m (fun _ w => Q (locals w))
        (fun _ w => Q (locals w)).
Proof.
  intros H w Hw. specialize (H w).
  destruct (m w) as [[e|a] w']; cbn [snd] in H; now rewrite H.
Qed.

Lemma hoare_keeps_files {L A} (m : M L A) (Q : fs -> Prop) :
  keeps_files m ->
  hoare (fun w => Q (files w)) m (fun _ w => Q (files w))
        (fun _ w => Q (files w)).
Proof.
  intros H w Hw. specialize (H w).
  destruct (m w) as [[e|a] w']; cbn [snd] in H; now rewrite H.
Qed.

Lemma keeps_files_recv {L} st n : keeps_files (@recv L st n).
Proof.
  intros w. unfold recv. destruct (inbound w) as [|[b| |] rest]; reflexivity.
Qed.

Lemma keeps_files_raise_if {L} c e : keeps_files (@raise_if L c e).
Proof. intros w. destruct c; reflexivity. Qed.

Lemma keeps_files_emit {L} e : keeps_files (@emit L e).
Proof. intros w. reflexivity. Qed.

Lemma keeps_files_set_locals {L} l : keeps_files (@set_locals L l).
Proof. intros w. reflexivity. Qed.

Lemma keeps_files_bind {L A B} (m : M L A) (f : A -> M L B) :
  keeps_files m -> (forall a, keeps_files (f a)) -> keeps_files (bind m f).
Proof.
  intros Hm Hf w. unfold bind. specialize (Hm w).
  destruct (m w) as [[e|a] w']; cbn [snd] in *; [exact Hm|].
  now rewrite Hf.
Qed.

Lemma keeps_files_try_except {L A} (m : M L A) (h : exn -> M L A) :
  keeps_files m -> (forall e, keeps_files (h e)) ->
  keeps_files (try_except m h).
Proof.
  intros Hm Hh w. unfold try_except. specialize (Hm w).
  destruct (m w) as [[e|a] w']; cbn [snd] in *; [|exact Hm].
  now rewrite Hh.
Qed.

Lemma send_error_keeps_files name message :
  keeps_files (Server.send_error name message).
Proof.
  unfold Server.send_error. apply keeps_files_try_except;
    [|intros e w; reflexivity].
  repeat (apply keeps_files_bind;
          [first [apply keeps_files_emit|apply keeps_files_recv]|intros]).
  apply keeps_files_emit.
Qed.

Lemma handle_error_keeps_files e : keeps_files (Server.handle_error e).
Proof.
  unfold Server.handle_error.
  destruct e; try (intros w; reflexivity);
    try apply send_error_keeps_files;
    (apply keeps_files_bind; [intros w; reflexivity|intros l];
     destruct (negb (Server.action_success l));
     [apply send_error_keeps_files|intros w; reflexivity]).
Qed.

(** Until the paths of the session are set, the handler has written
    nothing; once they are set, they stay. *)
Lemma serve_request_paths env (disk : fs) :
  hoare (fun w => files w = disk) (Server.serve_request env)
        (fun _ w => Server.paths (locals w) = None -> files w = disk)
        (fun _ w => Server.paths (locals w) = None -> files w = disk).
Proof.
  unfold Server.serve_request.
  repeat lazymatch goal with
    | |- hoare (fun w => files w = disk)
               (bind (set_locals (Server.ServerLocals _ (Some _) _)) _) _ _ =>
        apply hoare_bind
          with (R := fun _ w => Server.paths (locals w) <> None);
        [intros w _; cbn; discriminate|intros _]
    | |- hoare (fun w => files w = disk) (bind ?m _) _ _ =>
        apply hoare_bind with (R := fun _ w => files w = disk);
        [ eapply hoare_conseq;
          [ apply (hoare_keeps_files m (fun f => f = disk));
            first [ apply keeps_files_recv | apply keeps_files_raise_if
                  | apply keeps_files_emit | apply keeps_files_set_locals ]
          | auto | auto | cbv beta; auto ]
        | intros ? ]
    end.
  assert (Hrest : forall A (m : Server.SM A),
             keeps_locals m ->
             hoare (fun w => Server.paths (locals w) <> None) m
                   (fun _ w => Server.paths (locals w) <> None)
                   (fun _ w => Server.paths (locals w) = None ->
                               files w = disk)).
  { intros A m Hm. eapply hoare_conseq;
      [apply (hoare_keeps_locals m (fun l => Server.paths l <> None) Hm)
      |auto|auto|cbv beta; intros; contradiction]. }
  repeat lazymatch goal with
    | |- hoare _ (bind (set_locals _) _) _ _ =>
        apply hoare_bind
          with (R := fun _ w => Server.paths (locals w) <> None);
        [intros w _; cbn; discriminate|intros _]
    | |- hoare _ (bind ?m _) _ _ =>
        apply hoare_bind
          with (R := fun _ w => Server.paths (locals w) <> None);
        [ apply Hrest;
          first [ apply keeps_locals_recv | apply keeps_locals_raise_if
                | apply keeps_locals_emit | apply keeps_locals_write_file
                | apply recv_input_keeps_locals
                | apply recv_options_keeps_locals
                | apply execute_action_keeps_locals ]
        | intros ? ]
    | |- hoare _ (match ?x with _ => _ end) _ _ => destruct x
    | |- hoare _ (raise _) _ _ =>
        apply hoare_raise; intros; contradiction
    end.
  eapply hoare_conseq;
    [apply Hrest, send_result_keeps_locals|auto
    |cbv beta; intros; contradiction|auto].
Qed.

Lemma remove_file_spec {L} (p : str) (w : world L) :
  exists w1,
    remove_file p w = (inr tt, w1)
    /\ forall q, files w1 q = if bytes_eqb q p then None else files w q.
Proof.
  unfold remove_file. destruct (files w p) eqn:F.
  - eexists. split; [reflexivity|]. intros q. reflexivity.
  - exists w. split; [reflexivity|]. intros q.
    destruct (bytes_eqb q p) eqn:E; [|reflexivity].
    apply bytes_eqb_eq in E. now subst.
Qed.

(** The [finally] clause of the handler removes the files of the
    session. *)
Lemma cleanup_removes (w : world Server.server_locals) ws :
  Server.paths (locals w) = Some ws ->
  let w' := snd (Server.cleanup w) in
  files w' (Server.input_path ws) = None
  /\ files w' (Server.output_path ws) = None
  /\ (forall d p, Server.temp_dir_for_action ws = Some d ->
                  startswith (d ++ "/") p = true -> files w' p = None)
  /\ (forall p, files w p = None -> files w' p = None).
Proof.
  intros Hp.
  assert (E : exists w2,
             Server.cleanup w
             = (inr tt,
                match Server.temp_dir_for_action ws with
                | Some d =>
                    World (inbound w2) (trace w2 ++ [FileRemove d])
                          (fs_rmtree (files w2) d) (locals w2)
                | None => w2
                end)
             /\ files w2 (Server.input_path ws) = None
             /\ files w2 (Server.output_path ws) = None
             /\ forall p, files w p = None -> files w2 p = None).
  { unfold Server.cleanup. unfold bind at 1. unfold get_locals.
    rewrite Hp. unfold bind at 1.
    destruct (remove_file_spec (Server.input_path ws) w) as (w1 & -> & H1).
    unfold bind at 1.
    destruct (remove_file_spec (Server.output_path ws) w1)
      as (w2 & -> & H2).
    exists w2. split; [destruct (Server.temp_dir_for_action ws); reflexivity|].
    split; [|split].
    - rewrite H2, H1, bytes_eqb_refl. now destruct (bytes_eqb _ _).
    - now rewrite H2, bytes_eqb_refl.
    - intros p Hn. rewrite H2, H1, Hn. now repeat destruct (bytes_eqb _ _). }
  destruct E as (w2 & E & Hin & Hout & Hkeep). cbv zeta. rewrite E.
  cbn [snd].
  destruct (Server.temp_dir_for_action ws) as [d|]; cbn [files].
  - unfold fs_rmtree. repeat split.
    + now destruct (startswith (d ++ "/") (Server.input_path ws)).
    + now destruct (startswith (d ++ "/") (Server.output_path ws)).
    + intros d' p [= <-] Hs. now rewrite Hs.
    + intros p Hn.
      destruct (startswith (d ++ "/") p); [reflexivity|now apply Hkeep].
  - repeat split; try assumption. intros d p [=].
Qed.

(** No session breaks the accept loop or leaves files behind.  Whatever
    arrives on the connection, an iteration of the loop of
    [server_program] ends without an exception escaping, and when it ends
    the input file, the output file and everything in the scratch
    directory of the session are gone from the disk; a session that ended
    before its paths were set has not touched the disk at all. *)
Theorem session_ends_clean :
  forall env incoming disk,
    let run := Server.handle_connection env
                 (Server.server_start incoming disk) in
    fst run = inr tt
    /\ match Server.paths (locals (snd run)) with
       | Some ws =>
           files (snd run) (Server.input_path ws) = None
           /\ files (snd run) (Server.output_path ws) = None
           /\ (forall d p, Server.temp_dir_for_action ws = Some d ->
                           startswith (d ++ "/") p = true ->
                           files (snd run) p = None)
       | None => files (snd run) = disk
       end.
Proof.
  intros env incoming disk run. unfold run.
  unfold Server.handle_connection, try_finally, try_except.
  set (w0 := Server.server_start incoming disk).
  pose proof (serve_request_paths env disk w0 eq_refl) as Hj.
  assert (Hmid : exists w1,
             (match Server.serve_request env w0 with
              | (inr a, w') => (inr a, w')
              | (inl e, w') => Server.handle_error e w'
              end) = (inr tt, w1)
             /\ (Server.paths (locals w1) = None -> files w1 = disk)).
  { destruct (Server.serve_request env w0) as [[e|[]] w1].
    - destruct (handle_error_returns e w1) as [[] Hr].
      pose proof (handle_error_keeps_locals e w1) as Hl.
      pose proof (handle_error_keeps_files e w1) as Hf.
      destruct (Server.handle_error e w1) as [r w1']. cbn [fst snd] in *.
      subst r. exists w1'. split; [reflexivity|].
      rewrite Hl, Hf. exact Hj.
    - exists w1. split; [reflexivity|exact Hj]. }
  destruct Hmid as (w1 & -> & Hnone).
  destruct (cleanup_returns w1) as [[] Hr].
  pose proof (cleanup_keeps_locals w1) as Hl.
  destruct (Server.paths (locals w1)) as [ws|] eqn:Hp.
  - destruct (cleanup_removes w1 ws Hp) as (H1 & H2 & H3 & _).
    cbv zeta in H1, H2, H3.
    destruct (Server.cleanup w1) as [r w2]. cbn [fst snd] in *. subst r.
    cbn [fst snd]. rewrite Hl, Hp. auto.
  - assert (Hc : Server.cleanup w1 = (inr tt, w1)).
    { unfold Server.cleanup, bind, get_locals. now rewrite Hp. }
    rewrite Hc. cbn [fst snd]. rewrite Hp. auto.
Qed.

(** ** The answer of the server: a result or an error envelope *)











Lemma session_ends_clean_witness :
  let incoming :=
    [Data "split"; Data "doc.pdf"; Data "3               "; Data "abc";
     Data "1,3"; Data "ACK_OUT_FILENAME"] in
  let run := Server.handle_connection (example_server [])
               (Server.server_start incoming empty_disk) in
  let ws := Server.setup_paths "/tmp" 4242 "split" "doc.pdf" in
  let d : str := "/tmp/doc_split_output_4242" in
  let p : str := "/tmp/doc_split_output_4242/split_1_doc_4242_pdf.pdf" in
  Server.paths (locals (snd run)) = Some ws
  /\ Server.temp_dir_for_action ws = Some d
  /\ startswith (d ++ "/") p = true
  /\ In (FileWrite SplitFile p "a") (trace (snd run))
  /\ files (snd run) p = None.
Proof.
  intros incoming run ws d p.
  assert (H1 : Server.paths (locals (snd run)) = Some ws)
    by (vm_compute; reflexivity).
  assert (H2 : Server.temp_dir_for_action ws = Some d)
    by (vm_compute; reflexivity).
  assert (H3 : startswith (d ++ "/") p = true)
    by (vm_compute; reflexivity).
  split; [exact H1|]. split; [exact H2|]. split; [exact H3|].
  split; [vm_compute; tauto|].
  destruct (session_ends_clean (example_server []) incoming empty_disk)
    as [_ H].
  fold run in H. rewrite H1 in H.
  destruct H as (_ & _ & H). exact (H d p H2 H3).
Defined.


(** ** The client: one message box for every call *)

Lemma receive_result_dialog env action :
  hoare (fun w => proj is_dialog w = [])
    (Client.receive_result env action)
    (fun b w => exists d, proj is_dialog w = [d] /\ outcome_dialog b d)
    (fun _ w => proj is_dialog w = []).
Proof.
  unfold Client.receive_result.
  repeat
    (lazymatch goal with
     | |- hoare _ (bind (emit (Dialog _ _ _)) _) _ _ =>
         apply hoare_bind_emit; cbn [filter is_dialog app]
     | |- hoare _ (bind _ _) _ _ =>
         apply hoare_bind_silent;
         [ solve [ silent_auto
                 | unfold silent; apply recv_output_emits; reflexivity ]
         | intros ? ? ->; reflexivity
         | intros ? ]
     | |- hoare _ (match py_int ?s with _ => _ end) _ _ =>
         destruct (py_int s)
     | |- hoare _ (if ?c then _ else _) _ _ => destruct c
     | |- hoare _ (match Client.save_answer env with _ => _ end) _ _ =>
         destruct (Client.save_answer env)
     | |- hoare _ (raise _) _ _ =>
         apply hoare_raise; intros ? ->; reflexivity
     | |- hoare _ (ret _) _ _ =>
         apply hoare_ret; intros ? ->; eexists; split; [reflexivity|];
         cbn; auto
     end).
Qed.

Lemma client_body_dialog env action arg opts :
  hoare (fun w => proj is_dialog w = [])
    (Client.send_request_body env action arg opts)
    (fun b w => exists d, proj is_dialog w = [d] /\ outcome_dialog b d)
    (fun _ w => proj is_dialog w = []).
Proof.
  unfold Client.send_request_body.
  repeat
    (lazymatch goal with
     | |- hoare _ (bind _ _) _ _ =>
         apply hoare_bind_silent;
         [ solve [unfold Client.connect, Client.prepare_file_info,
                    Client.send_options; silent_auto]
         | intros ? ? ->; reflexivity
         | intros ? ]
     | |- hoare _ (match ?p with (_, _) => _ end) _ _ => destruct p
     end).
  apply receive_result_dialog.
Qed.

Lemma report_failure_dialog e :
  hoare (fun w => proj is_dialog w = [])
    (Client.report_failure e)
    (fun b w => exists d, proj is_dialog w = [d] /\ outcome_dialog b d)
    (fun _ _ => False).
Proof.
  unfold Client.report_failure.
  destruct e;
    (apply hoare_bind_emit; cbn [filter is_dialog app];
     apply hoare_ret; intros ? ->; eexists; split; [reflexivity|];
     cbn; auto).
Qed.

(** Every call of [send_request_to_server] returns a boolean, with no
    exception escaping, and shows exactly one message box: after [True]
    the note that the file was saved or the warning of an empty result,
    after [False] an error box or the warning that saving was cancelled. *)
Theorem client_call_shows_one_dialog :
  forall env action file_path_or_paths opts incoming disk,
    let run := Client.send_request_to_server env action file_path_or_paths
                 opts (Client.client_start incoming disk) in
    exists b d,
      fst run = inr b
      /\ proj is_dialog (snd run) = [d]
      /\ outcome_dialog b d.
Proof.
  intros env action arg opts incoming disk run. unfold run.
  set (w0 := Client.client_start incoming disk).
  assert (Hcl : forall w,
             filter is_dialog (trace (snd (Client.client_cleanup w)))
             = filter is_dialog (trace w)).
  { apply emits_only_filter. unfold Client.client_cleanup. silent_auto. }
  unfold Client.send_request_to_server, try_finally, try_except.
  pose proof (client_body_dialog env action arg opts w0 eq_refl) as Hb.
  assert (Hmid : exists b d w1,
             (match Client.send_request_body env action arg opts w0 with
              | (inr a, w') => (inr a, w')
              | (inl e, w') => Client.report_failure e w'
              end) = (inr b, w1)
             /\ proj is_dialog w1 = [d] /\ outcome_dialog b d).
  { destruct (Client.send_request_body env action arg opts w0)
      as [[e|b] w1].
    - pose proof (report_failure_dialog e w1 Hb) as Hr.
      destruct (Client.report_failure e w1) as [[e2|b] w2];
        [destruct Hr|].
      destruct Hr as (d & Hd & Ho). exists b, d, w2. auto.
    - destruct Hb as (d & Hd & Ho). exists b, d, w1. auto. }
  destruct Hmid as (b & d & w1 & -> & Hd & Ho).
  destruct (client_cleanup_returns w1) as [w2 Hc].
  specialize (Hcl w1). rewrite Hc in *. cbn [fst snd] in *.
  exists b, d. unfold proj in *. rewrite Hcl. auto.
Qed.

(** ** The client: the temporary archive of a merge *)

Lemma hoare_quiet {L A} K (m : M L A)
    (Q : list event -> L -> fs -> Prop) :
  silent K m -> keeps_locals m -> keeps_files m ->
  hoare (fun w => Q (proj K w) (locals w) (files w)) m
        (fun _ w => Q (proj K w) (locals w) (files w))
        (fun _ w => Q (proj K w) (locals w) (files w)).
Proof.
  intros Hs Hl Hf w Hw. unfold proj in *.
  pose proof (emits_only_filter K m Hs w) as E.
  specialize (Hl w). specialize (Hf w).
  destruct (m w) as [[e|a] w']; cbn [snd] in *; now rewrite E, Hl, Hf.
Qed.

Lemma hoare_quiet_locals {L A} K (m : M L A)
    (Q : list event -> L -> Prop) :
  silent K m -> keeps_locals m ->
  hoare (fun w => Q (proj K w) (locals w)) m
        (fun _ w => Q (proj K w) (locals w))
        (fun _ w => Q (proj K w) (locals w)).
Proof.
  intros Hs Hl w Hw. unfold proj in *.
  pose proof (emits_only_filter K m Hs w) as E.
  specialize (Hl w).
  destruct (m w) as [[e|a] w']; cbn [snd] in *; now rewrite E, Hl.
Qed.

Lemma keeps_files_ret {L A} (a : A) : keeps_files (@ret L A a).
Proof. intros w. reflexivity. Qed.

Lemma keeps_files_raise {L A} (e : exn) : keeps_files (@raise L A e).
Proof. intros w. reflexivity. Qed.

Lemma connect_keeps_files env : keeps_files (Client.connect env).
Proof.
  unfold Client.connect. destruct (Client.connect_error env);
    [apply keeps_files_raise|apply keeps_files_ret].
Qed.

Lemma connect_keeps_locals env : keeps_locals (Client.connect env).
Proof. unfold Client.connect. keeps_auto. Qed.

Lemma recv_output_keeps_locals fuel size received data :
  keeps_locals (Client.recv_output fuel size received data).
Proof.
  revert received data. induction fuel as [|fuel IH]; intros received data;
    cbn [Client.recv_output]; destruct (received <? size)%Z;
    try apply keeps_locals_ret; try apply keeps_locals_raise.
  apply keeps_locals_bind; [apply keeps_locals_recv|intros chunk].
  apply keeps_locals_bind; [apply keeps_locals_raise_if|intros _]. apply IH.
Qed.

Lemma receive_result_keeps_locals env action :
  keeps_locals (Client.receive_result env action).
Proof.
  unfold Client.receive_result.
  repeat lazymatch goal with
    | |- keeps_locals (bind (Client.recv_output _ _ _ _) _) =>
        apply keeps_locals_bind; [apply recv_output_keeps_locals|intros]
    | |- keeps_locals _ => keeps_step
    end.
Qed.

Lemma send_options_keeps_locals action opts :
  keeps_locals (Client.send_options action opts).
Proof. unfold Client.send_options. keeps_auto. Qed.

Lemma report_failure_keeps_locals e :
  keeps_locals (Client.report_failure e).
Proof. unfold Client.report_failure. keeps_auto. Qed.

(** "Prepare File Info" and the temporary archive: it is written only
    for a merge of a list of at least two paths, under the name the
    system picked, with the files of the list that exist, and the name is
    then remembered for the [finally] clause. *)
Lemma prepare_file_info_temp_zip env action arg (disk : fs) :
  let written D (w : world Client.client_locals) :=
    proj is_temp_zip w = [FileWrite TempZip (Client.temp_zip_name env) D]
    /\ locals w = Client.ClientLocals (Some (Client.temp_zip_name env))
    /\ bytes_eqb action "merge" = true
    /\ exists paths,
         arg = Client.ManyPaths paths
         /\ D = Client.zip_encode env (Client.merge_members disk paths) in
  hoare (fun w => proj is_temp_zip w = [] /\ files w = disk)
        (Client.prepare_file_info env action arg)
        (fun _ w => proj is_temp_zip w = [] \/ exists D, written D w)
        (fun _ w => proj is_temp_zip w = [] \/ exists D, written D w).
Proof.
  intros written w [Hp Hf]. unfold Client.prepare_file_info.
  destruct (bytes_eqb action "merge") eqn:Hm.
  - destruct arg as [path|paths]; [cbn; now left|].
    unfold bind at 1. destruct (length paths <? 2)%nat;
      cbn [raise_if raise ret]; [now left|].
    unfold bind at 1. cbn [set_locals]. unfold bind at 1. cbn [files].
    unfold bind at 1. cbn [write_file].
    assert (Hw : forall r : unit,
               let w' := World (inbound w)
                           (trace w ++
                            [FileWrite TempZip (Client.temp_zip_name env)
                               (Client.zip_encode env
                                  (Client.merge_members (files w) paths))])
                           (fs_write (files w) (Client.temp_zip_name env)
                              (Client.zip_encode env
                                 (Client.merge_members (files w) paths)))
                           (Client.ClientLocals
                              (Some (Client.temp_zip_name env))) in
               exists D, written D w').
    { intros r w'. subst w'. eexists. unfold written, proj in *.
      cbn [trace locals].
      rewrite filter_app, Hp. cbn [filter is_temp_zip app].
      split; [reflexivity|]. split; [reflexivity|].
      split; [reflexivity|]. exists paths. rewrite Hf. auto. }
    unfold bind.
    destruct (length (Client.merge_members (files w) paths) <? 2)%nat;
      cbn [raise_if raise ret]; right; exact (Hw tt).
  - destruct arg as [path|paths]; [|cbn; now left].
    unfold bind, isfile. destruct (files w path); cbn; now left.
Qed.

Lemma client_body_temp_zip env action arg opts (disk : fs) :
  let written D (w : world Client.client_locals) :=
    proj is_temp_zip w = [FileWrite TempZip (Client.temp_zip_name env) D]
    /\ locals w = Client.ClientLocals (Some (Client.temp_zip_name env))
    /\ bytes_eqb action "merge" = true
    /\ exists paths,
         arg = Client.ManyPaths paths
         /\ D = Client.zip_encode env (Client.merge_members disk paths) in
  hoare (fun w => proj is_temp_zip w = [] /\ files w = disk)
        (Client.send_request_body env action arg opts)
        (fun _ w => proj is_temp_zip w = [] \/ exists D, written D w)
        (fun _ w => proj is_temp_zip w = [] \/ exists D, written D w).
Proof.
  intros written. unfold Client.send_request_body.
  assert (Hpre : forall A (m : Client.CM A),
             silent is_temp_zip m -> keeps_locals m -> keeps_files m ->
             hoare (fun w => proj is_temp_zip w = [] /\ files w = disk) m
                   (fun _ w => proj is_temp_zip w = [] /\ files w = disk)
                   (fun _ w => proj is_temp_zip w = []
                               \/ exists D, written D w)).
  { intros A m H1 H2 H3. eapply hoare_conseq.
    - apply (hoare_quiet is_temp_zip m
               (fun tr _ f => tr = [] /\ f = disk) H1 H2 H3).
    - auto.
    - auto.
    - cbv beta. intros e w [H _]. now left. }
  assert (Hpost : forall A (m : Client.CM A),
             silent is_temp_zip m -> keeps_locals m ->
             hoare (fun w => proj is_temp_zip w = []
                             \/ exists D, written D w) m
                   (fun _ w => proj is_temp_zip w = []
                               \/ exists D, written D w)
                   (fun _ w => proj is_temp_zip w = []
                               \/ exists D, written D w)).
  { intros A m H1 H2.
    apply (hoare_quiet_locals is_temp_zip m
             (fun tr l =>
                tr = []
                \/ exists D,
                     tr = [FileWrite TempZip (Client.temp_zip_name env) D]
                     /\ l = Client.ClientLocals
                              (Some (Client.temp_zip_name env))
                     /\ bytes_eqb action "merge" = true
                     /\ exists paths,
                          arg = Client.ManyPaths paths
                          /\ D = Client.zip_encode env
                                   (Client.merge_members disk paths))
             H1 H2). }
  repeat
    (lazymatch goal with
     | |- hoare (fun w => _ /\ _) (bind (Client.prepare_file_info _ _ _) _)
                _ _ =>
         apply hoare_bind
           with (R := fun _ w => proj is_temp_zip w = []
                                 \/ exists D, written D w);
         [apply prepare_file_info_temp_zip|intros ?]
     | |- hoare (fun w => _ /\ _) (bind ?m _) _ _ =>
         apply hoare_bind
           with (R := fun _ w => proj is_temp_zip w = [] /\ files w = disk);
         [ apply Hpre;
           [ solve [unfold Client.connect; silent_auto]
           | solve [unfold Client.connect; keeps_auto]
           | first [ apply connect_keeps_files | apply keeps_files_emit
                   | apply keeps_files_recv | apply keeps_files_raise_if ] ]
         | intros ? ]
     | |- hoare (fun w => _ \/ _) (bind ?m _) _ _ =>
         apply hoare_bind
           with (R := fun _ w => proj is_temp_zip w = []
                                 \/ exists D, written D w);
         [ apply Hpost;
           [ solve [unfold Client.send_options; silent_auto]
           | solve [ keeps_auto | apply send_options_keeps_locals ] ]
         | intros ? ]
     | |- hoare _ (match ?p with (_, _) => _ end) _ _ => destruct p
     end).
  apply Hpost; [|apply receive_result_keeps_locals].
  unfold silent, Client.receive_result.
  repeat lazymatch goal with
    | |- emits_only _ (Client.recv_output _ _ _ _) =>
        apply recv_output_emits; reflexivity
    | |- emits_only _ _ => emits_step
    end.
Qed.

(** The temporary archive does not outlive the call.  Whenever a call of
    [send_request_to_server] has written a temporary archive, the action
    was a merge of a list of paths, the archive was written once, under
    the name the system picked, with the files of the list that exist on
    the disk, each under its base name and in the order of the list, and
    when the call ends, however it ends, that file is gone from the
    disk. *)
Theorem temporary_archive_is_removed :
  forall env action file_path_or_paths opts incoming disk path data,
    let run := Client.send_request_to_server env action file_path_or_paths
                 opts (Client.client_start incoming disk) in
    In (FileWrite TempZip path data) (trace (snd run)) ->
    path = Client.temp_zip_name env
    /\ action = ("merge" : str)
    /\ (exists paths,
          file_path_or_paths = Client.ManyPaths paths
          /\ data = Client.zip_encode env (Client.merge_members disk paths))
    /\ proj is_temp_zip (snd run) = [FileWrite TempZip path data]
    /\ files (snd run) path = None.
Proof.
  intros env action arg opts incoming disk path data run Hin.
  set (w0 := Client.client_start incoming disk) in *.
  set (tmp := Client.temp_zip_name env).
  set (Inv := fun w : world Client.client_locals =>
                proj is_temp_zip w = []
                \/ exists D,
                     proj is_temp_zip w = [FileWrite TempZip tmp D]
                     /\ locals w = Client.ClientLocals (Some tmp)
                     /\ bytes_eqb action "merge" = true
                     /\ exists paths,
                          arg = Client.ManyPaths paths
                          /\ D = Client.zip_encode env
                                   (Client.merge_members disk paths)).
  assert (Hmid : exists r w1,
             try_except (Client.send_request_body env action arg opts)
               Client.report_failure w0 = (r, w1) /\ Inv w1).
  { unfold try_except.
    pose proof (client_body_temp_zip env action arg opts disk w0
                  (conj eq_refl eq_refl)) as Hb.
    cbv zeta in Hb. fold tmp in Hb.
    destruct (Client.send_request_body env action arg opts w0)
      as [[e|b] w1]; [|exists (inr b), w1; auto].
    assert (Hs : silent is_temp_zip (Client.report_failure e))
      by (unfold Client.report_failure; silent_auto).
    pose proof (hoare_quiet_locals is_temp_zip (Client.report_failure e)
                  (fun tr l =>
                     tr = []
                     \/ exists D,
                          tr = [FileWrite TempZip tmp D]
                          /\ l = Client.ClientLocals (Some tmp)
                          /\ bytes_eqb action "merge" = true
                          /\ exists paths,
                               arg = Client.ManyPaths paths
                               /\ D = Client.zip_encode env
                                        (Client.merge_members disk paths))
                  Hs (report_failure_keeps_locals e) w1 Hb) as Hr.
    destruct (Client.report_failure e w1) as [[e2|b2] w2]; eauto. }
  destruct Hmid as (r & w1 & Hrun1 & Hinv).
  assert (Hrun : run = (let (res, w2) := Client.client_cleanup w1 in
                        match res with
                        | inr _ => (r, w2)
                        | inl e => (inl e, w2)
                        end)).
  { unfold run, Client.send_request_to_server, try_finally.
    now rewrite Hrun1. }
  assert (Hcl : filter is_temp_zip (trace (snd (Client.client_cleanup w1)))
                = filter is_temp_zip (trace w1)).
  { apply emits_only_filter. unfold Client.client_cleanup. silent_auto. }
  assert (Hsnd : snd run = snd (Client.client_cleanup w1)).
  { rewrite Hrun. destruct (Client.client_cleanup w1) as [[e|u] w2];
      reflexivity. }
  rewrite Hsnd in *. clear Hrun Hsnd.
  assert (Hk : In (FileWrite TempZip path data)
                  (filter is_temp_zip (trace w1))).
  { rewrite <- Hcl. apply filter_In. split; [exact Hin|reflexivity]. }
  unfold proj. rewrite Hcl.
  destruct Hinv as [Hnone|(D & Hone & Hloc & Hmerge & paths & Harg & HD)];
    unfold proj in *.
  - rewrite Hnone in Hk. destruct Hk.
  - rewrite Hone in Hk. destruct Hk as [Hk|[]].
    injection Hk as <- <-.
    split; [reflexivity|]. split; [now apply bytes_eqb_eq|].
    split; [exists paths; auto|]. split; [exact Hone|].
    unfold Client.client_cleanup, bind, get_locals. rewrite Hloc.
    cbn [Client.local_zip_to_send].
    destruct (remove_file_spec tmp w1) as (w2 & -> & Hf). cbn [snd].
    now rewrite Hf, bytes_eqb_refl.
Qed.

Lemma temporary_archive_is_removed_witness :
  let disk := fs_write (fs_write empty_disk "/home/u/a.pdf" "11")
                "/home/u/b.pdf" "22" in
  let paths := [("/home/u/b.pdf" : str); ("/home/u/none.pdf" : str);
                ("/home/u/a.pdf" : str)] in
  let run := Client.send_request_to_server example_client "merge"
               (Client.ManyPaths paths) no_client_options
               (Client.client_start [Data "ACK_ACTION"; Data "NO"] disk) in
  In (FileWrite TempZip "/tmp/tmpzip.zip" "b.pdf:22;a.pdf:11;")
     (trace (snd run))
  /\ files (snd run) "/tmp/tmpzip.zip" = None.
Proof.
  intros disk paths run.
  assert (H : In (FileWrite TempZip "/tmp/tmpzip.zip" "b.pdf:22;a.pdf:11;")
                 (trace (snd run))) by (vm_compute; tauto).
  split; [exact H|].
  exact (proj2 (proj2 (proj2 (proj2
           (temporary_archive_is_removed example_client "merge"
              (Client.ManyPaths paths) no_client_options
              [Data "ACK_ACTION"; Data "NO"] disk
              "/tmp/tmpzip.zip" "b.pdf:22;a.pdf:11;" H))))).
Defined.

(** ** The paths of a session *)










(** ** The option fields the client sends *)

Lemma emits_only_bind_raise_if {L B} G (c : bool) (e : exn)
    (f : unit -> M L B) :
  (c = false -> emits_only G (f tt)) ->
  emits_only G (bind (raise_if c e) f).
Proof.
  intros H. destruct c.
  - intros w. exists []. cbn. now rewrite app_nil_r.
  - apply emits_only_bind; [apply emits_only_raise_if|intros []; auto].
Qed.

Lemma falsy_nonempty (s : option str) :
  Client.falsy s = false -> is_empty (Client.or_empty s) = false.
Proof. destruct s as [[|c r]|]; [discriminate|reflexivity|discriminate]. Qed.

Lemma send_options_nonempty action opts :
  emits_only option_sent_ok (Client.send_options action opts).
Proof.
  unfold Client.send_options.
  repeat lazymatch goal with
    | |- emits_only _ (bind (raise_if (Client.falsy _ || _) _) _) =>
        apply emits_only_bind_raise_if; intros Hc;
        apply orb_false_iff in Hc as [Hp Ha];
        apply falsy_nonempty in Hp; apply (falsy_nonempty (Some _)) in Ha;
        cbn [Client.or_empty] in Ha
    | |- emits_only _ (bind (raise_if (Client.falsy _) _) _) =>
        apply emits_only_bind_raise_if; intros Hc;
        apply falsy_nonempty in Hc
    | |- emits_only _ (sendall StPass _) =>
        apply emits_only_sendall; reflexivity
    | |- emits_only _ (sendall _ _) =>
        apply emits_only_sendall; cbn [option_sent_ok];
        first [now rewrite Hc | now rewrite Hp | now rewrite Ha]
    | |- emits_only _ (if ?c then _ else _) => destruct c
    | |- emits_only _ (match ?x with _ => _ end) => destruct x
    | |- emits_only _ (bind _ _) => apply emits_only_bind; [|intros]
    | |- emits_only _ _ => emits_step
    end.
Qed.

(** The client sends no empty option.  Whatever the caller passes and
    whatever the server answers, a call of [send_request_to_server] never
    sends an empty ranges, pages, angle or position field: when such an
    option is missing or empty the call stops before sending it. *)
Theorem client_sends_no_empty_option :
  forall env action file_path_or_paths opts incoming disk,
    let run := Client.send_request_to_server env action file_path_or_paths
                 opts (Client.client_start incoming disk) in
    forallb option_sent_ok (trace (snd run)) = true.
Proof.
  intros env action arg opts incoming disk run.
  assert (H : emits_only option_sent_ok
                (Client.send_request_to_server env action arg opts)).
  { unfold Client.send_request_to_server, Client.send_request_body,
      Client.report_failure, Client.client_cleanup, Client.connect,
      Client.prepare_file_info.
    repeat lazymatch goal with
      | |- emits_only _ (Client.send_options _ _) =>
          apply send_options_nonempty
      | |- emits_only _ (Client.receive_result _ _) =>
          apply receive_result_emits;
          [intros [] H; first [reflexivity|discriminate]|reflexivity..]
      | |- emits_only _ _ => emits_step
      end. }
  destruct (H (Client.client_start incoming disk)) as (evs & Ht & Hg).
  unfold run. now rewrite Ht.
Qed.

(** ** What the server works on *)

Lemma execute_action_unsupported env action ws opts :
  supported action (Server.input_ext ws) = false ->
  silent is_processing (Server.execute_action env action ws opts).
Proof.
  unfold supported. intros H. apply orb_false_iff in H as [Hc Hv].
  cbn [existsb] in Hc.
  repeat (apply orb_false_iff in Hc; destruct Hc as [? Hc]).
  unfold Server.execute_action, Server.handle_file_conversion.
  repeat match goal with
         | E : bytes_eqb action _ = false |- _ => rewrite E; clear E
         end.
  destruct (bytes_eqb action "convert"); [|apply emits_only_raise].
  cbn [andb] in Hv. rewrite Hv. apply emits_only_raise.
Qed.

Lemma recv_input_unprocessed fuel path size received :
  silent is_processing (Server.recv_input fuel path size received).
Proof.
  unfold silent. revert received.
  induction fuel as [|fuel IH]; intros received; simpl;
    destruct (received <? size)%Z;
    try apply emits_only_raise; try apply emits_only_ret.
  apply emits_only_bind; [apply emits_only_recv; reflexivity|intros chunk].
  apply emits_only_bind; [apply emits_only_raise_if|intros _].
  apply emits_only_bind; [|intros _; apply IH].
  intros w. eexists [_]. split; reflexivity.
Qed.

Lemma send_result_unprocessed action ws :
  silent is_processing (Server.send_result action ws).
Proof. apply send_result_emits; reflexivity. Qed.

Lemma handle_error_unprocessed e :
  silent is_processing (Server.handle_error e).
Proof. apply handle_error_emits; reflexivity. Qed.

Lemma cleanup_unprocessed : silent is_processing Server.cleanup.
Proof.
  unfold silent, Server.cleanup.
  apply emits_only_bind; [apply emits_only_get_locals|intros l].
  destruct (Server.paths l) as [ws|]; [|apply emits_only_ret].
  apply emits_only_bind; [apply emits_only_remove_file; reflexivity|intros _].
  apply emits_only_bind; [apply emits_only_remove_file; reflexivity|intros _].
  destruct (Server.temp_dir_for_action ws); [|apply emits_only_ret].
  intros w. eexists [_]. split; reflexivity.
Qed.

Lemma serve_request_supported env :
  let Q (w : world Server.server_locals) :=
    proj is_processing w = []
    \/ exists ws,
         Server.paths (locals w) = Some ws
         /\ supported (Server.action (locals w)) (Server.input_ext ws)
            = true in
  hoare (fun w => proj is_processing w = []) (Server.serve_request env)
        (fun _ w => Q w) (fun _ w => Q w).
Proof.
  intros Q. unfold Server.serve_request.
  repeat lazymatch goal with
    | |- hoare _ (bind (set_locals (Server.ServerLocals _ (Some _) _)) _)
               _ _ => fail
    | |- hoare _ (bind ?m _) _ _ =>
        apply (hoare_bind_silent is_processing []);
        [silent_auto|intros e w Hw; now left|intros ?]
    end.
  match goal with
  | |- hoare _ (bind (set_locals (Server.ServerLocals ?a (Some ?ws) _)) _)
             _ _ =>
      set (act := a); set (W := ws);
      destruct (supported a (Server.input_ext ws)) eqn:S
  end.
  - set (I := fun l => Server.paths l = Some W /\ Server.action l = act).
    assert (HI : forall w : world Server.server_locals, I (locals w) -> Q w).
    { intros w [Hp Ha]. right. exists W. rewrite Ha. auto. }
    assert (Hrest : forall A (m : Server.SM A),
               keeps_locals m ->
               hoare (fun w => I (locals w)) m
                     (fun _ w => I (locals w)) (fun _ w => Q w)).
    { intros A m Hm. eapply hoare_conseq;
        [apply (hoare_keeps_locals m I Hm)|auto|auto
        |cbv beta; intros; now apply HI]. }
    apply hoare_bind with (R := fun _ w => I (locals w));
      [intros w _; cbn; split; reflexivity|intros _].
    repeat lazymatch goal with
      | |- hoare _ (bind (set_locals _) _) _ _ =>
          apply hoare_bind with (R := fun _ w => I (locals w));
          [intros w [Hp Ha]; cbn; split; reflexivity|intros _]
      | |- hoare _ (bind ?m _) _ _ =>
          apply hoare_bind with (R := fun _ w => I (locals w));
          [ apply Hrest;
            first [ apply keeps_locals_recv | apply keeps_locals_raise_if
                  | apply keeps_locals_emit | apply keeps_locals_write_file
                  | apply recv_input_keeps_locals
                  | apply recv_options_keeps_locals
                  | apply execute_action_keeps_locals ]
          | intros ? ]
      | |- hoare _ (match ?x with _ => _ end) _ _ => destruct x
      | |- hoare _ (raise _) _ _ =>
          apply hoare_raise; intros; now apply HI
      end.
    eapply hoare_conseq;
      [apply Hrest, send_result_keeps_locals|auto
      |cbv beta; intros; now apply HI|auto].
  - eapply hoare_conseq;
      [apply (proj_silent is_processing _ (fun tr => tr = []))
      |auto|intros ? w Hw; now left|intros ? w Hw; now left].
    unfold silent.
    repeat lazymatch goal with
      | |- emits_only _ (Server.recv_input _ _ _ _) =>
          apply recv_input_unprocessed
      | |- emits_only _ (Server.recv_options _) =>
          apply recv_options_silent; reflexivity
      | |- emits_only _ (Server.execute_action _ _ _ _) =>
          apply execute_action_unsupported; exact S
      | |- emits_only _ (Server.send_result _ _) =>
          apply send_result_unprocessed
      | |- emits_only _ _ => emits_step
      end.
Qed.

(** The server works only on requests it has a branch for.  Whatever
    arrives on the connection, a session in which a library or a converter
    is called, or an output file, a part of a split or an extracted entry
    is written, is a session whose action is one of [encrypt], [decrypt],
    [pdf_to_jpg], [pdf_to_word], [pdf_to_pptx], [compress], [split],
    [merge], [rotate] and [add_numbers], or is [convert] with an input
    file whose extension, in lower case, is one of [.jpg], [.jpeg],
    [.png], [.docx], [.pptx], [.xlsx] and [.html]. *)
Theorem server_works_only_on_supported_requests :
  forall env incoming disk e,
    let run := Server.handle_connection env
                 (Server.server_start incoming disk) in
    In e (trace (snd run)) -> is_processing e = true ->
    exists ws,
      Server.paths (locals (snd run)) = Some ws
      /\ supported (Server.action (locals (snd run))) (Server.input_ext ws)
         = true.
Proof.
  intros env incoming disk e run Hin He.
  set (Q := fun (tr : list event) (l : Server.server_locals) =>
              tr = []
              \/ exists ws,
                   Server.paths l = Some ws
                   /\ supported (Server.action l) (Server.input_ext ws)
                      = true).
  assert (HQ : Q (proj is_processing (snd run)) (locals (snd run))).
  { unfold run, Server.handle_connection, try_finally, try_except.
    set (w0 := Server.server_start incoming disk).
    pose proof (serve_request_supported env w0 eq_refl) as Hs.
    cbv zeta in Hs. fold (Q (proj is_processing w0)) in Hs.
    assert (Hmid : Q (proj is_processing
                        (snd (match Server.serve_request env w0 with
                              | (inr a, w') => (inr a, w')
                              | (inl x, w') => Server.handle_error x w'
                              end)))
                     (locals
                        (snd (match Server.serve_request env w0 with
                              | (inr a, w') => (inr a, w')
                              | (inl x, w') => Server.handle_error x w'
                              end)))).
    { destruct (Server.serve_request env w0) as [[x|a] w1]; [|exact Hs].
      pose proof (hoare_quiet_locals is_processing (Server.handle_error x)
                    Q (handle_error_unprocessed x)
                    (handle_error_keeps_locals x) w1 Hs) as Hh.
      destruct (Server.handle_error x w1) as [[x2|a2] w2]; exact Hh. }
    destruct (match Server.serve_request env w0 with
              | (inr a, w') => (inr a, w')
              | (inl x, w') => Server.handle_error x w'
              end) as [r w1]. cbn [snd] in Hmid.
    pose proof (hoare_quiet_locals is_processing Server.cleanup
                  Q cleanup_unprocessed cleanup_keeps_locals w1 Hmid) as Hc.
    destruct (Server.cleanup w1) as [[x|u] w2]; exact Hc. }
  destruct HQ as [Hnone|Hsup]; [|exact Hsup].
  assert (Hk : In e (proj is_processing (snd run)))
    by (apply filter_In; split; assumption).
  rewrite Hnone in Hk. destruct Hk.
Qed.

Lemma server_works_only_on_supported_requests_witness :
  let run := Server.handle_connection (example_server [])
               (Server.server_start
                  [Data "compress"; Data "a.pdf"; Data "2"; Data "ab";
                   Data "ACK"; Data "ACK"] empty_disk) in
  In (Engine "compress" "/tmp/a_4242.pdf") (trace (snd run))
  /\ exists ws,
       Server.paths (locals (snd run)) = Some ws
       /\ supported (Server.action (locals (snd run))) (Server.input_ext ws)
          = true.
Proof.
  intros run.
  assert (H : In (Engine "compress" "/tmp/a_4242.pdf") (trace (snd run)))
    by (vm_compute; tauto).
  split; [exact H|].
  exact (server_works_only_on_supported_requests (example_server [])
           [Data "compress"; Data "a.pdf"; Data "2"; Data "ab";
            Data "ACK"; Data "ACK"] empty_disk
           (Engine "compress" "/tmp/a_4242.pdf") H eq_refl).
Defined.
